(** * TldrawEditor: the store gate, the editor lifecycle and mount sequencing

    A shallow embedding of [packages/editor/src/lib/TldrawEditor.tsx].  The
    three function components of that file ([TldrawEditorWithLoadingStore],
    [TldrawEditorWithReadyStore], [Layout]) are embedded hook by hook, on top
    of a small model of React's commit cycle: every hook of the source keeps
    its state in a fiber record, every imperative call the components make is
    logged as an [Event], and thrown errors are results of the monad.

    [Layout] also calls [useZoomCss], [useCursor], [useDarkMode] and
    [useForceUpdate].  These hooks belong to other files: they register no
    teardown and call neither the constructor nor [dispose], and what they
    write to the container is not recorded here: the class lists of the
    world are what the effect of the gate makes of them, and the theorems on
    class lists below are about gates under which no [Layout] has been
    mounted. *)

From stdpp Require Import base decidable option list strings gmap.

(** ** JavaScript values as the components see them *)

(** Objects reach the components by reference and dependency arrays compare
    them with [Object.is]; a reference is a natural number. *)
Definition Ref := nat.

Record JsError := { message : string }.

(** [TLUser]: only its identity and its preferences signal are used here. *)
Record TLUser := { user_ref : Ref }.

(** A [TLOnMountHandler]: calling it may return a teardown function. *)
Record MountHandler := { handler_ref : Ref; handler_teardown : option Ref }.

(** [TLStore]: its identity and what [store.props.onEditorMount] returns. *)
Record TLStore := { store_ref : Ref; onEditorMount_teardown : option Ref }.

(** [TLStoreWithStatus], the tagged union switched on by the gate. *)
Inductive TLStoreWithStatus :=
| StatusError (error : JsError)
| StatusLoading
| StatusNotSynced (store : TLStore)
| StatusSyncedLocal (store : TLStore)
| StatusSyncedRemote (store : TLStore).

(** The props both components share ([TldrawEditorBaseProps], with the
    defaults of [TldrawEditor] already applied to the three arrays). *)
Record BaseProps := {
  onMount : option MountHandler;
  tools : Ref;
  shapeUtils : Ref;
  bindingUtils : Ref;
  initialState : option string;
  autoFocus : option bool;
  inferDarkMode : option bool;
  cameraOptions : option Ref;
  options : option Ref;
  licenseKey : option string;
}.

Record ReadyProps := { r_store : TLStore; r_user : TLUser; r_base : BaseProps }.

Record LoadingProps :=
  { l_store : TLStoreWithStatus; l_user : TLUser; l_base : BaseProps }.

(** The argument object of [new Editor({...})]. *)
Record EditorArgs := {
  a_store : TLStore;
  a_shapeUtils : Ref;
  a_bindingUtils : Ref;
  a_tools : Ref;
  a_getContainer : Ref;
  a_user : TLUser;
  a_initialState : option string;
  a_autoFocus : bool;
  a_inferDarkMode : option bool;
  a_cameraOptions : option Ref;
  a_options : option Ref;
  a_licenseKey : option string;
}.

(** An [Editor] handle: the instance's identity and what it was built from. *)
Record Editor := { editor_id : nat; editor_args : EditorArgs }.

(** [editorOptionsRef.current] *)
Record EditorOptions := {
  o_autoFocus : bool;
  o_inferDarkMode : option bool;
  o_initialState : option string;
  o_cameraOptions : option Ref;
}.

#[global] Instance JsError_eq_dec : EqDecision JsError.
Proof. solve_decision. Defined.
#[global] Instance TLUser_eq_dec : EqDecision TLUser.
Proof. solve_decision. Defined.
#[global] Instance MountHandler_eq_dec : EqDecision MountHandler.
Proof. solve_decision. Defined.
#[global] Instance TLStore_eq_dec : EqDecision TLStore.
Proof. solve_decision. Defined.
#[global] Instance EditorArgs_eq_dec : EqDecision EditorArgs.
Proof. solve_decision. Defined.
#[global] Instance Editor_eq_dec : EqDecision Editor.
Proof. solve_decision. Defined.
#[global] Instance EditorOptions_eq_dec : EqDecision EditorOptions.
Proof. solve_decision. Defined.

(** ** The world outside React, and the log of calls *)

Inductive HistoryMode := record | record_preserveRedoStack | ignore.

Inductive Event :=
| EvNew (e : Editor)                         (* [new Editor(args)] returned [e] *)
| EvNewThrow (args : EditorArgs) (err : JsError) (* [new Editor(args)] threw *)
| EvSetEditor (e : nat)                      (* [setEditor(editor)] *)
| EvDispose (e : nat)                        (* [editor.dispose()] *)
| EvSetCameraOptions (e : nat) (c : Ref)     (* [editor.setCameraOptions(c)] *)
| EvRunBegin (e : nat) (h : HistoryMode)     (* [editor.run(fn, {history})] entered *)
| EvRunEnd (e : nat)                         (* ... and left *)
| EvOnEditorMount (s : Ref) (e : nat) (r : option Ref)
                                 (* [store.props.onEditorMount(editor)] returned [r] *)
| EvOnMount (h : Ref) (e : nat) (r : option Ref)
                                 (* the caller's [onMount(editor)] returned [r] *)
| EvEmitMount (e : nat)                      (* [editor.emit('mount')] *)
| EvTldrawReady                              (* [window.tldrawReady = true] *)
| EvTeardown (e : nat)                       (* the cleanup [useOnMount] kept for [e] *)
| EvCall (e : nat) (fn : Ref)                 (* a teardown kept for [e] is called *)
| EvAnnotateError (e : nat) (err : JsError).  (* [editor.annotateError(error, ..)] *)

#[global] Instance HistoryMode_eq_dec : EqDecision HistoryMode.
Proof. solve_decision. Defined.
#[global] Instance Event_eq_dec : EqDecision Event.
Proof. solve_decision. Defined.

(** The mutable part of an engine instance. *)
Record EditorState := {
  disposed : bool;
  crashingError : option JsError;
  liveCameraOptions : option Ref;
}.

Record World := {
  editors : list EditorState;        (* instance [i] lives at index [i] *)
  tldrawReady : bool;                (* [window.tldrawReady] *)
  colorScheme : gmap Ref string;     (* [user.userPreferences.get().colorScheme] *)
  classList : gmap Ref (list string) (* [container.classList], as the gate's
                                        effect leaves it *)
}.

Definition set_editors (f : list EditorState → list EditorState) (w : World) :=
  {| editors := f (editors w); tldrawReady := tldrawReady w;
     colorScheme := colorScheme w; classList := classList w |}.

Definition set_tldrawReady (b : bool) (w : World) :=
  {| editors := editors w; tldrawReady := b;
     colorScheme := colorScheme w; classList := classList w |}.

Definition set_colorScheme (f : gmap Ref string → gmap Ref string) (w : World) :=
  {| editors := editors w; tldrawReady := tldrawReady w;
     colorScheme := f (colorScheme w); classList := classList w |}.

Definition set_classList
    (f : gmap Ref (list string) → gmap Ref (list string)) (w : World) :=
  {| editors := editors w; tldrawReady := tldrawReady w;
     colorScheme := colorScheme w; classList := f (classList w) |}.

(** ** A state, log and exception monad for effect bodies *)

Inductive Result (A : Type) := Ok (a : A) | Thrown (err : JsError).
Arguments Ok {A} a.
Arguments Thrown {A} err.

Definition M (A : Type) : Type := World → Result A * World * list Event.

Definition ret {A} (a : A) : M A := λ w, (Ok a, w, []).

Definition bind {A B} (m : M A) (k : A → M B) : M B := λ w,
  match m w with
  | (Ok a, w1, t1) => let '(r, w2, t2) := k a w1 in (r, w2, t1 ++ t2)
  | (Thrown err, w1, t1) => (Thrown err, w1, t1)
  end.

Definition throw {A} (err : JsError) : M A := λ w, (Thrown err, w, []).

(** [try { m } catch (err) { ... }] as a value. *)
Definition try {A} (m : M A) : M (JsError + A) := λ w,
  match m w with
  | (Ok a, w1, t1) => (Ok (inr a), w1, t1)
  | (Thrown err, w1, t1) => (Ok (inl err), w1, t1)
  end.

Definition emit (ev : Event) : M unit := λ w, (Ok tt, w, [ev]).
Definition get_world : M World := λ w, (Ok w, w, []).
Definition modify (f : World → World) : M unit := λ w, (Ok tt, f w, []).

Declare Scope react_scope.
Delimit Scope react_scope with react.
Notation "x <- m ;; k" := (bind m (λ x, k))
  (at level 20, m at level 99, k at level 200, only parsing)
  : react_scope.
Notation "' x <- m ;; k" := (bind m (λ x, k))
  (at level 20, x pattern, m at level 99, k at level 200, only parsing)
  : react_scope.
Open Scope react_scope.

Definition when (b : bool) (m : M unit) : M unit := if b then m else ret tt.

(** A dependency array differs from the one of the previous commit; [None]
    is the first commit, when every effect runs. *)
Definition changed {A} `{EqDecision A} (prev : option A) (next : A) : bool :=
  bool_decide (prev ≠ Some next).

(** ** The engine instance *)

(** Modelled from the spec: the [Editor] class (./editor/Editor) is not part
    of this file.  The spec gives its handle [dispose()], a crash-error
    getter, [setCameraOptions(options)], [run(fn, {history})] and
    notifications [crash] and [mount]; the crash state is [null | Error],
    captured after successful construction and latched per instance (it never
    goes back from non-null to null).  The constructor either throws or
    returns a fresh instance. *)
Definition fresh_state (args : EditorArgs) : EditorState :=
  {| disposed := false; crashingError := None;
     liveCameraOptions := a_cameraOptions args |}.

Definition mark_disposed (s : EditorState) : EditorState :=
  {| disposed := true; crashingError := crashingError s;
     liveCameraOptions := liveCameraOptions s |}.

Definition latch_crash (err : JsError) (s : EditorState) : EditorState :=
  {| disposed := disposed s;
     crashingError := match crashingError s with
                      | Some first => Some first
                      | None => Some err
                      end;
     liveCameraOptions := liveCameraOptions s |}.

Definition with_camera (c : Ref) (s : EditorState) : EditorState :=
  {| disposed := disposed s; crashingError := crashingError s;
     liveCameraOptions := Some c |}.

Definition Editor_dispose (e : Editor) : M unit :=
  _ <- modify (set_editors (alter mark_disposed (editor_id e)));;
  emit (EvDispose (editor_id e)).

Definition Editor_getCrashingError (w : World) (e : Editor) : option JsError :=
  editors w !! editor_id e ≫= crashingError.

Definition Editor_crash (e : nat) (err : JsError) : M unit :=
  modify (set_editors (alter (latch_crash err) e)).

Definition Editor_setCameraOptions (e : Editor) (c : Ref) : M unit :=
  _ <- modify (set_editors (alter (with_camera c) (editor_id e)));;
  emit (EvSetCameraOptions (editor_id e) c).

Definition Editor_run {A} (e : Editor) (history : HistoryMode) (fn : M A) : M A :=
  _ <- emit (EvRunBegin (editor_id e) history);;
  a <- fn;;
  _ <- emit (EvRunEnd (editor_id e));;
  ret a.

Definition Editor_emit_mount (e : Editor) : M unit :=
  emit (EvEmitMount (editor_id e)).

(** ** [Crash], [Layout] and [useOnMount] *)

(** What [TldrawEditorWithReadyStore] returns: [null], or the error boundary
    around [Crash] or around [Layout].  [children], [Canvas] and [Watermark]
    inside [Layout] hold no hook of this file and are left out. *)
Inductive ReadyOutput :=
| RenderNull
| RenderCrash (crashingError : JsError)
| RenderLayout (editor : Editor) (onMount : option MountHandler).

(** [function Crash({ crashingError }): null { throw crashingError }] *)
Definition Crash (crashingError : JsError) : JsError + unit := inl crashingError.

(** What is mounted under the component after a render. *)
Inductive Shown :=
| ShowNothing                                    (* [return null] *)
| ShowFallback (fallback : Ref) (error : JsError) (* [<ErrorFallback error=.. />] *)
| ShowLayout (editor : Editor) (onMount : option MountHandler).

(** Modelled from the spec: [OptionalErrorBoundary] and the [ErrorBoundary]
    it renders (./components/ErrorBoundary) are not part of this file.  The
    spec has an inner supervising boundary with access to the live instance,
    an [ErrorFallback] slot, and a crash path that is terminal, with no
    automatic recovery.  With [fallback === null] there is no boundary: the
    children are rendered as they are and what they throw goes to the
    caller.  Otherwise what a child throws while rendering is caught, the
    boundary keeps the error as its state ([caught]) and from then on renders
    the fallback in place of its children. *)
Definition OptionalErrorBoundary
    (fallback : option Ref) (caught : option JsError) (children : ReadyOutput)
    : JsError + Shown :=
  match children with
  | RenderNull => inr ShowNothing
  | RenderCrash crashingError =>
      match fallback, caught with
      | Some fb, Some first => inr (ShowFallback fb first)
      | Some fb, None =>
          match Crash crashingError with
          | inl err => inr (ShowFallback fb err)
          | inr _ => inr ShowNothing
          end
      | None, _ =>
          match Crash crashingError with
          | inl err => inl err
          | inr _ => inr ShowNothing
          end
      end
  | RenderLayout editor onMount =>
      match fallback, caught with
      | Some fb, Some first => inr (ShowFallback fb first)
      | _, _ => inr (ShowLayout editor onMount)
      end
  end.

(** The state of the boundary after it has rendered. *)
Definition caught_by (shown : Shown) : option JsError :=
  match shown with
  | ShowFallback _ error => Some error
  | _ => None
  end.

(** [onError={(error) => editor.annotateError(error, {...})}]: the boundary
    calls it once, in the commit of the render in which it caught the
    error. *)
Definition Boundary_onError (editor : option Editor) (before : option JsError)
    (shown : Shown) : M unit :=
  match editor, before, caught_by shown with
  | Some e, None, Some err => emit (EvAnnotateError (editor_id e) err)
  | _, _, _ => ret tt
  end.

(** [teardown?.()] *)
Definition call_optional (e : nat) (fn : option Ref) : M unit :=
  match fn with
  | Some f => emit (EvCall e f)
  | None => ret tt
  end.

(** The handler [Layout] gives to [useOnMount]; its result stands for the
    closure [() => { teardownStore?.(); teardownCallback?.() }]. *)
Definition Layout_handler (onMount : option MountHandler) (editor : Editor)
    : M (option Ref * option Ref) :=
  let store := a_store (editor_args editor) in
  teardownStore <-
    (_ <- emit (EvOnEditorMount (store_ref store) (editor_id editor)
                 (onEditorMount_teardown store));;
     ret (onEditorMount_teardown store));;
  teardownCallback <-
    match onMount with
    | Some h => _ <- emit (EvOnMount (handler_ref h) (editor_id editor)
                            (handler_teardown h));;
                ret (handler_teardown h)
    | None => ret None
    end;;
  ret (teardownStore, teardownCallback).

Definition Layout_teardown (editor : Editor) (td : option Ref * option Ref)
    : M unit :=
  _ <- emit (EvTeardown (editor_id editor));;
  _ <- call_optional (editor_id editor) td.1;;
  call_optional (editor_id editor) td.2.

(** [onMountEvent] of [useOnMount]. *)
Definition onMountEvent {A} (onMount : Editor → M A) (editor : Editor) : M A :=
  teardown <- Editor_run editor ignore
                (t <- onMount editor;; _ <- Editor_emit_mount editor;; ret t);;
  _ <- modify (set_tldrawReady true);;
  _ <- emit EvTldrawReady;;
  ret teardown.

(** The fiber of [Layout]: the dependency [editor] of the effect in
    [useOnMount] and the cleanup it returned.

    Modelled from the spec: [useEvent] (./hooks/useEvent) is not part of this
    file; mount sequencing must not re-run on re-renders that keep the
    instance, so [onMountEvent] keeps one identity across renders and calls
    the handler of the latest render.  It is left out of the dependencies. *)
Record LayoutFiber := {
  onMount_editor : Editor;
  onMount_destroy : option Ref * option Ref;
}.

Definition Layout_delete (lay : option LayoutFiber) : M unit :=
  match lay with
  | Some l => Layout_teardown (onMount_editor l) (onMount_destroy l)
  | None => ret tt
  end.

(** Mutation phase for the child, given what the boundary shows: a [Layout]
    that is no longer rendered is deleted, one whose [editor] changed has its
    effect cleaned up. *)
Definition Layout_mutation (shown : Shown) (lay : option LayoutFiber)
    : M (option LayoutFiber) :=
  match lay, shown with
  | Some l, ShowLayout editor _ =>
      if bool_decide (onMount_editor l = editor) then ret (Some l)
      else _ <- Layout_delete lay;; ret None
  | Some l, _ => _ <- Layout_delete lay;; ret None
  | None, _ => ret None
  end.

(** Layout phase for the child: [if (editor) return onMountEvent?.(editor)]
    runs when [Layout] mounts or its [editor] changed. *)
Definition Layout_layout (shown : Shown) (lay : option LayoutFiber)
    : M (option LayoutFiber) :=
  match shown, lay with
  | ShowLayout editor onMount, None =>
      td <- onMountEvent (Layout_handler onMount) editor;;
      ret (Some {| onMount_editor := editor; onMount_destroy := td |})
  | ShowLayout _ _, Some l => ret (Some l)
  | _, _ => ret None
  end.

(** ** [TldrawEditorWithReadyStore] *)

(** [bindingUtils, container, options, shapeUtils, store, tools, user,
    setEditor, licenseKey]: the dependencies of the effect that builds the
    editor.

    Modelled from the spec: [useRefState] (./hooks/useRefState) is not part
    of this file; it holds the exposed instance like [useState] and its
    setter is the same function on every render, so the [setEditor] slot
    never changes and is [()]. *)
Definition EditorDeps : Type :=
  Ref * Ref * option Ref * Ref * TLStore * Ref * TLUser * unit * option string.

Definition editor_deps (p : ReadyProps) (container : Ref) : EditorDeps :=
  (bindingUtils (r_base p), container, options (r_base p),
   shapeUtils (r_base p), r_store p, tools (r_base p), r_user p, (),
   licenseKey (r_base p)).

(** The destructured props with [autoFocus = true] as default. *)
Definition current_options (p : ReadyProps) : EditorOptions :=
  {| o_autoFocus := default true (autoFocus (r_base p));
     o_inferDarkMode := inferDarkMode (r_base p);
     o_initialState := initialState (r_base p);
     o_cameraOptions := cameraOptions (r_base p) |}.

Record ReadyFiber := {
  editor : option Editor;                 (* [useRefState<Editor | null>(null)] *)
  editorOptionsRef : EditorOptions;       (* [editorOptionsRef.current] *)
  optionsEffect_deps : option EditorOptions;
  editorEffect_deps : option EditorDeps;
  editorEffect_destroy : option Editor;   (* [() => { editor.dispose() }] *)
  cameraEffect_deps : option (option Editor * option Ref);
  boundary : option JsError;              (* the error the boundary has caught *)
  layout : option LayoutFiber;
}.

(** The fiber at the first render: [useRef] takes its initial value from the
    first props, no effect has run. *)
Definition initial_fiber (p : ReadyProps) : ReadyFiber :=
  {| editor := None;
     editorOptionsRef := current_options p;
     optionsEffect_deps := None;
     editorEffect_deps := None;
     editorEffect_destroy := None;
     cameraEffect_deps := None;
     boundary := None;
     layout := None |}.

(** [() => editor?.getCrashingError() ?? null], the snapshot read by
    [useSyncExternalStore] at each render. *)
Definition getSnapshot (w : World) (editor : option Editor) : option JsError :=
  editor ≫= Editor_getCrashingError w.

(** The part of the function body after the hooks. *)
Definition TldrawEditorWithReadyStore
    (p : ReadyProps) (editor : option Editor) (crashingError : option JsError)
    : ReadyOutput :=
  match editor with
  | None => RenderNull
  | Some editor =>
      match crashingError with
      | Some err => RenderCrash err
      | None => RenderLayout editor (onMount (r_base p))
      end
  end.

Definition editor_args_of
    (p : ReadyProps) (container : Ref) (o : EditorOptions) : EditorArgs :=
  {| a_store := r_store p;
     a_shapeUtils := shapeUtils (r_base p);
     a_bindingUtils := bindingUtils (r_base p);
     a_tools := tools (r_base p);
     a_getContainer := container;
     a_user := r_user p;
     a_initialState := o_initialState o;
     a_autoFocus := o_autoFocus o;
     a_inferDarkMode := o_inferDarkMode o;
     a_cameraOptions := o_cameraOptions o;
     a_options := options (r_base p);
     a_licenseKey := licenseKey (r_base p) |}.

Inductive Status :=
| Mounted (p : ReadyProps) (container : Ref) (f : ReadyFiber)
| Unmounted
| Failed (err : JsError).

Inductive Action :=
| ActRender (p : ReadyProps) (container : Ref) (* the parent renders the component *)
| ActCrash (e : nat) (err : JsError)           (* the engine [e] crashes *)
| ActUnmount.                                  (* the parent removes the component *)

Section Lifecycle.

(** What [new Editor(args)] throws, if it throws. *)
Variable constructor_throws : EditorArgs → option JsError.

(** [const { ErrorFallback } = useEditorComponents()]: [None] is [null].
    [useEditorComponents] (./hooks/useEditorComponents) is not part of this
    file; what it gives is taken to be the same at every render. *)
Variable fallback : option Ref.

Definition new_Editor (args : EditorArgs) : M Editor := λ w,
  match constructor_throws args with
  | Some err => (Thrown err, w, [EvNewThrow args err])
  | None =>
      let e := {| editor_id := length (editors w); editor_args := args |} in
      (Ok e, set_editors (λ h, h ++ [fresh_state args]) w, [EvNew e])
  end.

(** The three layout effects of the component, in the order of its hooks:
    the one that keeps [editorOptionsRef] up to date, the one that builds the
    editor and returns [() => { editor.dispose() }], and the one that keeps
    the camera options up to date. *)
Definition optionsEffect (p : ReadyProps) : EditorOptions := current_options p.

Definition editorEffect (p : ReadyProps) (container : Ref) (ref : EditorOptions)
    : M Editor :=
  e <- new_Editor (editor_args_of p container ref);;
  _ <- emit (EvSetEditor (editor_id e));;
  ret e.

Definition cameraEffect (editor : option Editor) (cameraOptions : option Ref)
    : M unit :=
  match editor, cameraOptions with
  | Some e, Some c => Editor_setCameraOptions e c
  | _, _ => ret tt
  end.

(** Deletion: the component's own cleanups, then the child's. *)
Definition unmount (f : ReadyFiber) : M unit :=
  _ <- from_option Editor_dispose (ret tt) (editorEffect_destroy f);;
  Layout_delete (layout f).

(** One render of the component: what the boundary shows for the element
    the function body returns, or what the render throws. *)
Definition render (p : ReadyProps) (f : ReadyFiber) (w : World) : JsError + Shown :=
  OptionalErrorBoundary fallback (boundary f)
    (TldrawEditorWithReadyStore p (editor f) (getSnapshot w (editor f))).

(** The commit of a render.  In the mutation phase the cleanups of the
    effects whose dependencies changed run, the child's before the parent's;
    in the layout phase the effects themselves run, the child's and the
    boundary's [onError] before the parent's, and the parent's in the order
    of its hooks.  The flag tells
    that [setEditor] asked for a re-render.  When the constructor throws,
    the remaining effect of the component is skipped, the supervising
    boundary removes the subtree and the error is the result. *)
Definition commit (p : ReadyProps) (container : Ref) (f : ReadyFiber)
    (shown : Shown) : M (ReadyFiber * bool) :=
  let deps1 := current_options p in
  let deps2 := editor_deps p container in
  let deps3 := (editor f, cameraOptions (r_base p)) in
  (* mutation phase *)
  lay <- Layout_mutation shown (layout f);;
  _ <- when (changed (editorEffect_deps f) deps2)
         (from_option Editor_dispose (ret tt) (editorEffect_destroy f));;
  (* layout phase *)
  lay <- Layout_layout shown lay;;
  _ <- Boundary_onError (editor f) (boundary f) shown;;
  let ref := if changed (optionsEffect_deps f) deps1 then optionsEffect p
             else editorOptionsRef f in
  built <-
    (if changed (editorEffect_deps f) deps2 then
       r <- try (editorEffect p container ref);;
       match r with
       | inl err => _ <- Layout_delete lay;; throw err
       | inr e => ret (Some e)
       end
     else ret None);;
  _ <- when (changed (cameraEffect_deps f) deps3)
         (cameraEffect (editor f) (cameraOptions (r_base p)));;
  ret ({| editor := from_option Some (editor f) built;
          editorOptionsRef := ref;
          optionsEffect_deps := Some deps1;
          editorEffect_deps := Some deps2;
          editorEffect_destroy :=
            from_option Some
              (if changed (editorEffect_deps f) deps2 then None
               else editorEffect_destroy f) built;
          cameraEffect_deps := Some deps3;
          boundary := caught_by shown;
          layout := lay |},
       bool_decide (is_Some built)).

(** One render of the component followed by its commit.  A render that
    throws, which is [Crash] throwing with no boundary to catch it, commits
    nothing: the error leaves the component and the tree is removed. *)
Definition render_and_commit (p : ReadyProps) (container : Ref) (f : ReadyFiber)
    : M (ReadyFiber * bool) :=
  w <- get_world;;
  match render p f w with
  | inl err => _ <- unmount f;; throw err
  | inr shown => commit p container f shown
  end.

(** A render requested from outside: the commit, then the synchronous
    re-render that [setEditor] asked for from inside the layout effect. *)
Definition update (p : ReadyProps) (container : Ref) (f : ReadyFiber)
    : World → Status * World * list Event := λ w,
  let m :=
    '(f1, again) <- render_and_commit p container f;;
    if (again : bool) then
      '(f2, _) <- render_and_commit p container f1;; ret f2
    else ret f1 in
  match m w with
  | (Ok f', w', t) => (Mounted p container f', w', t)
  | (Thrown err, w', t) => (Failed err, w', t)
  end.

Definition mount (p : ReadyProps) (container : Ref)
    : World → Status * World * list Event :=
  update p container (initial_fiber p).

(** [editor.on('crash', onStoreChange)]: the component is subscribed to the
    instance it exposes, and a notification re-renders it with the props it
    has: the boundary catches what [Crash] throws, or, when there is none,
    the render throws and the component is removed.  A crash of an instance
    that already crashed notifies nobody. *)
Definition notify_crash (e : nat) (err : JsError) (s : Status)
    : World → Status * World * list Event := λ w,
  let w' := set_editors (alter (latch_crash err) e) w in
  match s with
  | Mounted p container f =>
      if bool_decide (editor_id <$> editor f = Some e
                      ∧ editors w !! e ≫= crashingError = None)
      then update p container f w'
      else (s, w', [])
  | _ => (s, w', [])
  end.

Definition step (a : Action) (s : Status) : World → Status * World * list Event :=
  match a, s with
  | ActCrash e err, _ => notify_crash e err s
  | ActRender p container, Mounted _ _ f => update p container f
  | ActUnmount, Mounted _ _ f => λ w,
      let '(_, w', t) := unmount f w in (Unmounted, w', t)
  | _, _ => λ w, (s, w, [])
  end.

Fixpoint run (acts : list Action) (s : Status) (w : World)
    : Status * World * list Event :=
  match acts with
  | [] => (s, w, [])
  | a :: rest =>
      let '(s1, w1, t1) := step a s w in
      let '(s2, w2, t2) := run rest s1 w1 in
      (s2, w2, t1 ++ t2)
  end.

End Lifecycle.

(** ** [TldrawEditorWithLoadingStore] *)

Inductive LoadingOutput :=
| ThrowError (err : JsError)            (* [throw store.error] *)
| RenderElement (component : Ref)       (* [<LoadingScreen />] *)
| RenderNothing                         (* [null] *)
| RenderReadyStore (p : ReadyProps).    (* [<TldrawEditorWithReadyStore ... />] *)

(** The [switch (store.status)] and the return after it. *)
Definition TldrawEditorWithLoadingStore
    (p : LoadingProps) (LoadingScreen : option Ref) : LoadingOutput :=
  match l_store p with
  | StatusError error => ThrowError error
  | StatusLoading =>
      match LoadingScreen with
      | Some c => RenderElement c
      | None => RenderNothing
      end
  | StatusNotSynced store | StatusSyncedLocal store | StatusSyncedRemote store =>
      RenderReadyStore
        {| r_store := store; r_user := l_user p; r_base := l_base p |}
  end.

(** [DOMTokenList.remove] and [DOMTokenList.add]. *)
Definition classList_remove (token : string) (l : list string) : list string :=
  filter (λ t, t ≠ token) l.

Definition classList_add (token : string) (l : list string) : list string :=
  if decide (token ∈ l) then l else l ++ [token].

(** The body of the layout effect with dependencies [container, user]. *)
Definition theme_effect (container : Ref) (user : TLUser) : M unit :=
  w <- get_world;;
  if bool_decide (colorScheme w !! user_ref user = Some "dark") then
    modify (set_classList
              (λ m, <[container :=
                        classList_add "tl-theme__dark"
                          (classList_remove "tl-theme__light"
                             (default [] (m !! container)))]> m))
  else ret tt.

Record LoadingFiber := {
  themeEffect_deps : option (Ref * TLUser);
  child : option ReadyFiber;
}.

Definition initial_loading_fiber : LoadingFiber :=
  {| themeEffect_deps := None; child := None |}.

Inductive LoadingStatus :=
| LoadingMounted (g : LoadingFiber)
| LoadingUnmounted
| LoadingFailed (err : JsError).

Inductive LoadingAction :=
| GateRender (p : LoadingProps) (container : Ref) (LoadingScreen : option Ref)
| GatePreference (user : Ref) (scheme : string) (* the user changes the preference *)
| GateUnmount.

Section Gate.

Variable constructor_throws : EditorArgs → option JsError.
Variable fallback : option Ref.

(** One render of the gate and its commit.  A render that throws, the
    gate's or its child's, commits nothing and the boundary removes what was
    mounted.  Otherwise the child is deleted, updated or mounted, the theme
    effect runs after the child's layout effects, and the child's
    synchronous re-render follows. *)
Definition loading_update
    (p : LoadingProps) (container : Ref) (LoadingScreen : option Ref)
    (g : LoadingFiber) : World → LoadingStatus * World * list Event := λ w,
  let theme :=
    when (changed (themeEffect_deps g) (container, l_user p))
      (theme_effect container (l_user p)) in
  let deps := Some (container, l_user p) in
  match TldrawEditorWithLoadingStore p LoadingScreen with
  | ThrowError err =>
      let '(_, w', t) := from_option (unmount) (ret tt) (child g) w in
      (LoadingFailed err, w', t)
  | RenderReadyStore rp =>
      let f := default (initial_fiber rp) (child g) in
      match render fallback rp f w with
      | inl err =>
          let '(_, w', t) := unmount f w in (LoadingFailed err, w', t)
      | inr shown =>
          let m :=
            r <- try (commit constructor_throws rp container f shown);;
            _ <- theme;;
            match r with
            | inl err => throw err
            | inr (f1, again) =>
                if (again : bool) then
                  '(f2, _) <- render_and_commit constructor_throws fallback
                                rp container f1;;
                  ret f2
                else ret f1
            end in
          match m w with
          | (Ok f', w', t) =>
              (LoadingMounted {| themeEffect_deps := deps; child := Some f' |},
               w', t)
          | (Thrown err, w', t) => (LoadingFailed err, w', t)
          end
      end
  | _ =>
      let '(_, w', t) :=
        (_ <- from_option unmount (ret tt) (child g);; theme) w in
      (LoadingMounted {| themeEffect_deps := deps; child := None |}, w', t)
  end.

Definition loading_step (a : LoadingAction) (s : LoadingStatus)
    : World → LoadingStatus * World * list Event :=
  match a, s with
  | GatePreference user scheme, _ => λ w,
      (s, set_colorScheme <[user := scheme]> w, [])
  | GateRender p container LoadingScreen, LoadingMounted g =>
      loading_update p container LoadingScreen g
  | GateUnmount, LoadingMounted g => λ w,
      let '(_, w', t) := from_option unmount (ret tt) (child g) w in
      (LoadingUnmounted, w', t)
  | _, _ => λ w, (s, w, [])
  end.

Fixpoint loading_run (acts : list LoadingAction) (s : LoadingStatus) (w : World)
    : LoadingStatus * World * list Event :=
  match acts with
  | [] => (s, w, [])
  | a :: rest =>
      let '(s1, w1, t1) := loading_step a s w in
      let '(s2, w2, t2) := loading_run rest s1 w1 in
      (s2, w2, t1 ++ t2)
  end.

End Gate.

Definition empty_world : World :=
  {| editors := []; tldrawReady := false; colorScheme := ∅; classList := ∅ |}.

(** ** Sessions and what is read off their logs *)

(** A session: the component mounts, then the actions happen in order. *)
Definition session (constructor_throws : EditorArgs → option JsError)
    (fallback : option Ref)
    (p : ReadyProps) (container : Ref) (acts : list Action) (w : World)
    : Status * World * list Event :=
  let '(s1, w1, t1) := mount constructor_throws fallback p container w in
  let '(s2, w2, t2) := run constructor_throws fallback acts s1 w1 in
  (s2, w2, t1 ++ t2).

(** The identity tuple of the spec: [(store, container, shapeUtils,
    bindingUtils, tools, user, options, licenseKey)]. *)
Definition IdentityKey : Type :=
  TLStore * Ref * Ref * Ref * Ref * TLUser * option Ref * option string.

Definition identity_key (p : ReadyProps) (container : Ref) : IdentityKey :=
  (r_store p, container, shapeUtils (r_base p), bindingUtils (r_base p),
   tools (r_base p), r_user p, options (r_base p), licenseKey (r_base p)).

(** How many renders of a run come with an identity other than the one of
    the render before. *)
Fixpoint identity_changes (k : IdentityKey) (acts : list Action) : nat :=
  match acts with
  | [] => 0
  | ActRender p container :: rest =>
      (if bool_decide (identity_key p container = k) then 0 else 1)
      + identity_changes (identity_key p container) rest
  | _ :: rest => identity_changes k rest
  end.

Definition is_render_with (k : IdentityKey) (a : Action) : bool :=
  match a with
  | ActRender p container => bool_decide (identity_key p container = k)
  | ActCrash _ _ => true
  | ActUnmount => false
  end.

(** Constructions and disposals. *)
Inductive Life := Constructed (id : nat) | ConstructFailed | Disposed (id : nat).

Definition life_of (ev : Event) : option Life :=
  match ev with
  | EvNew e => Some (Constructed (editor_id e))
  | EvNewThrow _ _ => Some ConstructFailed
  | EvDispose id => Some (Disposed id)
  | _ => None
  end.

(** Disposals and the arguments of constructor calls. *)
Definition cycle_of (ev : Event) : option (nat + EditorArgs) :=
  match ev with
  | EvNew e => Some (inr (editor_args e))
  | EvNewThrow args _ => Some (inr args)
  | EvDispose id => Some (inl id)
  | _ => None
  end.

Definition exposed_of (ev : Event) : option nat :=
  match ev with
  | EvSetEditor id => Some id
  | _ => None
  end.

Definition camera_of (ev : Event) : option (nat * Ref) :=
  match ev with
  | EvSetCameraOptions id c => Some (id, c)
  | _ => None
  end.

(** The instances built, those for which mount sequencing began, those
    whose mount cleanup ran, the teardown functions registered and those
    called. *)
Definition built_of (ev : Event) : option Editor :=
  match ev with
  | EvNew e => Some e
  | _ => None
  end.

Definition begun_of (ev : Event) : option nat :=
  match ev with
  | EvRunBegin id _ => Some id
  | _ => None
  end.

Definition torn_of (ev : Event) : option nat :=
  match ev with
  | EvTeardown id => Some id
  | _ => None
  end.

Definition registered_of (ev : Event) : option (nat * Ref) :=
  match ev with
  | EvOnEditorMount _ id (Some fn) | EvOnMount _ id (Some fn) => Some (id, fn)
  | _ => None
  end.

Definition called_of (ev : Event) : option (nat * Ref) :=
  match ev with
  | EvCall id fn => Some (id, fn)
  | _ => None
  end.

(** The events of mount sequencing. *)
Definition sequencing_of (ev : Event) : option Event :=
  match ev with
  | EvRunBegin _ _ | EvRunEnd _ | EvOnEditorMount _ _ _ | EvOnMount _ _ _
  | EvEmitMount _ | EvTldrawReady => Some ev
  | _ => None
  end.

(** What mount sequencing logs for one instance. *)
Definition mount_block (e : Editor) (onMount : option MountHandler) : list Event :=
  [EvRunBegin (editor_id e) ignore;
   EvOnEditorMount (store_ref (a_store (editor_args e))) (editor_id e)
     (onEditorMount_teardown (a_store (editor_args e)))]
  ++ from_option
       (λ h, [EvOnMount (handler_ref h) (editor_id e) (handler_teardown h)])
       [] onMount
  ++ [EvEmitMount (editor_id e); EvRunEnd (editor_id e); EvTldrawReady].

Definition teardown_pair (e : Editor) (onMount : option MountHandler)
    : option Ref * option Ref :=
  (onEditorMount_teardown (a_store (editor_args e)), onMount ≫= handler_teardown).

(** What the cleanup kept by [useOnMount] logs. *)
Definition teardown_block (l : LayoutFiber) : list Event :=
  EvTeardown (editor_id (onMount_editor l))
  :: (EvCall (editor_id (onMount_editor l)) <$>
        (option_list (onMount_destroy l).1 ++ option_list (onMount_destroy l).2)).

(** The teardown functions a mounted [Layout] still has to call. *)
Definition pending (lay : option LayoutFiber) : list (nat * Ref) :=
  from_option
    (λ l, pair (editor_id (onMount_editor l)) <$>
            (option_list (onMount_destroy l).1 ++ option_list (onMount_destroy l).2))
    [] lay.

(** ** The states between two renders and the steps between them *)

(** The fiber between two renders: every dependency array holds what the
    last render gave, the holder holds the last options, the instance [e] is
    the one exposed and the one the cleanup will dispose.  [prev] is the
    instance the camera effect last ran for, [caught] the state of the
    boundary. *)
Definition stable_fiber (p : ReadyProps) (c : Ref) (e : Editor)
    (prev : option Editor) (lay : option LayoutFiber) (caught : option JsError)
    : ReadyFiber :=
  {| editor := Some e;
     editorOptionsRef := current_options p;
     optionsEffect_deps := Some (current_options p);
     editorEffect_deps := Some (editor_deps p c);
     editorEffect_destroy := Some e;
     cameraEffect_deps := Some (prev, cameraOptions (r_base p));
     boundary := caught;
     layout := lay |}.

(** Either [Layout] is mounted for the exposed instance, which has not
    crashed, and the boundary has caught nothing; or there is a boundary, it
    has caught a crash, and [Layout] is not mounted. *)
Definition layout_ok (fallback : option Ref) (w : World) (e : Editor)
    (lay : option LayoutFiber) (caught : option JsError) : Prop :=
  match lay with
  | Some l =>
      onMount_editor l = e ∧ caught = None ∧ Editor_getCrashingError w e = None
  | None => is_Some caught ∧ is_Some fallback
  end.

Inductive settled (fallback : option Ref) : Status → World → Prop :=
| settled_mounted p c e lay caught w :
    layout_ok fallback w e lay caught →
    S (editor_id e) = length (editors w) →
    settled fallback (Mounted p c (stable_fiber p c e (Some e) lay caught)) w
| settled_unmounted w : settled fallback Unmounted w
| settled_failed err w : settled fallback (Failed err) w.

(** What the boundary shows for the exposed instance between two renders:
    its fallback once it has caught a crash, [Layout] otherwise. *)
Definition shown_stable (fallback : option Ref) (e : Editor)
    (onMount : option MountHandler) (lay : option LayoutFiber)
    (caught : option JsError) : Shown :=
  match lay, fallback, caught with
  | None, Some fb, Some first => ShowFallback fb first
  | _, _, _ => ShowLayout e onMount
  end.

(** The instance the next successful construction returns. *)
Definition next_editor (p : ReadyProps) (c : Ref) (w : World) : Editor :=
  {| editor_id := length (editors w);
     editor_args := editor_args_of p c (current_options p) |}.

Definition mounted_layout (e : Editor) (onMount : option MountHandler) : LayoutFiber :=
  {| onMount_editor := e; onMount_destroy := teardown_pair e onMount |}.

(** [Layout] for an instance that has just been exposed: mounted, unless the
    boundary has caught a crash. *)
Definition next_layout (caught : option JsError) (e : Editor)
    (onMount : option MountHandler) : option LayoutFiber :=
  match caught with
  | None => Some (mounted_layout e onMount)
  | Some _ => None
  end.

(** The worlds the calls lead to. *)
Definition camera_world (e : Editor) (old new : option Ref) (w : World) : World :=
  if bool_decide (old = new) then w
  else from_option (λ c, set_editors (alter (with_camera c) (editor_id e)) w) w new.

Definition dispose_world (e : Editor) (w : World) : World :=
  set_editors (alter mark_disposed (editor_id e)) w.

Definition alloc_world (args : EditorArgs) (w : World) : World :=
  set_editors (λ h, h ++ [fresh_state args]) w.

Definition expose_world (e : Editor) (cam : option Ref) (w : World) : World :=
  from_option (λ c, set_editors (alter (with_camera c) (editor_id e))) id cam
    (set_tldrawReady true w).

Definition latch_world (e : nat) (err : JsError) (w : World) : World :=
  set_editors (alter (latch_crash err) e) w.

(** The world after the re-render that follows [setEditor]: mount
    sequencing unless the boundary has caught a crash, then the camera
    effect. *)
Definition rerender_world (caught : option JsError) (e : Editor)
    (cam : option Ref) (w : World) : World :=
  match caught with
  | None => expose_world e cam w
  | Some _ =>
      from_option (λ c, set_editors (alter (with_camera c) (editor_id e))) id cam w
  end.

(** The logs the calls leave: the camera effect, and what follows
    [setEditor]. *)
Definition camera_update (e : Editor) (old new : option Ref) : list Event :=
  if bool_decide (old = new) then []
  else from_option (λ c, [EvSetCameraOptions (editor_id e) c]) [] new.

Definition expose_log (e : Editor) (onMount : option MountHandler)
    (cam : option Ref) : list Event :=
  mount_block e onMount
  ++ from_option (λ c, [EvSetCameraOptions (editor_id e) c]) [] cam.

Definition rerender_log (caught : option JsError) (e : Editor)
    (onMount : option MountHandler) (cam : option Ref) : list Event :=
  match caught with
  | None => expose_log e onMount cam
  | Some _ => from_option (λ c, [EvSetCameraOptions (editor_id e) c]) [] cam
  end.

Section Steps.

Variable constructor_throws : EditorArgs → option JsError.
Variable fallback : option Ref.

(** What a step does from the state between two renders. *)
Inductive Step_from (p : ReadyProps) (c : Ref) (e : Editor)
    (lay : option LayoutFiber) (caught : option JsError) (w : World)
    : Action → Status * World * list Event → Prop :=
| step_same p' c' :
    editor_deps p' c' = editor_deps p c →
    Step_from p c e lay caught w (ActRender p' c')
      (Mounted p' c' (stable_fiber p' c' e (Some e) lay caught),
       camera_world e (cameraOptions (r_base p)) (cameraOptions (r_base p')) w,
       camera_update e (cameraOptions (r_base p)) (cameraOptions (r_base p')))
| step_new p' c' :
    editor_deps p c ≠ editor_deps p' c' →
    constructor_throws (editor_args_of p' c' (current_options p')) = None →
    Step_from p c e lay caught w (ActRender p' c')
      (Mounted p' c'
         (stable_fiber p' c' (next_editor p' c' w) (Some (next_editor p' c' w))
            (next_layout caught (next_editor p' c' w) (onMount (r_base p')))
            caught),
       rerender_world caught (next_editor p' c' w) (cameraOptions (r_base p'))
         (camera_world e (cameraOptions (r_base p)) (cameraOptions (r_base p'))
            (alloc_world (editor_args_of p' c' (current_options p'))
               (dispose_world e w))),
       ([EvDispose (editor_id e); EvNew (next_editor p' c' w);
         EvSetEditor (length (editors w))]
        ++ camera_update e (cameraOptions (r_base p)) (cameraOptions (r_base p')))
       ++ from_option teardown_block [] lay
       ++ rerender_log caught (next_editor p' c' w) (onMount (r_base p'))
            (cameraOptions (r_base p')))
| step_throw p' c' err :
    editor_deps p c ≠ editor_deps p' c' →
    constructor_throws (editor_args_of p' c' (current_options p')) = Some err →
    Step_from p c e lay caught w (ActRender p' c')
      (Failed err, dispose_world e w,
       [EvDispose (editor_id e);
        EvNewThrow (editor_args_of p' c' (current_options p')) err]
       ++ from_option teardown_block [] lay)
| step_crash_caught err l :
    is_Some fallback →
    lay = Some l →
    Step_from p c e lay caught w (ActCrash (editor_id e) err)
      (Mounted p c (stable_fiber p c e (Some e) None (Some err)),
       latch_world (editor_id e) err w,
       teardown_block l ++ [EvAnnotateError (editor_id e) err])
| step_crash_uncaught err l :
    ¬ is_Some fallback →
    lay = Some l →
    Step_from p c e lay caught w (ActCrash (editor_id e) err)
      (Failed err, dispose_world e (latch_world (editor_id e) err w),
       EvDispose (editor_id e) :: teardown_block l)
| step_crash_ignored e0 err :
    e0 ≠ editor_id e ∨ lay = None →
    Step_from p c e lay caught w (ActCrash e0 err)
      (Mounted p c (stable_fiber p c e (Some e) lay caught),
       latch_world e0 err w, [])
| step_unmount :
    Step_from p c e lay caught w ActUnmount
      (Unmounted, dispose_world e w,
       EvDispose (editor_id e) :: from_option teardown_block [] lay).

End Steps.

(** The teardown functions, and the instance, a status still owes. *)
Definition pending_of (s : Status) : list (nat * Ref) :=
  match s with
  | Mounted _ _ f => pending (layout f)
  | _ => []
  end.

Definition pending_ids (s : Status) : list nat :=
  match s with
  | Mounted _ _ f =>
      from_option (λ l, [editor_id (onMount_editor l)]) [] (layout f)
  | _ => []
  end.

(** The component is mounted and its boundary has caught nothing. *)
Definition uncaught (s : Status) : Prop :=
  match s with
  | Mounted _ _ f => boundary f = None
  | _ => False
  end.

Definition is_crash (a : Action) : bool :=
  match a with
  | ActCrash _ _ => true
  | _ => false
  end.

(** What one step adds to the books of a session. *)
Definition balanced (s : Status) (w : World) (s' : Status) (w' : World)
    (t : list Event) : Prop :=
  omap called_of t ++ pending_of s' = pending_of s ++ omap registered_of t
  ∧ omap torn_of t ++ pending_ids s' = pending_ids s ++ omap begun_of t
  ∧ editor_id <$> omap built_of t = seq (length (editors w)) (length (omap built_of t))
  ∧ length (editors w') = length (editors w) + length (omap built_of t).

(** The books of a session that started with [n0] instances in the world:
    every teardown function registered is called or pending, every instance
    for which mount sequencing began has had its cleanup or has it pending,
    and the instances are numbered in order. *)
Definition ledger (n0 : nat) (s : Status) (w : World) (tr : list Event) : Prop :=
  omap called_of tr ++ pending_of s = omap registered_of tr
  ∧ omap torn_of tr ++ pending_ids s = omap begun_of tr
  ∧ editor_id <$> omap built_of tr = seq n0 (length (omap built_of tr))
  ∧ length (editors w) = n0 + length (omap built_of tr).

(** Mount sequencing against construction, over the log of a session: it
    began for no instance twice and for built instances only, in the order
    they were built, and for every one of them as long as the boundary has
    caught nothing. *)
Definition sequenced (s : Status) (tr : list Event) : Prop :=
  omap begun_of tr `prefix_of` (editor_id <$> omap built_of tr)
  ∧ (uncaught s → omap begun_of tr = editor_id <$> omap built_of tr).

(** ** What the claims count and compare *)

(** [N] cycles of a disposal followed by a construction, from instance [n0]. *)
Definition cycles (n0 N : nat) : list Life :=
  flat_map (λ i, [Disposed i; Constructed (S i)]) (seq n0 N).

Definition is_disposed (l : Life) : bool :=
  match l with Disposed _ => true | _ => false end.

Definition is_constructed (l : Life) : bool :=
  match l with Constructed _ => true | _ => false end.

(** The arguments of the constructor calls. *)
Definition construct_of (ev : Event) : option EditorArgs :=
  match ev with
  | EvNew e => Some (editor_args e)
  | EvNewThrow args _ => Some args
  | _ => None
  end.

Definition ready_props (store : TLStore) (user : TLUser) (base : BaseProps)
    : ReadyProps :=
  {| r_store := store; r_user := user; r_base := base |}.

(** The class list after the theme effect has run once. *)
Definition themed (scheme : option string) (classes : list string) : list string :=
  if bool_decide (scheme = Some "dark")
  then classList_add "tl-theme__dark" (classList_remove "tl-theme__light" classes)
  else classes.

Definition theme_world (container : Ref) (user : TLUser) (w : World) : World :=
  if bool_decide (colorScheme w !! user_ref user = Some "dark")
  then set_classList
         (λ m, <[container :=
                   classList_add "tl-theme__dark"
                     (classList_remove "tl-theme__light"
                        (default [] (m !! container)))]> m) w
  else w.

(** The world after the theme effect of a commit, which runs when
    [container] or [user] changed. *)
Definition after_theme (g : LoadingFiber) (container : Ref) (user : TLUser)
    (w : World) : World :=
  if changed (themeEffect_deps g) (container, user)
  then theme_world container user w else w.

(** The store of a render is not ready: it is loading or in error. *)
Definition unready (st : TLStoreWithStatus) : Prop :=
  match st with
  | StatusLoading | StatusError _ => True
  | _ => False
  end.



(** A gate under which no ready-store component is mounted, and an action
    that brings no ready store. *)
Definition childless (s : LoadingStatus) : Prop :=
  match s with
  | LoadingMounted g => child g = None
  | _ => True
  end.

Definition stays_unready (a : LoadingAction) : Prop :=
  match a with
  | GateRender p _ _ => unready (l_store p)
  | GatePreference _ _ | GateUnmount => True
  end.

(** ** Sample inputs *)

Definition sample_base : BaseProps :=
  {| onMount := Some {| handler_ref := 3; handler_teardown := Some 12 |};
     tools := 4; shapeUtils := 5; bindingUtils := 6;
     initialState := None; autoFocus := None; inferDarkMode := None;
     cameraOptions := Some 7; options := None; licenseKey := None |}.

Definition sample_store : TLStore :=
  {| store_ref := 1; onEditorMount_teardown := Some 11 |}.

Definition other_store : TLStore :=
  {| store_ref := 21; onEditorMount_teardown := None |}.

Definition sample_user : TLUser := {| user_ref := 2 |}.

Definition sample_props : ReadyProps := ready_props sample_store sample_user sample_base.

Definition other_props : ReadyProps := ready_props other_store sample_user sample_base.

(** [sample_props] with other one-shot options. *)
Definition oneshot_props : ReadyProps :=
  ready_props sample_store sample_user
    {| onMount := onMount sample_base;
       tools := 4; shapeUtils := 5; bindingUtils := 6;
       initialState := Some "select"; autoFocus := Some false;
       inferDarkMode := Some true;
       cameraOptions := Some 7; options := None; licenseKey := None |}.

(** [sample_props] with the given camera options. *)
Definition camera_props (cam : option Ref) : ReadyProps :=
  ready_props sample_store sample_user
    {| onMount := onMount sample_base;
       tools := 4; shapeUtils := 5; bindingUtils := 6;
       initialState := None; autoFocus := None; inferDarkMode := None;
       cameraOptions := cam; options := None; licenseKey := None |}.

Definition sample_loading (status : TLStoreWithStatus) : LoadingProps :=
  {| l_store := status; l_user := sample_user; l_base := sample_base |}.

Definition light_world : World :=
  {| editors := []; tldrawReady := false;
     colorScheme := {[ 2 := "light" ]};
     classList := {[ 9 := ["tl-container"; "tl-theme__light"] ]} |}.

(** The same with the dark scheme chosen. *)
Definition dark_world : World := set_colorScheme <[2 := "dark"]> light_world.

(** A component in the [ErrorFallback] slot. *)
Definition sample_fallback : option Ref := Some 43.

Definition boom : JsError := {| message := "boom" |}.

Definition never_throws : EditorArgs → option JsError := λ _, None.

(** A constructor that throws for [other_store] only. *)
Definition throws_for_other (args : EditorArgs) : option JsError :=
  if bool_decide (a_store args = other_store) then Some boom else None.

(** ** Further observations on sessions *)

(** Whether instance [i] has been disposed; [None] when there is no such
    instance. *)
Definition disposed_at (w : World) (i : nat) : option bool :=
  disposed <$> editors w !! i.

(** The camera options instance [i] last got, from its constructor or from
    [setCameraOptions]. *)
Definition camera_at (w : World) (i : nat) : option Ref :=
  editors w !! i ≫= liveCameraOptions.

(** The instance a status exposes to its subtree. *)
Definition exposed_id (s : Status) : option nat :=
  match s with
  | Mounted _ _ f => editor_id <$> editor f
  | _ => None
  end.

(** The events that are calls on instance [i] or on what it registered. *)
Definition about (i : nat) (ev : Event) : bool :=
  match ev with
  | EvNew e => bool_decide (editor_id e = i)
  | EvSetEditor j | EvDispose j | EvSetCameraOptions j _ | EvRunBegin j _
  | EvRunEnd j | EvOnEditorMount _ j _ | EvOnMount _ j _ | EvEmitMount j
  | EvTeardown j | EvCall j _ | EvAnnotateError j _ => bool_decide (j = i)
  | EvNewThrow _ _ | EvTldrawReady => false
  end.

(** The instance that follows [e] when the constructor is called with the
    props of a render. *)
Definition successor (e : Editor) (p : ReadyProps) (container : Ref) : Editor :=
  {| editor_id := S (editor_id e);
     editor_args := editor_args_of p container (current_options p) |}.

(** Of the instances from [n0] on, exactly the exposed one is live. *)
Definition one_live (n0 : nat) (s : Status) (w : World) : Prop :=
  ∀ i, n0 ≤ i → i < length (editors w) →
       disposed_at w i = Some (bool_decide (exposed_id s ≠ Some i)).

(** ** Further observations on the gate *)

(** What the gate becomes once its child has been rendered and committed. *)
Definition gate_status (container : Ref) (user : TLUser) (s : Status)
    : LoadingStatus :=
  match s with
  | Mounted _ _ f =>
      LoadingMounted
        {| themeEffect_deps := Some (container, user); child := Some f |}
  | Failed err => LoadingFailed err
  | Unmounted => LoadingUnmounted
  end.

(** The gate between two renders: its child, if it has one, is between two
    renders of its own, with [Layout] mounted for the instance it exposes. *)
Definition gate_settled (s : LoadingStatus) (w : World) : Prop :=
  match s with
  | LoadingMounted g =>
      match child g with
      | Some f =>
          ∃ p c e l,
            f = stable_fiber p c e (Some e) (Some l) None
            ∧ themeEffect_deps g = Some (c, r_user p)
            ∧ onMount_editor l = e
            ∧ Editor_getCrashingError w e = None
            ∧ S (editor_id e) = length (editors w)
      | None => True
      end
  | _ => True
  end.

(** The three ready statuses of a store. *)
Definition ready_statuses (store : TLStore) : list TLStoreWithStatus :=
  [StatusNotSynced store; StatusSyncedLocal store; StatusSyncedRemote store].

(** The classes of a container. *)
Definition classes (w : World) (container : Ref) : list string :=
  default [] (classList w !! container).

(** The theme effect is all that has touched the class lists between two
    worlds: other tokens are as they were, [tl-theme__dark] has not been
    removed and [tl-theme__light] has not been added. *)
Definition only_themed (w w' : World) : Prop :=
  ∀ (c : Ref) (t : string),
    (t ≠ "tl-theme__light" → t ≠ "tl-theme__dark" →
     (t ∈ classes w' c ↔ t ∈ classes w c))
    ∧ ("tl-theme__dark" ∈ classes w c → "tl-theme__dark" ∈ classes w' c)
    ∧ ("tl-theme__light" ∈ classes w' c → "tl-theme__light" ∈ classes w c).

(** ** [TldrawEditor] *)

(** A slot of [TLEditorComponents]: left undefined, set to [null], or set to
    a component. *)
Inductive Slot := SlotUndefined | SlotNull | SlotComponent (component : Ref).

(** [TLEditorComponents]; [ErrorFallback] is the slot this file reads. *)
Record TLEditorComponents := { ErrorFallback : Slot }.

(** The [store] prop: [undefined], a [Store] instance, or a store with its
    status.  Objects are truthy, so [store ? ... : ...] tests for
    [undefined], and [store instanceof Store] tells the last two apart. *)
Inductive StoreProp :=
| StoreUndefined
| StoreInstance (store : TLStore)
| StoreWithStatus (store : TLStoreWithStatus).

(** [TldrawEditorProps], without [children], [className] and the options of
    [useLocalStore], which reach no hook of this file. *)
Record TldrawEditorProps := {
  t_store : StoreProp;
  t_components : option TLEditorComponents;
  t_user : option TLUser;
  t_onMount : option MountHandler;
  t_tools : option Ref;
  t_shapeUtils : option Ref;
  t_bindingUtils : option Ref;
  t_initialState : option string;
  t_autoFocus : option bool;
  t_inferDarkMode : option bool;
  t_cameraOptions : option Ref;
  t_options : option Ref;
  t_licenseKey : option string;
}.

(** The hooks of [TldrawEditor]: [useState<HTMLDivElement | null>(null)] and
    the cell of [useMemo(() => _user ?? createTLUser(), [_user])], which
    holds the dependency and the value of the last computation. *)
Record TldrawEditorFiber := {
  container_state : option Ref;
  user_memo : option (option TLUser * TLUser);
}.

Definition initial_TldrawEditorFiber : TldrawEditorFiber :=
  {| container_state := None; user_memo := None |}.

(** What is rendered inside the providers. *)
Inductive Inner :=
| InnerReadyStore (p : ReadyProps)
| InnerLoadingStore (p : LoadingProps)
| InnerOwnStore (user : TLUser) (base : BaseProps).

(** The element [TldrawEditor] returns: the fallback given to the error
    boundary ([None] for [null]) and, once the container is known, the
    component rendered inside the providers. *)
Record TldrawEditorOutput := {
  boundary_fallback : option Ref;
  inner : option Inner;
}.

Section TopLevel.

(** The module constants [EMPTY_SHAPE_UTILS_ARRAY],
    [EMPTY_BINDING_UTILS_ARRAY] and [EMPTY_TOOLS_ARRAY], each one array
    for the life of the module, and the imported [DefaultErrorFallback]. *)
Variables EMPTY_SHAPE_UTILS_ARRAY EMPTY_BINDING_UTILS_ARRAY EMPTY_TOOLS_ARRAY : Ref.
Variable DefaultErrorFallback : Ref.

(** [useMemo(() => _user ?? createTLUser(), [_user])]: the value of the last
    computation is kept while [_user] is the same; [created] is what
    [createTLUser()] (./config/createTLUser, not part of this file) returns
    if it is called. *)
Definition useMemo_user (cell : option (option TLUser * TLUser))
    (_user : option TLUser) (created : TLUser) : TLUser :=
  match cell with
  | Some (deps, value) =>
      if bool_decide (deps = _user) then value else default created _user
  | None => default created _user
  end.

(** [components?.ErrorFallback === undefined ? DefaultErrorFallback
    : components?.ErrorFallback] *)
Definition resolve_ErrorFallback (components : option TLEditorComponents)
    : option Ref :=
  match from_option ErrorFallback SlotUndefined components with
  | SlotUndefined => Some DefaultErrorFallback
  | SlotNull => None
  | SlotComponent c => Some c
  end.

(** [withDefaults] *)
Definition withDefaults (props : TldrawEditorProps) : BaseProps :=
  {| onMount := t_onMount props;
     tools := default EMPTY_TOOLS_ARRAY (t_tools props);
     shapeUtils := default EMPTY_SHAPE_UTILS_ARRAY (t_shapeUtils props);
     bindingUtils := default EMPTY_BINDING_UTILS_ARRAY (t_bindingUtils props);
     initialState := t_initialState props;
     autoFocus := t_autoFocus props;
     inferDarkMode := t_inferDarkMode props;
     cameraOptions := t_cameraOptions props;
     options := t_options props;
     licenseKey := t_licenseKey props |}.

(** One render of [TldrawEditor]: the element it returns and its hooks
    after the render. *)
Definition TldrawEditor (props : TldrawEditorProps) (fib : TldrawEditorFiber)
    (created : TLUser) : TldrawEditorOutput * TldrawEditorFiber :=
  let user := useMemo_user (user_memo fib) (t_user props) created in
  ({| boundary_fallback := resolve_ErrorFallback (t_components props);
      inner :=
        match container_state fib with
        | None => None
        | Some _ =>
            Some match t_store props with
                 | StoreInstance store =>
                     InnerReadyStore
                       {| r_store := store; r_user := user;
                          r_base := withDefaults props |}
                 | StoreWithStatus store =>
                     InnerLoadingStore
                       {| l_store := store; l_user := user;
                          l_base := withDefaults props |}
                 | StoreUndefined => InnerOwnStore user (withDefaults props)
                 end
        end |},
   {| container_state := container_state fib;
      user_memo := Some (t_user props, user) |}).

(** [ref={setContainer}]: when the [div] is attached, the commit of the
    first render stores it. *)
Definition attach (div : Ref) (fib : TldrawEditorFiber) : TldrawEditorFiber :=
  {| container_state := Some div; user_memo := user_memo fib |}.

(** [TldrawEditorWithOwnStore]: [syncedStore] is what [useLocalStore]
    (./hooks/useLocalStore, not part of this file) returns; it goes through
    the gate with the other props. *)
Definition TldrawEditorWithOwnStore (user : TLUser) (base : BaseProps)
    (syncedStore : TLStoreWithStatus) : LoadingProps :=
  {| l_store := syncedStore; l_user := user; l_base := base |}.

End TopLevel.

(** The props of two renders agree on what the identity tuple and the
    camera effect read, and on the components, so that the same boundaries
    are rendered. *)
Definition same_inputs (a b : TldrawEditorProps) : Prop :=
  t_components a = t_components b
  ∧ t_store a = t_store b ∧ t_user a = t_user b
  ∧ t_tools a = t_tools b ∧ t_shapeUtils a = t_shapeUtils b
  ∧ t_bindingUtils a = t_bindingUtils b
  ∧ t_options a = t_options b ∧ t_licenseKey a = t_licenseKey b
  ∧ t_cameraOptions a = t_cameraOptions b.

(** The constructor arguments [TldrawEditor] leads to for a [Store]
    instance, once its [div] is attached. *)
Definition TldrawEditor_args
    (EMPTY_SHAPE_UTILS_ARRAY EMPTY_BINDING_UTILS_ARRAY EMPTY_TOOLS_ARRAY : Ref)
    (props : TldrawEditorProps) (store : TLStore) (div : Ref) (created : TLUser)
    : EditorArgs :=
  {| a_store := store;
     a_shapeUtils := default EMPTY_SHAPE_UTILS_ARRAY (t_shapeUtils props);
     a_bindingUtils := default EMPTY_BINDING_UTILS_ARRAY (t_bindingUtils props);
     a_tools := default EMPTY_TOOLS_ARRAY (t_tools props);
     a_getContainer := div;
     a_user := default created (t_user props);
     a_initialState := t_initialState props;
     a_autoFocus := default true (t_autoFocus props);
     a_inferDarkMode := t_inferDarkMode props;
     a_cameraOptions := t_cameraOptions props;
     a_options := t_options props;
     a_licenseKey := t_licenseKey props |}.

(** ** The [Button] component *)

Inductive ButtonSize := SizeXs | SizeSm | SizeBase | SizeLg.
Inductive ButtonType := TypePrimary | TypeSecondary | TypeTertiary.
Inductive ButtonArrow := ArrowLeft | ArrowRight.

#[global] Instance ButtonSize_eq_dec : EqDecision ButtonSize.
Proof. solve_decision. Defined.
#[global] Instance ButtonType_eq_dec : EqDecision ButtonType.
Proof. solve_decision. Defined.
#[global] Instance ButtonArrow_eq_dec : EqDecision ButtonArrow.
Proof. solve_decision. Defined.

(** The props of [Button]; [None] is [undefined]. *)
Record ButtonProps := {
  b_href : option string;
  b_newTab : option bool;
  b_onClick : option Ref;
  b_submit : option bool;
  b_caption : string;
  b_icon : option string;
  b_arrow : option ButtonArrow;
  b_className : option string;
  b_size : option ButtonSize;
  b_type : option ButtonType;
}.

(** The children of the element, in order. *)
Inductive ButtonChild :=
| ArrowLongLeftIcon (className : string)
| Icon (icon : string) (className : string)
| Caption (caption : string)
| ArrowLongRightIcon (className : string).

(** What [Button] returns: a [Link], a [button] or [null]. *)
Inductive ButtonOutput :=
| RenderLink (href : string) (target rel : option string) (className : string)
    (children : list ButtonChild)
| RenderButton (onClick : option Ref) (type : option string) (className : string)
    (children : list ButtonChild)
| RenderNoButton.

(** A string used as a condition: [undefined] and the empty string are
    falsy. *)
Definition truthy (s : option string) : option string :=
  match s with
  | Some "" | None => None
  | Some s => Some s
  end.

Definition iconSizes (size : ButtonSize) : string :=
  match size with
  | SizeXs => "h-3"
  | SizeSm => "h-3.5"
  | SizeBase => "h-4"
  | SizeLg => "h-5"
  end.

(** [cond && 'classes']: the classes, or [false]. *)
Definition and_class (cond : bool) (classes : string) : option string :=
  if cond then Some classes else None.

Section Button.

(** [cn] (@/utils/cn) is not part of this file: it is given its arguments
    in order, [None] for [false] and [undefined]. *)
Variable cn : list (option string) → string.

Definition Button_className (props : ButtonProps) : string :=
  let size := default SizeBase (b_size props) in
  let type := default TypePrimary (b_type props) in
  cn [Some "flex items-center";
      and_class (bool_decide (size = SizeXs)) "h-6 px-2 gap-1.5 rounded-md text-xs";
      and_class (bool_decide (size = SizeSm)) "h-7 px-3 gap-2 rounded-md text-sm";
      and_class (bool_decide (size = SizeBase)) "h-9 px-4 gap-2.5 rounded-lg text-base";
      and_class (bool_decide (size = SizeLg)) "h-11 px-5 gap-3 rounded-xl text-lg";
      and_class (bool_decide (type = TypePrimary))
        "bg-blue-500 text-white hover:bg-blue-600";
      and_class (bool_decide (type = TypeSecondary))
        "bg-zinc-100 text-zinc-800 hover:bg-zinc-200";
      b_className props].

(** The children the three elements share. *)
Definition Button_children (props : ButtonProps) : list ButtonChild :=
  let size := default SizeBase (b_size props) in
  (if bool_decide (b_arrow props = Some ArrowLeft)
   then [ArrowLongLeftIcon (cn [Some (iconSizes size)])] else [])
  ++ from_option (λ icon, [Icon icon (cn [Some (iconSizes size)])]) []
       (truthy (b_icon props))
  ++ [Caption (b_caption props)]
  ++ (if bool_decide (b_arrow props = Some ArrowRight)
      then [ArrowLongRightIcon (cn [Some (iconSizes size)])] else []).

Definition Button (props : ButtonProps) : ButtonOutput :=
  match truthy (b_href props) with
  | Some href =>
      RenderLink href
        (if default false (b_newTab props) then Some "_blank" else None)
        (if default false (b_newTab props) then Some "noopener noreferrer" else None)
        (Button_className props) (Button_children props)
  | None =>
      match b_onClick props with
      | Some onClick =>
          RenderButton (Some onClick) None
            (Button_className props) (Button_children props)
      | None =>
          if default false (b_submit props)
          then RenderButton None (Some "submit")
                 (Button_className props) (Button_children props)
          else RenderNoButton
      end
  end.

End Button.

(** The props with other handlers. *)
Definition with_handlers (onClick : option Ref) (submit : option bool)
    (props : ButtonProps) : ButtonProps :=
  {| b_href := b_href props; b_newTab := b_newTab props;
     b_onClick := onClick; b_submit := submit;
     b_caption := b_caption props; b_icon := b_icon props;
     b_arrow := b_arrow props; b_className := b_className props;
     b_size := b_size props; b_type := b_type props |}.

(** The children of an element, its caption apart. *)
Definition is_caption (c : ButtonChild) : bool :=
  match c with Caption _ => true | _ => false end.

Definition children_of (out : ButtonOutput) : list ButtonChild :=
  match out with
  | RenderLink _ _ _ _ children | RenderButton _ _ _ children => children
  | RenderNoButton => []
  end.

(** ** Further sample inputs *)

(** [other_props] with other camera options. *)
Definition other_camera_props : ReadyProps :=
  ready_props other_store sample_user
    {| onMount := onMount sample_base;
       tools := 4; shapeUtils := 5; bindingUtils := 6;
       initialState := None; autoFocus := None; inferDarkMode := None;
       cameraOptions := Some 8; options := None; licenseKey := None |}.

(** A [TldrawEditor] given a store and nothing else but camera options. *)
Definition sample_editor_props : TldrawEditorProps :=
  {| t_store := StoreInstance sample_store; t_components := None;
     t_user := None; t_onMount := None;
     t_tools := None; t_shapeUtils := None; t_bindingUtils := None;
     t_initialState := None; t_autoFocus := None; t_inferDarkMode := None;
     t_cameraOptions := Some 7; t_options := None; t_licenseKey := None |}.

(** The same with other one-shot options and a handler. *)
Definition restyled_editor_props : TldrawEditorProps :=
  {| t_store := StoreInstance sample_store;
     t_components := None;
     t_user := None;
     t_onMount := Some {| handler_ref := 3; handler_teardown := None |};
     t_tools := None; t_shapeUtils := None; t_bindingUtils := None;
     t_initialState := Some "select"; t_autoFocus := Some false;
     t_inferDarkMode := Some true;
     t_cameraOptions := Some 7; t_options := None; t_licenseKey := None |}.

(** A [TldrawEditor] that is given no store. *)
Definition storeless_editor_props : TldrawEditorProps :=
  {| t_store := StoreUndefined; t_components := None;
     t_user := None; t_onMount := None;
     t_tools := None; t_shapeUtils := None; t_bindingUtils := None;
     t_initialState := None; t_autoFocus := None; t_inferDarkMode := None;
     t_cameraOptions := Some 7; t_options := None; t_licenseKey := None |}.

Definition created_user : TLUser := {| user_ref := 30 |}.

Definition mounted_editor_fiber : TldrawEditorFiber :=
  {| container_state := Some 9; user_memo := None |}.

(** What [sample_editor_props] hands down, with the module constants at
    [40], [41] and [42]. *)
Definition handed_down : ReadyProps :=
  {| r_store := sample_store; r_user := created_user;
     r_base := withDefaults 40 41 42 sample_editor_props |}.

Definition sample_button : ButtonProps :=
  {| b_href := Some "/docs"; b_newTab := Some true;
     b_onClick := Some 1; b_submit := Some true;
     b_caption := "Docs"; b_icon := None; b_arrow := Some ArrowRight;
     b_className := None; b_size := None; b_type := None |}.

(** [sample_button] with an empty [href]. *)
Definition sample_submit : ButtonProps :=
  {| b_href := Some ""; b_newTab := None;
     b_onClick := None; b_submit := Some true;
     b_caption := "Send"; b_icon := None; b_arrow := None;
     b_className := None; b_size := None; b_type := None |}.

(** A stand-in for [cn]: the truthy arguments joined by spaces. *)
Definition join_classes (args : list (option string)) : string :=
  String.concat " " (omap id args).

(** The identity tuple an instance was built from. *)
Definition args_key (args : EditorArgs) : IdentityKey :=
  (a_store args, a_getContainer args, a_shapeUtils args, a_bindingUtils args,
   a_tools args, a_user args, a_options args, a_licenseKey args).

(** The exposed instance was built from the identity tuple of the last
    render. *)
Definition bound_to_props (s : Status) : Prop :=
  match s with
  | Mounted p c f =>
      ∃ e, editor f = Some e ∧ args_key (editor_args e) = identity_key p c
  | _ => True
  end.

(** * Lemmas *)

Lemma changed_None {A} `{EqDecision A} (a : A) : changed None a = true.
Proof. unfold changed. by rewrite bool_decide_eq_true. Qed.

Lemma changed_same {A} `{EqDecision A} (a : A) : changed (Some a) a = false.
Proof. unfold changed. rewrite bool_decide_eq_false. by intros []. Qed.

Lemma changed_diff {A} `{EqDecision A} (a b : A) :
  a ≠ b → changed (Some a) b = true.
Proof. intros ?. unfold changed. rewrite bool_decide_eq_true. congruence. Qed.

Lemma bind_ok {A B} (m : M A) (k : A → M B) w a w1 t1 :
  m w = (Ok a, w1, t1) →
  bind m k w = let '(r, w2, t2) := k a w1 in (r, w2, t1 ++ t2).
Proof. intros H. unfold bind. by rewrite H. Qed.

Lemma bind_thrown {A B} (m : M A) (k : A → M B) w err w1 t1 :
  m w = (Thrown err, w1, t1) → bind m k w = (Thrown err, w1, t1).
Proof. intros H. unfold bind. by rewrite H. Qed.

Lemma ret_eq {A} (a : A) w : ret a w = (Ok a, w, []).
Proof. reflexivity. Qed.

Lemma emit_eq ev w : emit ev w = (Ok (), w, [ev]).
Proof. reflexivity. Qed.

Lemma modify_eq f w : modify f w = (Ok (), f w, []).
Proof. reflexivity. Qed.

Lemma get_world_eq w : get_world w = (Ok w, w, []).
Proof. reflexivity. Qed.

Create HintDb runs.

#[export] Hint Resolve ret_eq emit_eq modify_eq get_world_eq : runs.

Ltac run1 :=
  rewrite ?changed_same, ?changed_None;
  erewrite bind_ok by (eauto with runs); cbn beta iota zeta.

Ltac runs := repeat run1; rewrite ?ret_eq, ?emit_eq; cbn beta iota zeta; rewrite ?app_nil_r, ?app_nil_l.

Lemma Layout_delete_eq lay w :
  Layout_delete lay w = (Ok (), w, from_option teardown_block [] lay).
Proof.
  destruct lay as [[e [[a|] [b|]]]|]; reflexivity.
Qed.

#[export] Hint Resolve Layout_delete_eq : runs.

Lemma Layout_mutation_keep l h w :
  Layout_mutation (ShowLayout (onMount_editor l) h) (Some l) w = (Ok (Some l), w, []).
Proof.
  simpl. rewrite bool_decide_eq_true_2 by done. reflexivity.
Qed.

Lemma Layout_mutation_fallback fb err lay w :
  Layout_mutation (ShowFallback fb err) lay w
  = (Ok None, w, from_option teardown_block [] lay).
Proof.
  destruct lay as [l|]; [|reflexivity].
  unfold Layout_mutation. by runs.
Qed.

Lemma Layout_mutation_None shown w :
  Layout_mutation shown None w = (Ok None, w, []).
Proof. reflexivity. Qed.

Lemma Layout_mutation_replace l e h w :
  onMount_editor l ≠ e →
  Layout_mutation (ShowLayout e h) (Some l) w = (Ok None, w, teardown_block l).
Proof.
  intros. unfold Layout_mutation. rewrite bool_decide_eq_false_2 by done.
  by runs.
Qed.

Lemma Layout_layout_mount e h w :
  Layout_layout (ShowLayout e h) None w =
  (Ok (Some {| onMount_editor := e; onMount_destroy := teardown_pair e h |}),
   set_tldrawReady true w, mount_block e h).
Proof.
  destruct h as [h|]; reflexivity.
Qed.

Lemma Layout_layout_keep e h l w :
  Layout_layout (ShowLayout e h) (Some l) w = (Ok (Some l), w, []).
Proof. reflexivity. Qed.

Lemma Layout_layout_fallback fb err lay w :
  Layout_layout (ShowFallback fb err) lay w = (Ok None, w, []).
Proof. by destruct lay. Qed.

Lemma Layout_layout_nothing lay w :
  Layout_layout ShowNothing lay w = (Ok None, w, []).
Proof. by destruct lay. Qed.

Lemma Editor_setCameraOptions_eq e c w :
  Editor_setCameraOptions e c w =
  (Ok (), set_editors (alter (with_camera c) (editor_id e)) w,
   [EvSetCameraOptions (editor_id e) c]).
Proof. reflexivity. Qed.

Lemma Editor_dispose_eq e w :
  Editor_dispose e w =
  (Ok (), set_editors (alter mark_disposed (editor_id e)) w, [EvDispose (editor_id e)]).
Proof. reflexivity. Qed.

Lemma onError_eq e err r w :
  Boundary_onError (Some e) None (ShowFallback r err) w
  = (Ok (), w, [EvAnnotateError (editor_id e) err]).
Proof. reflexivity. Qed.

Lemma onError_latched ed first shown w :
  Boundary_onError ed (Some first) shown w = (Ok (), w, []).
Proof. by destruct ed. Qed.

Lemma onError_layout ed before e h w :
  Boundary_onError ed before (ShowLayout e h) w = (Ok (), w, []).
Proof. by destruct ed, before. Qed.

Lemma onError_nothing ed before w :
  Boundary_onError ed before ShowNothing w = (Ok (), w, []).
Proof. by destruct ed, before. Qed.

#[export] Hint Resolve Layout_mutation_keep Layout_mutation_fallback
  Layout_mutation_None Layout_layout_mount Layout_layout_keep
  Layout_layout_fallback Layout_layout_nothing
  onError_eq onError_latched onError_layout onError_nothing
  Editor_setCameraOptions_eq Editor_dispose_eq : runs.

#[export] Hint Resolve Layout_mutation_replace : runs.

Lemma cameraEffect_eq e old new w :
  when (changed (Some (Some e, old)) (Some e, new)) (cameraEffect (Some e) new) w
  = (Ok (), camera_world e old new w, camera_update e old new).
Proof.
  unfold camera_world, camera_update, changed.
  destruct (decide (old = new)) as [->|Hne].
  - rewrite bool_decide_eq_false_2, bool_decide_eq_true_2; naive_solver.
  - rewrite bool_decide_eq_true_2, bool_decide_eq_false_2 by naive_solver.
    by destruct new.
Qed.

Lemma cameraEffect_fresh (prev : option Editor) e cam w :
  prev ≠ Some e →
  when (changed (Some (prev, cam)) (Some e, cam)) (cameraEffect (Some e) cam) w
  = (Ok (), from_option (λ c, set_editors (alter (with_camera c) (editor_id e)) w) w cam,
     from_option (λ c, [EvSetCameraOptions (editor_id e) c]) [] cam).
Proof.
  intros. rewrite changed_diff by congruence. by destruct cam.
Qed.

#[export] Hint Resolve cameraEffect_eq cameraEffect_fresh : runs.

Lemma options_ref p p' :
  (if changed (Some (current_options p)) (current_options p')
   then optionsEffect p' else current_options p) = current_options p'.
Proof.
  unfold changed, optionsEffect. case_bool_decide; [done|congruence].
Qed.

(** Case analysis over the blocks a step logs. *)
Ltac atomic x :=
  lazymatch x with
  | context [match _ with _ => _ end] => fail
  | _ => idtac
  end.

Ltac blocks :=
  unfold camera_update, rerender_log, expose_log, mount_block, next_layout,
    teardown_block, mounted_layout, teardown_pair, pending, next_editor in *;
  repeat (cbn;
          match goal with
          | |- context [bool_decide ?P] => destruct (bool_decide P)
          | |- context [match ?x with _ => _ end] =>
              atomic x;
              match type of x with
              | option _ => progress (destruct x)
              end
          | |- context [from_option _ _ ?x] => atomic x; progress (destruct x)
          | |- context [option_list ?x] => atomic x; progress (destruct x)
          | l : LayoutFiber |- _ => destruct l as [? [[?|] [?|]]]
          end).

Section Proofs.

Variable ctor : EditorArgs → option JsError.
Variable fb : option Ref.

Lemma new_Editor_ok args w :
  ctor args = None →
  new_Editor ctor args w =
  (Ok {| editor_id := length (editors w); editor_args := args |},
   alloc_world args w,
   [EvNew {| editor_id := length (editors w); editor_args := args |}]).
Proof. intros H. unfold new_Editor. by rewrite H. Qed.

Lemma new_Editor_throw args err w :
  ctor args = Some err →
  new_Editor ctor args w = (Thrown err, w, [EvNewThrow args err]).
Proof. intros H. unfold new_Editor. by rewrite H. Qed.

Lemma editorEffect_ok p c ref w :
  ctor (editor_args_of p c ref) = None →
  try (editorEffect ctor p c ref) w =
  (Ok (inr {| editor_id := length (editors w); editor_args := editor_args_of p c ref |}),
   alloc_world (editor_args_of p c ref) w,
   [EvNew {| editor_id := length (editors w); editor_args := editor_args_of p c ref |};
    EvSetEditor (length (editors w))]).
Proof.
  intros H. unfold try, editorEffect.
  erewrite bind_ok by (by apply new_Editor_ok). by runs.
Qed.

Lemma editorEffect_throw p c ref err w :
  ctor (editor_args_of p c ref) = Some err →
  try (editorEffect ctor p c ref) w =
  (Ok (inl err), w, [EvNewThrow (editor_args_of p c ref) err]).
Proof.
  intros H. unfold try, editorEffect.
  erewrite bind_thrown by (by apply new_Editor_throw). done.
Qed.

(** What the boundary shows between two renders. *)
Lemma render_stable p' p c e prev lay caught w :
  layout_ok fb w e lay caught →
  render fb p' (stable_fiber p c e prev lay caught) w
  = inr (shown_stable fb e (onMount (r_base p')) lay caught).
Proof.
  unfold render, shown_stable, layout_ok, TldrawEditorWithReadyStore, getSnapshot.
  cbn [editor boundary stable_fiber mbind option_bind].
  destruct lay as [l|].
  - intros (_ & -> & ->). by destruct fb.
  - intros ([first ->] & [r Hr]). rewrite Hr.
    by destruct (Editor_getCrashingError w e).
Qed.

Lemma mutation_stable e h lay caught w w' :
  layout_ok fb w e lay caught →
  Layout_mutation (shown_stable fb e h lay caught) lay w' = (Ok lay, w', []).
Proof.
  unfold shown_stable, layout_ok. destruct lay as [l|].
  - intros (<- & _ & _). apply Layout_mutation_keep.
  - intros _. apply Layout_mutation_None.
Qed.

Lemma layout_stable e h lay caught w w' :
  layout_ok fb w e lay caught →
  Layout_layout (shown_stable fb e h lay caught) lay w' = (Ok lay, w', []).
Proof.
  unfold shown_stable, layout_ok. destruct lay as [l|]; [done|].
  by intros ([first ->] & [r ->]).
Qed.

Lemma caught_stable e h lay caught w :
  layout_ok fb w e lay caught →
  caught_by (shown_stable fb e h lay caught) = caught.
Proof.
  unfold shown_stable, layout_ok. destruct lay as [l|].
  - by intros (_ & -> & _).
  - by intros ([first ->] & [r ->]).
Qed.

(** [onError] is not called by a render in which the boundary catches
    nothing new. *)
Lemma onError_quiet ed before shown w :
  caught_by shown = before →
  Boundary_onError ed before shown w = (Ok (), w, []).
Proof. intros <-. unfold Boundary_onError. by destruct ed, (caught_by shown). Qed.

Lemma onError_stable e h lay caught w w' :
  layout_ok fb w e lay caught →
  Boundary_onError (Some e) caught (shown_stable fb e h lay caught) w'
  = (Ok (), w', []).
Proof. intros Hlay. apply onError_quiet. by eapply caught_stable. Qed.

Ltac open_pass :=
  unfold commit, stable_fiber, initial_fiber;
  cbn [editor editorOptionsRef optionsEffect_deps editorEffect_deps
       editorEffect_destroy cameraEffect_deps boundary layout].

Lemma commit_same p c w e lay caught p' c' :
  layout_ok fb w e lay caught →
  editor_deps p' c' = editor_deps p c →
  commit ctor p' c' (stable_fiber p c e (Some e) lay caught)
    (shown_stable fb e (onMount (r_base p')) lay caught) w =
  (Ok (stable_fiber p' c' e (Some e) lay caught, false),
   camera_world e (cameraOptions (r_base p)) (cameraOptions (r_base p')) w,
   camera_update e (cameraOptions (r_base p)) (cameraOptions (r_base p'))).
Proof.
  intros Hlay Hdeps. unfold stable_fiber. rewrite <- Hdeps. open_pass.
  erewrite bind_ok by (by eapply mutation_stable).
  run1.
  erewrite bind_ok by (by eapply layout_stable).
  erewrite bind_ok by (by eapply onError_stable).
  runs. by rewrite options_ref, (caught_stable _ _ _ _ _ Hlay).
Qed.

Lemma crashing_alter (g : EditorState → EditorState) i (l : list EditorState) j :
  (∀ s, crashingError (g s) = crashingError s) →
  alter g i l !! j ≫= crashingError = l !! j ≫= crashingError.
Proof.
  intros Hg. destruct (decide (i = j)) as [->|?].
  - rewrite list_lookup_alter_eq. destruct (l !! j); [apply Hg|done].
  - by rewrite list_lookup_alter_ne.
Qed.

Lemma getCrashingError_dispose e0 w e :
  Editor_getCrashingError (dispose_world e0 w) e = Editor_getCrashingError w e.
Proof. by apply crashing_alter. Qed.

Lemma length_dispose e w : length (editors (dispose_world e w)) = length (editors w).
Proof. unfold dispose_world. cbn. by rewrite length_alter. Qed.

Lemma commit_new p c w e lay caught p' c' :
  layout_ok fb w e lay caught →
  editor_deps p c ≠ editor_deps p' c' →
  ctor (editor_args_of p' c' (current_options p')) = None →
  commit ctor p' c' (stable_fiber p c e (Some e) lay caught)
    (shown_stable fb e (onMount (r_base p')) lay caught) w =
  (Ok (stable_fiber p' c' (next_editor p' c' w) (Some e) lay caught, true),
   camera_world e (cameraOptions (r_base p)) (cameraOptions (r_base p'))
     (alloc_world (editor_args_of p' c' (current_options p')) (dispose_world e w)),
   [EvDispose (editor_id e); EvNew (next_editor p' c' w);
    EvSetEditor (length (editors w))]
   ++ camera_update e (cameraOptions (r_base p)) (cameraOptions (r_base p'))).
Proof.
  intros Hlay Hdeps Hok. open_pass.
  erewrite bind_ok by (by eapply mutation_stable).
  cbn beta iota zeta. rewrite (changed_diff _ _ Hdeps).
  run1.
  erewrite bind_ok by (by eapply layout_stable).
  erewrite bind_ok by (by eapply onError_stable).
  cbn beta iota zeta. rewrite options_ref.
  erewrite bind_ok.
  2:{ erewrite bind_ok by (by apply editorEffect_ok). by runs. }
  fold (dispose_world e w). rewrite length_dispose.
  runs. by rewrite (caught_stable _ _ _ _ _ Hlay).
Qed.

Lemma commit_throw p c w e lay caught p' c' err :
  layout_ok fb w e lay caught →
  editor_deps p c ≠ editor_deps p' c' →
  ctor (editor_args_of p' c' (current_options p')) = Some err →
  commit ctor p' c' (stable_fiber p c e (Some e) lay caught)
    (shown_stable fb e (onMount (r_base p')) lay caught) w =
  (Thrown err, dispose_world e w,
   [EvDispose (editor_id e);
    EvNewThrow (editor_args_of p' c' (current_options p')) err]
   ++ from_option teardown_block [] lay).
Proof.
  intros Hlay Hdeps Hok. open_pass.
  erewrite bind_ok by (by eapply mutation_stable).
  cbn beta iota zeta. rewrite (changed_diff _ _ Hdeps).
  run1.
  erewrite bind_ok by (by eapply layout_stable).
  erewrite bind_ok by (by eapply onError_stable).
  cbn beta iota zeta. rewrite options_ref.
  erewrite bind_thrown.
  2:{ erewrite bind_ok by (by apply editorEffect_throw).
      cbn beta iota zeta. erewrite bind_ok by apply Layout_delete_eq. reflexivity. }
  cbn. by rewrite app_nil_r.
Qed.

Lemma commit_initial_ok p c w :
  ctor (editor_args_of p c (current_options p)) = None →
  commit ctor p c (initial_fiber p) ShowNothing w =
  (Ok (stable_fiber p c (next_editor p c w) None None None, true),
   alloc_world (editor_args_of p c (current_options p)) w,
   [EvNew (next_editor p c w); EvSetEditor (length (editors w))]).
Proof.
  intros Hok. open_pass.
  runs.
  erewrite bind_ok.
  2:{ assert (changed (Some (current_options p)) (current_options p) = false) as _ by apply changed_same.
      erewrite bind_ok by (by apply editorEffect_ok). by runs. }
  runs. done.
Qed.

Lemma commit_initial_throw p c w err :
  ctor (editor_args_of p c (current_options p)) = Some err →
  commit ctor p c (initial_fiber p) ShowNothing w =
  (Thrown err, w, [EvNewThrow (editor_args_of p c (current_options p)) err]).
Proof.
  intros Hok. open_pass.
  runs.
  erewrite bind_thrown.
  2:{ erewrite bind_ok by (by apply editorEffect_throw). by runs. }
  done.
Qed.

Lemma render_initial p w : render fb p (initial_fiber p) w = inr ShowNothing.
Proof. reflexivity. Qed.

(** A render that does not throw is followed by its commit. *)
Lemma pass_commit p c f w shown :
  render fb p f w = inr shown →
  render_and_commit ctor fb p c f w = commit ctor p c f shown w.
Proof.
  intros H. unfold render_and_commit, bind, get_world. rewrite H.
  destruct (commit ctor p c f shown w) as [[[a|err] w1] t1]; [|done].
  by destruct a.
Qed.

Lemma pass_same p c w e lay caught p' c' :
  layout_ok fb w e lay caught →
  editor_deps p' c' = editor_deps p c →
  render_and_commit ctor fb p' c' (stable_fiber p c e (Some e) lay caught) w =
  (Ok (stable_fiber p' c' e (Some e) lay caught, false),
   camera_world e (cameraOptions (r_base p)) (cameraOptions (r_base p')) w,
   camera_update e (cameraOptions (r_base p)) (cameraOptions (r_base p'))).
Proof.
  intros Hlay Hdeps.
  erewrite pass_commit by (by apply render_stable). by apply commit_same.
Qed.

Lemma pass_new p c w e lay caught p' c' :
  layout_ok fb w e lay caught →
  editor_deps p c ≠ editor_deps p' c' →
  ctor (editor_args_of p' c' (current_options p')) = None →
  render_and_commit ctor fb p' c' (stable_fiber p c e (Some e) lay caught) w =
  (Ok (stable_fiber p' c' (next_editor p' c' w) (Some e) lay caught, true),
   camera_world e (cameraOptions (r_base p)) (cameraOptions (r_base p'))
     (alloc_world (editor_args_of p' c' (current_options p')) (dispose_world e w)),
   [EvDispose (editor_id e); EvNew (next_editor p' c' w);
    EvSetEditor (length (editors w))]
   ++ camera_update e (cameraOptions (r_base p)) (cameraOptions (r_base p'))).
Proof.
  intros Hlay Hdeps Hok.
  erewrite pass_commit by (by apply render_stable). by apply commit_new.
Qed.

Lemma pass_throw p c w e lay caught p' c' err :
  layout_ok fb w e lay caught →
  editor_deps p c ≠ editor_deps p' c' →
  ctor (editor_args_of p' c' (current_options p')) = Some err →
  render_and_commit ctor fb p' c' (stable_fiber p c e (Some e) lay caught) w =
  (Thrown err, dispose_world e w,
   [EvDispose (editor_id e);
    EvNewThrow (editor_args_of p' c' (current_options p')) err]
   ++ from_option teardown_block [] lay).
Proof.
  intros Hlay Hdeps Hok.
  erewrite pass_commit by (by apply render_stable). by apply commit_throw.
Qed.

(** The re-render that follows [setEditor], the boundary having caught
    nothing: [Layout] is mounted for the instance just exposed. *)
Lemma pass_fresh p c w e prev lay :
  prev ≠ Some e →
  match lay with
  | Some l => onMount_editor l ≠ e
  | None => True
  end →
  Editor_getCrashingError w e = None →
  render_and_commit ctor fb p c (stable_fiber p c e prev lay None) w =
  (Ok (stable_fiber p c e (Some e)
         (Some {| onMount_editor := e;
                  onMount_destroy := teardown_pair e (onMount (r_base p)) |})
         None,
       false),
   from_option (λ cam, set_editors (alter (with_camera cam) (editor_id e)))
     id (cameraOptions (r_base p)) (set_tldrawReady true w),
   from_option teardown_block [] lay
   ++ mount_block e (onMount (r_base p))
   ++ from_option (λ cam, [EvSetCameraOptions (editor_id e) cam]) []
        (cameraOptions (r_base p))).
Proof.
  intros Hprev Hlay Hc.
  erewrite pass_commit.
  2:{ unfold render, getSnapshot, TldrawEditorWithReadyStore.
      cbn [editor boundary stable_fiber mbind option_bind]. rewrite Hc.
      instantiate (1 := ShowLayout e (onMount (r_base p))). by destruct fb. }
  open_pass.
  erewrite bind_ok.
  2:{ instantiate (3 := None). instantiate (1 := from_option teardown_block [] lay).
      destruct lay as [l|]; [by apply Layout_mutation_replace|done]. }
  cbn beta iota zeta.
  runs. by destruct (cameraOptions (r_base p)).
Qed.

(** The same re-render once the boundary has caught a crash: the fallback
    stays, and only the camera effect runs. *)
Lemma pass_latched p c w e prev first r :
  prev ≠ Some e →
  fb = Some r →
  render_and_commit ctor fb p c (stable_fiber p c e prev None (Some first)) w =
  (Ok (stable_fiber p c e (Some e) None (Some first), false),
   from_option (λ cam, set_editors (alter (with_camera cam) (editor_id e)))
     id (cameraOptions (r_base p)) w,
   from_option (λ cam, [EvSetCameraOptions (editor_id e) cam]) []
     (cameraOptions (r_base p))).
Proof.
  intros Hprev Hfb.
  erewrite pass_commit.
  2:{ unfold render, getSnapshot, TldrawEditorWithReadyStore.
      cbn [editor boundary stable_fiber mbind option_bind]. rewrite Hfb.
      instantiate (1 := ShowFallback r first).
      by destruct (Editor_getCrashingError w e). }
  open_pass.
  runs. by destruct (cameraOptions (r_base p)).
Qed.

Lemma unmount_stable p c e prev lay caught w :
  unmount (stable_fiber p c e prev lay caught) w
  = (Ok (), dispose_world e w,
     EvDispose (editor_id e) :: from_option teardown_block [] lay).
Proof.
  unfold unmount. cbn [editorEffect_destroy layout stable_fiber from_option].
  erewrite bind_ok by apply Editor_dispose_eq. by rewrite Layout_delete_eq.
Qed.

(** The render after the exposed instance has crashed: the boundary catches
    what [Crash] throws and [Layout] is removed; without a boundary the
    render throws and the component is removed. *)
Lemma pass_crash_caught p c w e l err r :
  fb = Some r →
  Editor_getCrashingError w e = Some err →
  render_and_commit ctor fb p c (stable_fiber p c e (Some e) (Some l) None) w =
  (Ok (stable_fiber p c e (Some e) None (Some err), false), w,
   teardown_block l ++ [EvAnnotateError (editor_id e) err]).
Proof.
  intros Hfb Hc.
  erewrite pass_commit.
  2:{ unfold render, getSnapshot, TldrawEditorWithReadyStore.
      cbn [editor boundary stable_fiber mbind option_bind]. rewrite Hfb, Hc.
      reflexivity. }
  cbn [Crash]. open_pass.
  runs. done.
Qed.

Lemma pass_crash_uncaught p c w e l err :
  fb = None →
  Editor_getCrashingError w e = Some err →
  render_and_commit ctor fb p c (stable_fiber p c e (Some e) (Some l) None) w =
  (Thrown err, dispose_world e w, EvDispose (editor_id e) :: teardown_block l).
Proof.
  intros Hfb Hc. unfold render_and_commit, render, getSnapshot,
    TldrawEditorWithReadyStore.
  cbn [editor boundary stable_fiber mbind option_bind].
  run1. rewrite Hfb, Hc. cbn [OptionalErrorBoundary Crash].
  erewrite bind_ok by apply unmount_stable.
  cbn. by rewrite app_nil_r.
Qed.

Lemma length_camera_world e old new w :
  length (editors (camera_world e old new w)) = length (editors w).
Proof.
  unfold camera_world. case_bool_decide; [done|].
  destruct new; [|done]. cbn. apply length_alter.
Qed.

Lemma length_alloc args w :
  length (editors (alloc_world args w)) = S (length (editors w)).
Proof. cbn. rewrite length_app. cbn. lia. Qed.

Lemma getCrashingError_camera e0 old new w e :
  Editor_getCrashingError (camera_world e0 old new w) e = Editor_getCrashingError w e.
Proof.
  unfold camera_world. case_bool_decide; [done|].
  destruct new; [|done]. by apply crashing_alter.
Qed.

Lemma getCrashingError_alloc_old args w e :
  editor_id e < length (editors w) →
  Editor_getCrashingError (alloc_world args w) e = Editor_getCrashingError w e.
Proof.
  intros. unfold Editor_getCrashingError. cbn. by rewrite lookup_app_l.
Qed.

Lemma getCrashingError_alloc_new args w e :
  editor_id e = length (editors w) →
  Editor_getCrashingError (alloc_world args w) e = None.
Proof.
  intros H. unfold Editor_getCrashingError. cbn.
  rewrite lookup_app_r by lia. rewrite H, Nat.sub_diag. done.
Qed.

Lemma update_same p c w e lay caught p' c' :
  layout_ok fb w e lay caught →
  editor_deps p' c' = editor_deps p c →
  update ctor fb p' c' (stable_fiber p c e (Some e) lay caught) w =
  (Mounted p' c' (stable_fiber p' c' e (Some e) lay caught),
   camera_world e (cameraOptions (r_base p)) (cameraOptions (r_base p')) w,
   camera_update e (cameraOptions (r_base p)) (cameraOptions (r_base p'))).
Proof.
  intros Hlay Hdeps. unfold update.
  erewrite bind_ok by (by apply pass_same). cbn. by rewrite app_nil_r.
Qed.

Lemma update_new p c w e lay caught p' c' :
  layout_ok fb w e lay caught →
  S (editor_id e) = length (editors w) →
  editor_deps p c ≠ editor_deps p' c' →
  ctor (editor_args_of p' c' (current_options p')) = None →
  update ctor fb p' c' (stable_fiber p c e (Some e) lay caught) w =
  (Mounted p' c'
     (stable_fiber p' c' (next_editor p' c' w) (Some (next_editor p' c' w))
        (next_layout caught (next_editor p' c' w) (onMount (r_base p'))) caught),
   rerender_world caught (next_editor p' c' w) (cameraOptions (r_base p'))
     (camera_world e (cameraOptions (r_base p)) (cameraOptions (r_base p'))
        (alloc_world (editor_args_of p' c' (current_options p')) (dispose_world e w))),
   ([EvDispose (editor_id e); EvNew (next_editor p' c' w);
     EvSetEditor (length (editors w))]
    ++ camera_update e (cameraOptions (r_base p)) (cameraOptions (r_base p')))
   ++ from_option teardown_block [] lay
   ++ rerender_log caught (next_editor p' c' w) (onMount (r_base p'))
        (cameraOptions (r_base p'))).
Proof.
  intros Hlay Hid Hdeps Hok. unfold update.
  erewrite bind_ok by (by apply pass_new). cbn beta iota zeta.
  destruct lay as [l|].
  - destruct Hlay as (Hl & -> & Hnone).
    erewrite bind_ok.
    2:{ apply pass_fresh.
        - intros [= ->]. cbn in Hid. lia.
        - rewrite Hl. intros ->. cbn in Hid. lia.
        - rewrite getCrashingError_camera. apply getCrashingError_alloc_new.
          cbn. by rewrite length_alter. }
    cbn. by rewrite !app_nil_r.
  - destruct Hlay as ([first ->] & [r Hr]).
    erewrite bind_ok.
    2:{ eapply pass_latched; [|exact Hr].
        intros [= ->]. cbn in Hid. lia. }
    cbn. by rewrite !app_nil_r.
Qed.

Lemma update_throw p c w e lay caught p' c' err :
  layout_ok fb w e lay caught →
  editor_deps p c ≠ editor_deps p' c' →
  ctor (editor_args_of p' c' (current_options p')) = Some err →
  update ctor fb p' c' (stable_fiber p c e (Some e) lay caught) w =
  (Failed err, dispose_world e w,
   [EvDispose (editor_id e);
    EvNewThrow (editor_args_of p' c' (current_options p')) err]
   ++ from_option teardown_block [] lay).
Proof.
  intros Hlay Hdeps Hthrow. unfold update.
  erewrite bind_thrown by (by apply pass_throw). done.
Qed.

Lemma mount_ok p c w :
  ctor (editor_args_of p c (current_options p)) = None →
  mount ctor fb p c w =
  (Mounted p c
     (stable_fiber p c (next_editor p c w) (Some (next_editor p c w))
        (Some (mounted_layout (next_editor p c w) (onMount (r_base p)))) None),
   expose_world (next_editor p c w) (cameraOptions (r_base p))
     (alloc_world (editor_args_of p c (current_options p)) w),
   [EvNew (next_editor p c w); EvSetEditor (length (editors w))]
   ++ expose_log (next_editor p c w) (onMount (r_base p)) (cameraOptions (r_base p))).
Proof.
  intros Hok. unfold mount, update.
  erewrite bind_ok
    by (erewrite pass_commit by apply render_initial; by apply commit_initial_ok).
  cbn beta iota zeta.
  erewrite bind_ok.
  2:{ apply pass_fresh; [done|done|].
      by apply getCrashingError_alloc_new. }
  cbn. by rewrite !app_nil_r.
Qed.

Lemma mount_throw p c w err :
  ctor (editor_args_of p c (current_options p)) = Some err →
  mount ctor fb p c w =
  (Failed err, w, [EvNewThrow (editor_args_of p c (current_options p)) err]).
Proof.
  intros Hok. unfold mount, update.
  erewrite bind_thrown
    by (erewrite pass_commit by apply render_initial; by apply commit_initial_throw).
  done.
Qed.

Lemma getCrashingError_latch_same e err w :
  editor_id e < length (editors w) →
  Editor_getCrashingError (latch_world (editor_id e) err w) e =
  Some (default err (Editor_getCrashingError w e)).
Proof.
  intros Hlt. unfold Editor_getCrashingError, latch_world. cbn.
  rewrite list_lookup_alter_eq.
  destruct (lookup_lt_is_Some_2 _ _ Hlt) as [s ->]. cbn.
  by destruct (crashingError s).
Qed.

Lemma getCrashingError_latch_keeps e0 err0 w e err :
  Editor_getCrashingError w e = Some err →
  Editor_getCrashingError (latch_world e0 err0 w) e = Some err.
Proof.
  unfold Editor_getCrashingError, latch_world. cbn. intros H.
  destruct (decide (e0 = editor_id e)) as [->|?].
  - rewrite list_lookup_alter_eq.
    destruct (editors w !! editor_id e) as [s|]; [|done]. cbn in *. by rewrite H.
  - by rewrite list_lookup_alter_ne.
Qed.

Lemma getCrashingError_latch_other e0 err0 w e :
  e0 ≠ editor_id e →
  Editor_getCrashingError (latch_world e0 err0 w) e = Editor_getCrashingError w e.
Proof.
  intros. unfold Editor_getCrashingError, latch_world. cbn.
  by rewrite list_lookup_alter_ne.
Qed.

Lemma length_latch e err w :
  length (editors (latch_world e err w)) = length (editors w).
Proof. cbn. apply length_alter. Qed.

Lemma length_expose e cam w :
  length (editors (expose_world e cam w)) = length (editors w).
Proof. unfold expose_world. destruct cam; cbn; [apply length_alter|done]. Qed.

Lemma length_rerender caught e cam w :
  length (editors (rerender_world caught e cam w)) = length (editors w).
Proof.
  destruct caught; cbn [rerender_world]; [|apply length_expose].
  destruct cam; cbn; [apply length_alter|done].
Qed.

Lemma getCrashingError_expose e0 cam w e :
  Editor_getCrashingError (expose_world e0 cam w) e = Editor_getCrashingError w e.
Proof.
  unfold expose_world. destruct cam; [|done].
  cbn [from_option]. by apply crashing_alter.
Qed.

Lemma getCrashingError_rerender caught e0 cam w e :
  Editor_getCrashingError (rerender_world caught e0 cam w) e
  = Editor_getCrashingError w e.
Proof.
  destruct caught; cbn [rerender_world]; [|apply getCrashingError_expose].
  destruct cam; [|done]. cbn [from_option]. by apply crashing_alter.
Qed.

Lemma camera_world_same e cam w : camera_world e cam cam w = w.
Proof. unfold camera_world. by rewrite bool_decide_eq_true_2. Qed.

Lemma camera_update_same e cam : camera_update e cam cam = [].
Proof. unfold camera_update. by rewrite bool_decide_eq_true_2. Qed.

Lemma step_cases p c e lay caught w a :
  layout_ok fb w e lay caught →
  S (editor_id e) = length (editors w) →
  Step_from ctor fb p c e lay caught w a
    (step ctor fb a (Mounted p c (stable_fiber p c e (Some e) lay caught)) w).
Proof.
  intros Hlay Hid. destruct a as [p' c'|e0 err|]; cbn [step].
  - destruct (decide (editor_deps p' c' = editor_deps p c)) as [Heq|Hne].
    + rewrite update_same by done. by constructor.
    + destruct (ctor (editor_args_of p' c' (current_options p')))
        as [err|] eqn:Hc.
      * erewrite update_throw by done. by constructor.
      * rewrite update_new by done. by constructor.
  - unfold notify_crash. cbn [editor stable_fiber fmap option_fmap option_map].
    fold (Editor_getCrashingError w {| editor_id := e0; editor_args := editor_args e |}).
    fold (latch_world e0 err w).
    case_bool_decide as Hsub.
    + destruct Hsub as [[= <-] Hnone].
      assert (Editor_getCrashingError w e = None) as Hnone' by (by destruct e).
      assert (Editor_getCrashingError (latch_world (editor_id e) err w) e = Some err)
        as Hc.
      { rewrite getCrashingError_latch_same by lia. by rewrite Hnone'. }
      destruct lay as [l|].
      * destruct Hlay as (Hl & -> & _). unfold update.
        assert ((∃ r, fb = Some r) ∨ fb = None) as [[r Hfb]|Hfb]
          by (destruct fb; eauto).
        -- erewrite bind_ok by (by eapply pass_crash_caught).
           cbn. rewrite app_nil_r. by eapply step_crash_caught.
        -- erewrite bind_thrown by (by eapply pass_crash_uncaught).
           eapply step_crash_uncaught; [|done]. rewrite Hfb. by intros [].
      * assert (layout_ok fb (latch_world (editor_id e) err w) e None caught)
          as Hlay' by done.
        rewrite update_same; [|done|done].
        rewrite camera_world_same, camera_update_same.
        apply step_crash_ignored. by right.
    + apply step_crash_ignored.
      destruct (decide (e0 = editor_id e)) as [->|]; [right|by left].
      destruct lay as [l|]; [|done]. destruct Hlay as (_ & _ & Hnone).
      destruct Hsub. split; [done|]. by destruct e.
  - rewrite unmount_stable. constructor.
Qed.

Lemma step_dead a s w :
  (∀ p c f, s ≠ Mounted p c f) →
  ∃ w', step ctor fb a s w = (s, w', [])
        ∧ (∀ e err, Editor_getCrashingError w e = Some err →
                    Editor_getCrashingError w' e = Some err)
        ∧ length (editors w') = length (editors w).
Proof.
  intros Hs. destruct a as [p' c'|e0 err0|], s as [p c f| |err];
    try (by destruct (Hs p c f));
    cbn; eexists; (split; [reflexivity|]); split; try done;
    intros; try (by apply getCrashingError_latch_keeps); apply length_alter.
Qed.

Lemma step_settled a s w :
  settled fb s w →
  settled fb (step ctor fb a s w).1.1 (step ctor fb a s w).1.2.
Proof.
  intros [p c e lay caught w' Hlay Hid|w'|err w'].
  - destruct (step_cases p c e lay caught w' a Hlay Hid); cbn [fst snd].
    + constructor; [|by rewrite length_camera_world].
      unfold layout_ok in *. destruct lay; [|done].
      by rewrite getCrashingError_camera.
    + constructor.
      * unfold layout_ok, next_layout in *. destruct lay as [l|].
        -- destruct Hlay as (_ & -> & _). do 2 (split; [done|]).
           rewrite getCrashingError_rerender, getCrashingError_camera.
           apply getCrashingError_alloc_new. cbn. by rewrite length_alter.
        -- by destruct Hlay as ([first ->] & ?).
      * rewrite length_rerender, length_camera_world, length_alloc. cbn.
        by rewrite length_alter.
    + constructor.
    + constructor; [|by rewrite length_latch]. done.
    + constructor.
    + constructor; [|by rewrite length_latch].
      unfold layout_ok in *. destruct lay as [l|]; [|done].
      match goal with H : _ ∨ _ |- _ => destruct H as [Hne|?]; [|done] end.
      by rewrite getCrashingError_latch_other.
    + constructor.
  - destruct (step_dead a Unmounted w') as (w2 & -> & _); [done|]. constructor.
  - destruct (step_dead a (Failed err) w') as (w2 & -> & _); [done|]. constructor.
Qed.

Lemma mount_cases p c w :
  (ctor (editor_args_of p c (current_options p)) = None
   ∧ mount ctor fb p c w =
     (Mounted p c
        (stable_fiber p c (next_editor p c w) (Some (next_editor p c w))
           (Some (mounted_layout (next_editor p c w) (onMount (r_base p)))) None),
      expose_world (next_editor p c w) (cameraOptions (r_base p))
        (alloc_world (editor_args_of p c (current_options p)) w),
      [EvNew (next_editor p c w); EvSetEditor (length (editors w))]
      ++ expose_log (next_editor p c w) (onMount (r_base p)) (cameraOptions (r_base p))))
  ∨ (∃ err, ctor (editor_args_of p c (current_options p)) = Some err
     ∧ mount ctor fb p c w =
       (Failed err, w, [EvNewThrow (editor_args_of p c (current_options p)) err])).
Proof.
  destruct (ctor (editor_args_of p c (current_options p))) as [err|] eqn:Hc.
  - right. exists err. split; [done|]. by apply mount_throw.
  - left. split; [done|]. by apply mount_ok.
Qed.

Lemma mount_settled p c w :
  settled fb (mount ctor fb p c w).1.1 (mount ctor fb p c w).1.2.
Proof.
  destruct (mount_cases p c w) as [[_ ->]|(err & _ & ->)]; cbn [fst snd].
  - constructor; [|by rewrite length_expose, length_alloc].
    do 2 (split; [done|]). rewrite getCrashingError_expose.
    by apply getCrashingError_alloc_new.
  - constructor.
Qed.

Lemma run_snoc acts a s w :
  run ctor fb (acts ++ [a]) s w =
  let '(s1, w1, t1) := run ctor fb acts s w in
  let '(s2, w2, t2) := step ctor fb a s1 w1 in
  (s2, w2, t1 ++ t2).
Proof.
  revert s w. induction acts as [|a' acts IH]; intros s w; cbn.
  - destruct (step ctor fb a s w) as [[s2 w2] t2]. by rewrite app_nil_r.
  - destruct (step ctor fb a' s w) as [[s1 w1] t1]. rewrite IH.
    destruct (run ctor fb acts s1 w1) as [[s2 w2] t2].
    destruct (step ctor fb a s2 w2) as [[s3 w3] t3]. by rewrite app_assoc.
Qed.

Lemma session_snoc p c acts a w0 :
  session ctor fb p c (acts ++ [a]) w0 =
  let '(s1, w1, t1) := session ctor fb p c acts w0 in
  let '(s2, w2, t2) := step ctor fb a s1 w1 in
  (s2, w2, t1 ++ t2).
Proof.
  unfold session. destruct (mount ctor fb p c w0) as [[s1 w1] t1].
  rewrite run_snoc.
  destruct (run ctor fb acts s1 w1) as [[s2 w2] t2].
  destruct (step ctor fb a s2 w2) as [[s3 w3] t3]. by rewrite app_assoc.
Qed.

(** Induction over sessions: what holds after the mount and is kept by
    every step from a settled state holds after every session. *)
Lemma session_ind_acts (I : list Action → Status → World → list Event → Prop) p c w0 :
  (∀ s w t, mount ctor fb p c w0 = (s, w, t) → I [] s w t) →
  (∀ acts s w tr a s' w' t,
      settled fb s w → I acts s w tr → step ctor fb a s w = (s', w', t) →
      I (acts ++ [a]) s' w' (tr ++ t)) →
  ∀ acts s w tr,
    session ctor fb p c acts w0 = (s, w, tr) → settled fb s w ∧ I acts s w tr.
Proof.
  intros Hmount Hstep acts. induction acts as [|a acts IH] using rev_ind;
    intros s w tr Hs.
  - unfold session in Hs. cbn in Hs.
    pose proof (mount_settled p c w0) as Hset.
    destruct (mount ctor fb p c w0) as [[s1 w1] t1] eqn:Hm.
    rewrite app_nil_r in Hs. injection Hs as <- <- <-. split; [done|]. by apply Hmount.
  - rewrite session_snoc in Hs.
    destruct (session ctor fb p c acts w0) as [[s1 w1] t1].
    destruct (IH _ _ _ eq_refl) as [Hset HI].
    pose proof (step_settled a s1 w1 Hset) as Hset'.
    destruct (step ctor fb a s1 w1) as [[s2 w2] t2] eqn:Hst.
    injection Hs as <- <- <-. split; [done|].
    exact (Hstep _ _ _ _ _ _ _ _ Hset HI Hst).
Qed.

Lemma session_ind (I : Status → World → list Event → Prop) p c w0 :
  (∀ s w t, mount ctor fb p c w0 = (s, w, t) → I s w t) →
  (∀ s w tr a s' w' t,
      settled fb s w → I s w tr → step ctor fb a s w = (s', w', t) →
      I s' w' (tr ++ t)) →
  ∀ acts s w tr,
    session ctor fb p c acts w0 = (s, w, tr) → settled fb s w ∧ I s w tr.
Proof.
  intros Hmount Hstep.
  apply (session_ind_acts (λ _, I)); [done|]. intros ?. apply Hstep.
Qed.

Lemma step_balanced a s w s' w' t :
  settled fb s w → step ctor fb a s w = (s', w', t) → balanced s w s' w' t.
Proof.
  intros Hset Hst.
  destruct Hset as [p c e lay caught w Hlay Hid|w|err w].
  2,3: (edestruct step_dead as (w2 & Heq & _ & Hl); [|rewrite Heq in Hst];
        [done|injection Hst as <- <- <-;
         repeat split; cbn; rewrite ?app_nil_r; try done; rewrite Hl; lia]).
  pose proof (step_cases p c e lay caught w a Hlay Hid) as Hc. rewrite Hst in Hc.
  unfold balanced.
  assert (lay = None → is_Some caught) as Hcaught.
  { intros ->. by destruct Hlay. }
  assert (∀ l, lay = Some l → onMount_editor l = e ∧ caught = None) as Hl.
  { intros l ->. by destruct Hlay as (? & ? & _). }
  clear Hlay.
  inversion Hc; subst; clear Hc;
    cbn [pending_of pending_ids layout stable_fiber];
    repeat (rewrite length_camera_world || rewrite length_rerender
            || rewrite length_alloc || rewrite length_dispose
            || rewrite length_latch).
  - repeat split; blocks; cbn; rewrite ?app_nil_r; try done; lia.
  - destruct lay as [l|].
    + destruct (Hl l eq_refl) as [_ ->].
      repeat split; blocks; cbn; rewrite ?app_nil_r; try done; lia.
    + destruct (Hcaught eq_refl) as [first ->].
      repeat split; blocks; cbn; rewrite ?app_nil_r; try done; lia.
  - repeat split; blocks; cbn; rewrite ?app_nil_r; try done; lia.
  - repeat split; blocks; cbn; rewrite ?app_nil_r; try done; lia.
  - repeat split; blocks; cbn; rewrite ?app_nil_r; try done; lia.
  - repeat split; blocks; cbn; rewrite ?app_nil_r; try done; lia.
  - repeat split; blocks; cbn; rewrite ?app_nil_r; try done; lia.
Qed.

Lemma mount_balanced p c w0 s w t :
  mount ctor fb p c w0 = (s, w, t) →
  omap called_of t ++ pending_of s = omap registered_of t
  ∧ omap torn_of t ++ pending_ids s = omap begun_of t
  ∧ editor_id <$> omap built_of t = seq (length (editors w0)) (length (omap built_of t))
  ∧ length (editors w) = length (editors w0) + length (omap built_of t).
Proof.
  intros Hm.
  destruct (mount_cases p c w0) as [[_ Heq]|(err & _ & Heq)];
    rewrite Heq in Hm; injection Hm as <- <- <-;
    cbn [pending_of pending_ids layout stable_fiber];
    rewrite ?length_expose, ?length_alloc.
  - repeat split; blocks; cbn; rewrite ?app_nil_r; try done; lia.
  - repeat split; cbn; try done; lia.
Qed.

Lemma session_ledger p c acts w0 s w tr :
  session ctor fb p c acts w0 = (s, w, tr) →
  ledger (length (editors w0)) s w tr.
Proof.
  intros Hs.
  eapply (session_ind (ledger (length (editors w0)))); [| |exact Hs].
  - intros s1 w1 t1 Hm. exact (mount_balanced _ _ _ _ _ _ Hm).
  - clear. intros s w tr a s' w' t Hset (H1 & H2 & H4 & H5) Hst.
    destruct (step_balanced _ _ _ _ _ _ Hset Hst) as (B1 & B2 & B4 & B5).
    unfold ledger. rewrite !omap_app, !fmap_app, !length_app.
    repeat split.
    + rewrite <- app_assoc, B1, app_assoc, H1. done.
    + rewrite <- app_assoc, B2, app_assoc, H2. done.
    + rewrite seq_app, <- H4, B4, H5. done.
    + lia.
Qed.

Lemma identity_key_deps p c p' c' :
  identity_key p c = identity_key p' c' ↔ editor_deps p c = editor_deps p' c'.
Proof.
  unfold identity_key, editor_deps. split; intros [=]; congruence.
Qed.

Lemma session_settled p c acts w0 s w tr :
  session ctor fb p c acts w0 = (s, w, tr) → settled fb s w.
Proof.
  intros Hs.
  by destruct (session_ind (λ _ _ _, True) p c w0 (λ _ _ _ _, I)
                 (λ _ _ _ _ _ _ _ _ _ _, I) acts s w tr Hs).
Qed.

Lemma settled_inv p c f w :
  settled fb (Mounted p c f) w →
  ∃ e lay caught, f = stable_fiber p c e (Some e) lay caught
           ∧ layout_ok fb w e lay caught ∧ S (editor_id e) = length (editors w).
Proof. inversion 1; subst. eauto 10. Qed.

Lemma cycle_same e old new :
  omap cycle_of (camera_update e old new) = [].
Proof. blocks; reflexivity. Qed.

Lemma cycle_new w e lay caught old new p' c' :
  omap cycle_of
    (([EvDispose (editor_id e); EvNew (next_editor p' c' w);
       EvSetEditor (length (editors w))]
      ++ camera_update e old new)
     ++ from_option teardown_block [] lay
     ++ rerender_log caught (next_editor p' c' w) (onMount (r_base p'))
          (cameraOptions (r_base p')))
  = [inl (editor_id e); inr (editor_args_of p' c' (current_options p'))].
Proof. blocks; reflexivity. Qed.

Lemma cycle_throw e lay args err :
  omap cycle_of
    ([EvDispose (editor_id e); EvNewThrow args err]
     ++ from_option teardown_block [] lay)
  = [inl (editor_id e); inr args].
Proof. blocks; reflexivity. Qed.

Lemma update_cycle p c e lay caught w p' c' :
  layout_ok fb w e lay caught →
  S (editor_id e) = length (editors w) →
  (identity_key p' c' = identity_key p c →
   omap cycle_of (update ctor fb p' c' (stable_fiber p c e (Some e) lay caught) w).2 = [])
  ∧ (identity_key p' c' ≠ identity_key p c →
     omap cycle_of (update ctor fb p' c' (stable_fiber p c e (Some e) lay caught) w).2 =
     [inl (editor_id e); inr (editor_args_of p' c' (current_options p'))])
  ∧ (∀ f', (update ctor fb p' c' (stable_fiber p c e (Some e) lay caught) w).1.1
           = Mounted p' c' f' →
           editorOptionsRef f' = current_options p').
Proof.
  intros Hlay Hid.
  destruct (decide (editor_deps p' c' = editor_deps p c)) as [Hd|Hd].
  - rewrite update_same by done. cbn [fst snd].
    split; [intros; apply cycle_same|].
    split; [intros Hk; by apply identity_key_deps in Hd|].
    by intros f' [= <-].
  - assert (editor_deps p c ≠ editor_deps p' c') as Hd' by congruence.
    split; [intros Hk; by apply identity_key_deps in Hk|].
    destruct (ctor (editor_args_of p' c' (current_options p'))) as [err|] eqn:Hc.
    + erewrite update_throw by done. cbn [fst snd].
      split; [intros; apply cycle_throw|done].
    + rewrite update_new by done. cbn [fst snd].
      split; [intros; apply cycle_new|]. by intros f' [= <-].
Qed.

(** C1.  Recreation is keyed by the identity tuple.  In any state a session
    reaches with the component mounted, a render whose identity tuple
    [(store, container, shapeUtils, bindingUtils, tools, user, options,
    licenseKey)] is the one of the last render (so one that changes only
    [autoFocus], [inferDarkMode] or [initialState]) calls neither the
    constructor nor [dispose]; a render whose identity tuple differs disposes
    the exposed instance and then calls the constructor once, with the
    construction options of that very render; and after either of them the
    holder [editorOptionsRef] has the options of that render. *)
Theorem recreation_keyed_by_identity p0 c0 acts w0 p c f w tr p' c' :
  session ctor fb p0 c0 acts w0 = (Mounted p c f, w, tr) →
  (identity_key p' c' = identity_key p c →
   omap cycle_of (update ctor fb p' c' f w).2 = [])
  ∧ (identity_key p' c' ≠ identity_key p c →
     ∃ e, editor f = Some e
          ∧ omap cycle_of (update ctor fb p' c' f w).2 =
            [inl (editor_id e);
             inr (editor_args_of p' c' (current_options p'))])
  ∧ (∀ f', (update ctor fb p' c' f w).1.1 = Mounted p' c' f' →
           editorOptionsRef f' = current_options p').
Proof.
  intros Hs. apply session_settled in Hs.
  destruct (settled_inv _ _ _ _ Hs) as (e & lay & caught & -> & Hlay & Hid).
  destruct (update_cycle p c e lay caught w p' c' Hlay Hid) as (H1 & H2 & H3).
  split; [done|]. split; [|done].
  intros Hk. exists e. split; [done|]. by apply H2.
Qed.

Lemma run_dead acts s w :
  (∀ p c f, s ≠ Mounted p c f) → (run ctor fb acts s w).1.1 = s.
Proof.
  intros Hs. revert w. induction acts as [|a acts IH]; intros w; [done|].
  cbn [run]. destruct (step_dead a s w Hs) as (w1 & -> & _).
  specialize (IH w1). by destruct (run ctor fb acts s w1) as [[s2 w2] t2].
Qed.

Lemma settled_stable_inv p c e lay caught w :
  settled fb (Mounted p c (stable_fiber p c e (Some e) lay caught)) w →
  layout_ok fb w e lay caught ∧ S (editor_id e) = length (editors w).
Proof.
  intros H. by inversion H; subst.
Qed.

Lemma run_life acts : ∀ p c e lay caught w p' c' f' w' tr,
  layout_ok fb w e lay caught → S (editor_id e) = length (editors w) →
  run ctor fb acts (Mounted p c (stable_fiber p c e (Some e) lay caught)) w
    = (Mounted p' c' f', w', tr) →
  omap life_of tr = cycles (editor_id e) (identity_changes (identity_key p c) acts)
  ∧ ∃ e' lay' caught', f' = stable_fiber p' c' e' (Some e') lay' caught'
      ∧ layout_ok fb w' e' lay' caught' ∧ S (editor_id e') = length (editors w')
      ∧ editor_id e' = editor_id e + identity_changes (identity_key p c) acts.
Proof.
  induction acts as [|a acts IH];
    intros p c e lay caught w p' c' f' w' tr Hlay Hid Hrun.
  - cbn in Hrun. injection Hrun as <- <- <- <- <-.
    split; [done|]. exists e, lay, caught. repeat split; try done; cbn; lia.
  - cbn [run] in Hrun.
    pose proof (step_settled a _ _ (settled_mounted fb p c e lay caught w Hlay Hid))
      as Hset.
    pose proof (step_cases p c e lay caught w a Hlay Hid) as Hc.
    destruct (step ctor fb a (Mounted p c (stable_fiber p c e (Some e) lay caught)) w)
      as [[s1 w1] t1].
    destruct (run ctor fb acts s1 w1) as [[s2 w2] t2] eqn:Hrest.
    injection Hrun as -> <- <-. cbn [fst snd] in Hset.
    rewrite omap_app.
    inversion Hc; subst; clear Hc; cbn [identity_changes].
    + apply settled_stable_inv in Hset as [Hlay' Hid'].
      destruct (IH _ _ _ _ _ _ _ _ _ _ _ Hlay' Hid' Hrest)
        as (Hl & e' & lay' & caught' & Hf & ? & ? & He').
      rewrite bool_decide_eq_true_2 by (by apply identity_key_deps).
      split; [|by exists e', lay', caught'].
      rewrite Hl. replace (omap life_of _) with (@nil Life) by (blocks; reflexivity). done.
    + apply settled_stable_inv in Hset as [Hlay' Hid'].
      destruct (IH _ _ _ _ _ _ _ _ _ _ _ Hlay' Hid' Hrest)
        as (Hl & e' & lay' & caught' & Hf & ? & ? & He').
      rewrite bool_decide_eq_false_2
        by (intros Hk; apply identity_key_deps in Hk; congruence).
      cbn [next_editor editor_id] in *.
      split; [|exists e', lay', caught'; repeat split; try done; lia].
      rewrite Hl, <- Hid.
      replace (omap life_of _) with [Disposed (editor_id e); Constructed (S (editor_id e))].
      2:{ rewrite Hid. blocks; reflexivity. }
      done.
    + pose proof (run_dead acts (Failed err) (dispose_world e w) ltac:(done)) as Hd.
      rewrite Hrest in Hd. discriminate Hd.
    + apply settled_stable_inv in Hset as [Hlay' Hid'].
      destruct (IH _ _ _ _ _ _ _ _ _ _ _ Hlay' Hid' Hrest)
        as (Hl & e' & lay' & caught' & Hf & ? & ? & He').
      split; [|by exists e', lay', caught'].
      rewrite Hl. replace (omap life_of _) with (@nil Life) by (blocks; reflexivity). done.
    + pose proof (run_dead acts (Failed err)
                    (dispose_world e (latch_world (editor_id e) err w))
                    ltac:(done)) as Hd.
      rewrite Hrest in Hd. discriminate Hd.
    + apply settled_stable_inv in Hset as [Hlay' Hid'].
      destruct (IH _ _ _ _ _ _ _ _ _ _ _ Hlay' Hid' Hrest)
        as (Hl & e' & lay' & caught' & Hf & ? & ? & He').
      split; [|by exists e', lay', caught'].
      by rewrite Hl.
    + pose proof (run_dead acts Unmounted (dispose_world e w) ltac:(done)) as Hd.
      rewrite Hrest in Hd. discriminate Hd.
Qed.

Lemma cycles_counts n0 N :
  length (filter is_disposed (cycles n0 N)) = N
  ∧ length (filter is_constructed (cycles n0 N)) = N.
Proof.
  revert n0. induction N as [|N IH]; intros n0; [done|].
  change (cycles n0 (S N))
    with ([Disposed n0; Constructed (S n0)] ++ cycles (S n0) N).
  rewrite !filter_app, !length_app. destruct (IH (S n0)) as [-> ->]. done.
Qed.

Lemma session_mounted_inv p0 c0 acts w0 p c f w tr :
  session ctor fb p0 c0 acts w0 = (Mounted p c f, w, tr) →
  ctor (editor_args_of p0 c0 (current_options p0)) = None
  ∧ ∃ t2, tr = ([EvNew (next_editor p0 c0 w0); EvSetEditor (length (editors w0))]
                ++ expose_log (next_editor p0 c0 w0) (onMount (r_base p0))
                     (cameraOptions (r_base p0))) ++ t2
     ∧ run ctor fb acts
         (Mounted p0 c0
            (stable_fiber p0 c0 (next_editor p0 c0 w0) (Some (next_editor p0 c0 w0))
               (Some (mounted_layout (next_editor p0 c0 w0) (onMount (r_base p0))))
               None))
         (expose_world (next_editor p0 c0 w0) (cameraOptions (r_base p0))
            (alloc_world (editor_args_of p0 c0 (current_options p0)) w0))
       = (Mounted p c f, w, t2).
Proof.
  unfold session. intros Hs.
  destruct (mount_cases p0 c0 w0) as [[Hok Hm]|(err & Hthrow & Hm)];
    rewrite Hm in Hs.
  - split; [done|].
    destruct (run ctor fb acts _ _) as [[s2 w2] t2] eqn:Hrun.
    injection Hs as -> -> <-. by exists t2.
  - pose proof (run_dead acts (Failed err) w0 ltac:(done)) as Hd.
    destruct (run ctor fb acts (Failed err) w0) as [[s2 w2] t2].
    cbn in Hd. subst s2. discriminate Hs.
Qed.

(** C2.  Construct/dispose pairing.  A session that is still mounted after
    a run with [N] identity changes has logged, in this order, the
    construction of the first instance and then [N] times a disposal of
    instance [i] followed by the construction of instance [i + 1]: [N]
    disposals, [N + 1] constructions, none that failed, the [i]-th disposal
    before the [(i + 1)]-th construction; unmounting then disposes the last
    instance and nothing else, so that every construction has exactly one
    later disposal. *)
Theorem construct_dispose_pairing p0 c0 acts w0 p c f w tr :
  session ctor fb p0 c0 acts w0 = (Mounted p c f, w, tr) →
  omap life_of tr =
    Constructed (length (editors w0))
    :: flat_map (λ i, [Disposed i; Constructed (S i)])
         (seq (length (editors w0)) (identity_changes (identity_key p0 c0) acts))
  ∧ length (filter is_disposed (omap life_of tr))
    = identity_changes (identity_key p0 c0) acts
  ∧ length (filter is_constructed (omap life_of tr))
    = S (identity_changes (identity_key p0 c0) acts)
  ∧ omap life_of (step ctor fb ActUnmount (Mounted p c f) w).2 =
    [Disposed (length (editors w0) + identity_changes (identity_key p0 c0) acts)].
Proof.
  intros Hs.
  destruct (session_mounted_inv _ _ _ _ _ _ _ _ _ Hs) as (Hok & t2 & -> & Hrun).
  apply run_life in Hrun as (Hl & e' & lay' & caught' & -> & Hlay' & Hid' & He').
  2:{ do 2 (split; [done|]). rewrite getCrashingError_expose.
      by apply getCrashingError_alloc_new. }
  2:{ by rewrite length_expose, length_alloc. }
  cbn [next_editor editor_id] in *.
  assert (omap life_of
            (([EvNew (next_editor p0 c0 w0); EvSetEditor (length (editors w0))]
              ++ expose_log (next_editor p0 c0 w0) (onMount (r_base p0))
                   (cameraOptions (r_base p0))) ++ t2)
          = Constructed (length (editors w0))
            :: cycles (length (editors w0))
                 (identity_changes (identity_key p0 c0) acts)) as Htr.
  { rewrite omap_app, Hl.
    replace (omap life_of _) with [Constructed (length (editors w0))]
      by (blocks; reflexivity).
    done. }
  rewrite Htr.
  destruct (cycles_counts (length (editors w0))
              (identity_changes (identity_key p0 c0) acts)) as [Hd Hc].
  change (Constructed ?n :: cycles ?a ?b) with ([Constructed n] ++ cycles a b).
  rewrite !filter_app, !length_app, Hd, Hc.
  repeat split; try done.
  pose proof (step_cases p c e' lay' caught' w ActUnmount Hlay' Hid') as Hst.
  destruct (step ctor fb ActUnmount _ w) as [[s1 w1] t1].
  inversion Hst; subst. rewrite <- He'. blocks; reflexivity.
Qed.

Lemma next_editor_successor p c e w :
  S (editor_id e) = length (editors w) → next_editor p c w = successor e p c.
Proof. intros H. unfold next_editor, successor. by rewrite H. Qed.

Lemma sequencing_mount_block e h :
  omap sequencing_of (mount_block e h) = mount_block e h.
Proof. by destruct h. Qed.

Lemma sequencing_teardown lay :
  omap sequencing_of (from_option teardown_block [] lay) = [].
Proof. blocks; reflexivity. Qed.

Lemma sequencing_camera e old new :
  omap sequencing_of (camera_update e old new) = [].
Proof. blocks; reflexivity. Qed.

(** What a step adds to mount sequencing: one block for the instance it
    builds, unless the boundary has caught a crash. *)
Lemma step_sequencing p c e lay caught w a s' w' t :
  layout_ok fb w e lay caught →
  S (editor_id e) = length (editors w) →
  step ctor fb a (Mounted p c (stable_fiber p c e (Some e) lay caught)) w
  = (s', w', t) →
  omap begun_of t = match caught with
                    | None => editor_id <$> omap built_of t
                    | Some _ => []
                    end
  ∧ (uncaught s' → caught = None)
  ∧ (is_crash a = false → caught = None → ∀ p1 c1 f1, s' = Mounted p1 c1 f1 →
     boundary f1 = None).
Proof.
  intros Hlay Hid Hst.
  pose proof (step_cases p c e lay caught w a Hlay Hid) as Hc. rewrite Hst in Hc.
  inversion Hc; subst; clear Hc; cbn [uncaught boundary stable_fiber is_crash];
    (split; [blocks; reflexivity|]); (split; [try done|]);
    try done; try (by intros ? ? ? ? ? [=]).
  - by intros _ -> ? ? ? [= <- <- <-].
  - by intros _ -> ? ? ? [= <- <- <-].
Qed.

Lemma session_sequenced p0 c0 acts w0 s w tr :
  session ctor fb p0 c0 acts w0 = (s, w, tr) →
  sequenced s tr
  ∧ (Forall (λ a, is_crash a = false) acts →
     omap begun_of tr = editor_id <$> omap built_of tr
     ∧ ∀ p c f, s = Mounted p c f → boundary f = None).
Proof.
  intros Hs.
  edestruct (session_ind_acts
               (λ acts s _ tr,
                  sequenced s tr
                  ∧ (Forall (λ a, is_crash a = false) acts →
                     omap begun_of tr = editor_id <$> omap built_of tr
                     ∧ ∀ p c f, s = Mounted p c f → boundary f = None))
               p0 c0 w0) as [_ H]; [| |exact Hs|exact H].
  - intros s1 w1 t1 Hm.
    destruct (mount_cases p0 c0 w0) as [[_ Heq]|(err & _ & Heq)];
      rewrite Heq in Hm; injection Hm as <- <- <-.
    + assert (omap begun_of
                ([EvNew (next_editor p0 c0 w0); EvSetEditor (length (editors w0))]
                 ++ expose_log (next_editor p0 c0 w0) (onMount (r_base p0))
                      (cameraOptions (r_base p0)))
              = editor_id <$>
                  omap built_of
                    ([EvNew (next_editor p0 c0 w0); EvSetEditor (length (editors w0))]
                     ++ expose_log (next_editor p0 c0 w0) (onMount (r_base p0))
                          (cameraOptions (r_base p0)))) as Heq'
        by (blocks; reflexivity).
      cbv beta. unfold sequenced. cbn [app] in Heq'. rewrite Heq'.
      split; [by split|].
      intros _. split; [done|]. by intros ? ? ? [= <- <- <-].
    + split; [split; [done|by intros []]|]. by intros _.
  - clear. intros acts s w tr a s' w' t Hset [[Hpre Heq] Hfree] Hst.
    destruct Hset as [p c e lay caught w Hlay Hid|w|err w].
    2,3: (edestruct step_dead as (w2 & Heq' & _); [|rewrite Heq' in Hst];
          [done|injection Hst as <- <- <-; rewrite app_nil_r;
           split; [by split|]; intros [Hall _]%Forall_app;
           split; [by apply Hfree|done]]).
    destruct (step_sequencing _ _ _ _ _ _ _ _ _ _ Hlay Hid Hst) as (Hb & Hu & Hk).
    cbv beta. unfold sequenced.
    rewrite !omap_app, fmap_app. cbn [uncaught boundary stable_fiber] in Heq.
    split; [split|].
    + destruct caught as [first|].
      * rewrite Hb, app_nil_r. by apply prefix_app_r.
      * rewrite Hb, (Heq eq_refl). done.
    + intros Hun. specialize (Hu Hun). subst caught.
      by rewrite Hb, (Heq eq_refl).
    + intros [Hall Ha]%Forall_app. rewrite Forall_singleton in Ha.
      destruct (Hfree Hall) as [Hfeq Hfb].
      specialize (Hfb _ _ _ eq_refl). cbn in Hfb. subst caught.
      split; [by rewrite Hb, Hfeq|]. exact (Hk Ha eq_refl).
Qed.

(** C4, amended.  Mount sequencing against construction.  Over any session
    mount sequencing begins for no instance twice, and only for instances
    built, in the order they were built; as long as the boundary of the
    component has caught nothing, so in every session without a crash, it
    has run for every instance built.  Mounting runs it for the first
    instance, with the [onMount] of that render.  From any state a session
    reaches with the component mounted, a render that keeps the identity
    tuple logs no event of mount sequencing; one that changes it logs
    exactly one block for the instance it builds, with the [onMount] of that
    very render, unless the constructor throws or the boundary has caught a
    crash, and then it logs none; a crash and an unmount log none.  A block
    ([mount_block]) enters [editor.run] with [history: 'ignore'], calls the
    mount hook of the store and then the caller's [onMount] if there is
    one, emits ['mount'], leaves [editor.run] and then sets
    [window.tldrawReady]. *)
Theorem mount_sequencing_once p0 c0 acts w0 s w tr :
  session ctor fb p0 c0 acts w0 = (s, w, tr) →
  NoDup (omap begun_of tr)
  ∧ omap begun_of tr `prefix_of` (editor_id <$> omap built_of tr)
  ∧ (uncaught s → omap begun_of tr = editor_id <$> omap built_of tr)
  ∧ (Forall (λ a, is_crash a = false) acts →
     omap begun_of tr = editor_id <$> omap built_of tr)
  ∧ omap sequencing_of (mount ctor fb p0 c0 w0).2
    = match ctor (editor_args_of p0 c0 (current_options p0)) with
      | None => mount_block (next_editor p0 c0 w0) (onMount (r_base p0))
      | Some _ => []
      end
  ∧ ∀ p c f,
      s = Mounted p c f →
      (∀ p' c',
         omap sequencing_of (update ctor fb p' c' f w).2
         = if decide (identity_key p' c' = identity_key p c) then []
           else match ctor (editor_args_of p' c' (current_options p')),
                      boundary f, editor f with
                | None, None, Some e =>
                    mount_block (successor e p' c') (onMount (r_base p'))
                | _, _, _ => []
                end)
      ∧ (∀ e err, omap sequencing_of (step ctor fb (ActCrash e err) s w).2 = [])
      ∧ omap sequencing_of (step ctor fb ActUnmount s w).2 = [].
Proof.
  intros Hs.
  destruct (session_sequenced _ _ _ _ _ _ _ Hs) as [[Hpre Hun] Hfree].
  destruct (session_ledger _ _ _ _ _ _ _ Hs) as (_ & _ & Hids & _).
  split; [|split; [done|split; [done|split; [by intros H; apply Hfree|split]]]].
  - destruct Hpre as [k Hk]. rewrite Hids in Hk.
    pose proof (NoDup_seq (length (editors w0)) (length (omap built_of tr))) as Hnd.
    rewrite Hk in Hnd. by apply NoDup_app in Hnd as [? _].
  - destruct (mount_cases p0 c0 w0) as [[-> ->]|(err & -> & ->)]; cbn [snd];
      [|done].
    blocks; reflexivity.
  - intros p c f ->. apply session_settled in Hs.
    destruct (settled_inv _ _ _ _ Hs) as (e & lay & caught & -> & Hlay & Hid).
    split; [|split].
    + intros p' c'. cbn [boundary editor stable_fiber]. case_decide as Hk.
      * rewrite update_same; [apply sequencing_camera|done|].
        by apply identity_key_deps.
      * assert (editor_deps p c ≠ editor_deps p' c') as Hd.
        { intros Hd. apply Hk. symmetry. by apply identity_key_deps. }
        destruct (ctor (editor_args_of p' c' (current_options p')))
          as [err|] eqn:Hc.
        -- erewrite update_throw by done. cbn [snd]. blocks; reflexivity.
        -- rewrite update_new by done. cbn [snd].
           rewrite <- (next_editor_successor p' c' e w Hid).
           blocks; reflexivity.
    + intros e0 err.
      pose proof (step_cases p c e lay caught w (ActCrash e0 err) Hlay Hid) as Hc.
      destruct (step ctor fb (ActCrash e0 err) _ w) as [[s1 w1] t1].
      inversion Hc; subst; cbn [snd]; blocks; reflexivity.
    + pose proof (step_cases p c e lay caught w ActUnmount Hlay Hid) as Hc.
      destruct (step ctor fb ActUnmount _ w) as [[s1 w1] t1].
      inversion Hc; subst; cbn [snd]; blocks; reflexivity.
Qed.

(** C6, amended.  The teardown functions returned by the mount hook of the
    store and by the caller's [onMount] are collected, and they are called in
    the order of their registration, the one of the store first, each
    exactly once: in the log of any session the teardown functions called,
    followed by those a mounted [Layout] still owes, are the teardown
    functions registered, in the same order; the instances whose cleanup
    ran, followed by the one that still owes it, are the instances for which
    mount sequencing began, which are pairwise distinct; so once the
    component is unmounted or has failed every teardown function registered
    has been called once. *)
Theorem teardown_in_registration_order p0 c0 acts w0 s w tr :
  session ctor fb p0 c0 acts w0 = (s, w, tr) →
  omap called_of tr ++ pending_of s = omap registered_of tr
  ∧ omap torn_of tr ++ pending_ids s = omap begun_of tr
  ∧ NoDup (omap begun_of tr)
  ∧ ((∀ p c f, s ≠ Mounted p c f) →
     omap called_of tr = omap registered_of tr
     ∧ omap torn_of tr = omap begun_of tr)
  ∧ (∀ e h w1,
       omap registered_of (Layout_handler h e w1).2 =
       pair (editor_id e) <$>
         (option_list (onEditorMount_teardown (a_store (editor_args e)))
          ++ option_list (h ≫= handler_teardown))
       ∧ omap called_of
           (Layout_teardown e
              (onEditorMount_teardown (a_store (editor_args e)),
               h ≫= handler_teardown) w1).2 =
         pair (editor_id e) <$>
           (option_list (onEditorMount_teardown (a_store (editor_args e)))
            ++ option_list (h ≫= handler_teardown))).
Proof.
  intros Hs.
  destruct (session_ledger _ _ _ _ _ _ _ Hs) as (Hcall & Htorn & Hids & _).
  destruct (session_sequenced _ _ _ _ _ _ _ Hs) as [[Hpre _] _].
  split; [done|]. split; [done|]. split; [|split].
  - destruct Hpre as [k Hk]. rewrite Hids in Hk.
    pose proof (NoDup_seq (length (editors w0)) (length (omap built_of tr))) as Hnd.
    rewrite Hk in Hnd. by apply NoDup_app in Hnd as [? _].
  - intros Hdead. destruct s as [p c f| |]; [by destruct (Hdead p c f)| |];
      cbn in Hcall, Htorn; rewrite app_nil_r in Hcall, Htorn; done.
  - intros e h w1. split.
    + destruct h as [[? [?|]]|]; cbn;
        by destruct (onEditorMount_teardown (a_store (editor_args e))).
    + destruct h as [[? [?|]]|]; cbn;
        by destruct (onEditorMount_teardown (a_store (editor_args e))).
Qed.

Lemma crash_allocated w e err :
  Editor_getCrashingError w e = Some err → editor_id e < length (editors w).
Proof.
  unfold Editor_getCrashingError. intros H.
  destruct (editors w !! editor_id e) as [s|] eqn:Hl; [|done].
  by eapply lookup_lt_Some.
Qed.

Lemma step_keeps_crash a s w e err :
  settled fb s w →
  Editor_getCrashingError w e = Some err →
  Editor_getCrashingError (step ctor fb a s w).1.2 e = Some err.
Proof.
  intros Hset Hc. pose proof (crash_allocated _ _ _ Hc) as Hlt.
  destruct Hset as [p c e0 lay caught w Hlay Hid|w|err0 w].
  2,3: (edestruct step_dead as (w2 & -> & Hk & _); [done|by apply Hk]).
  destruct (step_cases p c e0 lay caught w a Hlay Hid); cbn [fst snd].
  - by rewrite getCrashingError_camera.
  - rewrite getCrashingError_rerender, getCrashingError_camera,
      getCrashingError_alloc_old, getCrashingError_dispose;
      [done|by rewrite length_dispose].
  - by rewrite getCrashingError_dispose.
  - by apply getCrashingError_latch_keeps.
  - rewrite getCrashingError_dispose. by apply getCrashingError_latch_keeps.
  - by apply getCrashingError_latch_keeps.
  - by rewrite getCrashingError_dispose.
Qed.

Lemma run_keeps_crash acts s w e err :
  settled fb s w →
  Editor_getCrashingError w e = Some err →
  Editor_getCrashingError (run ctor fb acts s w).1.2 e = Some err.
Proof.
  revert s w. induction acts as [|a acts IH]; intros s w Hset Hc; [done|].
  cbn [run].
  pose proof (step_settled a s w Hset) as Hset'.
  pose proof (step_keeps_crash a s w e err Hset Hc) as Hc'.
  destruct (step ctor fb a s w) as [[s1 w1] t1]. cbn [fst snd] in *.
  specialize (IH s1 w1 Hset' Hc').
  by destruct (run ctor fb acts s1 w1) as [[s2 w2] t2].
Qed.

Lemma run_same_instance acts : ∀ p c e lay caught w err,
  layout_ok fb w e lay caught → S (editor_id e) = length (editors w) →
  Editor_getCrashingError w e = Some err →
  Forall (λ a, is_render_with (identity_key p c) a) acts →
  ∃ p' c' lay' caught',
    (run ctor fb acts (Mounted p c (stable_fiber p c e (Some e) lay caught)) w).1.1
    = Mounted p' c' (stable_fiber p' c' e (Some e) lay' caught').
Proof.
  induction acts as [|a acts IH]; intros p c e lay caught w err Hlay Hid Hc Hall.
  - by exists p, c, lay, caught.
  - apply Forall_cons in Hall as [Ha Hall]. cbn [run].
    assert (lay = None) as Hnone.
    { destruct lay as [l|]; [|done]. destruct Hlay as (_ & _ & Hn). congruence. }
    pose proof (step_settled a _ _ (settled_mounted fb p c e lay caught w Hlay Hid))
      as Hset.
    pose proof (step_keeps_crash a _ w e err
                  (settled_mounted fb p c e lay caught w Hlay Hid) Hc) as Hc'.
    pose proof (step_cases p c e lay caught w a Hlay Hid) as Hst.
    destruct (step ctor fb a (Mounted p c (stable_fiber p c e (Some e) lay caught)) w)
      as [[s1 w1] t1]. cbn [fst snd] in *.
    inversion Hst; subst; clear Hst; cbn [is_render_with] in Ha; try done.
    + apply settled_stable_inv in Hset as [Hlay' Hid'].
      apply bool_decide_unpack in Ha.
      rewrite <- Ha in Hall.
      destruct (IH _ _ _ _ _ _ _ Hlay' Hid' Hc' Hall)
        as (p2 & c2 & lay2 & caught2 & Hr).
      exists p2, c2, lay2, caught2. by destruct (run ctor fb acts _ _) as [[? ?] ?].
    + apply bool_decide_unpack in Ha. apply identity_key_deps in Ha. congruence.
    + apply bool_decide_unpack in Ha. apply identity_key_deps in Ha. congruence.
    + apply settled_stable_inv in Hset as [Hlay' Hid'].
      destruct (IH _ _ _ _ _ _ _ Hlay' Hid' Hc' Hall)
        as (p2 & c2 & lay2 & caught2 & Hr).
      exists p2, c2, lay2, caught2. by destruct (run ctor fb acts _ _) as [[? ?] ?].
Qed.

(** C5.  The crash latch.  Once the accessor gives a crash value for the
    exposed instance, it gives that value after every further run of
    actions; and as long as the actions are crash notifications and renders
    that keep the identity tuple, the component stays mounted with the same
    instance and each of its renders, whatever the props, is the crash
    path, which throws the crash error. *)
Theorem crash_latch p0 c0 acts w0 p c f w tr e err :
  session ctor fb p0 c0 acts w0 = (Mounted p c f, w, tr) →
  editor f = Some e →
  getSnapshot w (editor f) = Some err →
  (∀ more,
     getSnapshot (run ctor fb more (Mounted p c f) w).1.2 (Some e) = Some err)
  ∧ (∀ more,
       Forall (λ a, is_render_with (identity_key p c) a) more →
       ∃ p' c' f',
         (run ctor fb more (Mounted p c f) w).1.1 = Mounted p' c' f'
         ∧ editor f' = Some e
         ∧ ∀ p'',
             TldrawEditorWithReadyStore p'' (editor f')
               (getSnapshot (run ctor fb more (Mounted p c f) w).1.2 (editor f'))
             = RenderCrash err)
  ∧ Crash err = inl err.
Proof.
  intros Hs He Hc. apply session_settled in Hs.
  destruct (settled_inv _ _ _ _ Hs) as (e0 & lay & caught & -> & Hlay & Hid).
  cbn in He. injection He as ->. cbn in Hc.
  split; [|split; [|done]].
  - intros more. cbn. by apply run_keeps_crash.
  - intros more Hall.
    destruct (run_same_instance more p c e lay caught w err Hlay Hid Hc Hall)
      as (p' & c' & lay' & caught' & Hr).
    exists p', c', (stable_fiber p' c' e (Some e) lay' caught').
    split; [done|]. split; [done|]. intros p''. cbn.
    by rewrite (run_keeps_crash more _ w e err Hs Hc).
Qed.

Lemma projections_same e old new :
  omap life_of (camera_update e old new) = []
  ∧ omap camera_of (camera_update e old new)
    = if bool_decide (old = new) then []
      else from_option (λ cam, [(editor_id e, cam)]) [] new.
Proof. split; blocks; reflexivity. Qed.

(** C7, amended.  Live camera options.  In any state a session reaches
    with the component mounted, a render that keeps the identity tuple and
    changes [cameraOptions] calls [setCameraOptions] on the exposed instance
    with the new value when the new value is defined, makes no such call when
    it is undefined, and in both cases neither constructs nor disposes an
    instance. *)
Theorem camera_options_live p0 c0 acts w0 p c f w tr p' c' :
  session ctor fb p0 c0 acts w0 = (Mounted p c f, w, tr) →
  identity_key p' c' = identity_key p c →
  cameraOptions (r_base p') ≠ cameraOptions (r_base p) →
  ∃ e, editor f = Some e
       ∧ omap camera_of (update ctor fb p' c' f w).2 =
         from_option (λ cam, [(editor_id e, cam)]) [] (cameraOptions (r_base p'))
       ∧ omap life_of (update ctor fb p' c' f w).2 = [].
Proof.
  intros Hs Hk Hcam. apply session_settled in Hs.
  destruct (settled_inv _ _ _ _ Hs) as (e & lay & caught & -> & Hlay & Hid).
  exists e. split; [done|].
  rewrite update_same; [|done|by apply identity_key_deps]. cbn [snd].
  destruct (projections_same e (cameraOptions (r_base p))
              (cameraOptions (r_base p'))) as [-> ->].
  by rewrite bool_decide_eq_false_2.
Qed.

Lemma projections_throw e lay args err :
  omap exposed_of
    ([EvDispose (editor_id e); EvNewThrow args err]
     ++ from_option teardown_block [] lay) = []
  ∧ omap life_of
      ([EvDispose (editor_id e); EvNewThrow args err]
       ++ from_option teardown_block [] lay)
    = [Disposed (editor_id e); ConstructFailed].
Proof. split; blocks; reflexivity. Qed.

(** C8.  Construction failure is atomic.  When a render changes the
    identity tuple and the constructor throws [err], the commit fails with
    exactly [err], [setEditor] is never called, the log shows the disposal of
    the exposed instance followed by the failed construction, no instance
    has been added to the world and the previously exposed one is disposed;
    and when the constructor throws at mount, the mount fails with [err],
    the world is untouched and the failed call is all that is logged. *)
Theorem construction_failure_atomic p0 c0 acts w0 p c f w tr p' c' err :
  session ctor fb p0 c0 acts w0 = (Mounted p c f, w, tr) →
  identity_key p' c' ≠ identity_key p c →
  ctor (editor_args_of p' c' (current_options p')) = Some err →
  (∃ e, editor f = Some e
        ∧ (update ctor fb p' c' f w).1.1 = Failed err
        ∧ omap exposed_of (update ctor fb p' c' f w).2 = []
        ∧ omap life_of (update ctor fb p' c' f w).2 =
          [Disposed (editor_id e); ConstructFailed]
        ∧ length (editors (update ctor fb p' c' f w).1.2) = length (editors w)
        ∧ disposed <$> editors (update ctor fb p' c' f w).1.2 !! editor_id e
          = Some true)
  ∧ (∀ w1, mount ctor fb p' c' w1 =
           (Failed err, w1,
            [EvNewThrow (editor_args_of p' c' (current_options p')) err])).
Proof.
  intros Hs Hk Hthrow. apply session_settled in Hs.
  destruct (settled_inv _ _ _ _ Hs) as (e & lay & caught & -> & Hlay & Hid).
  split; [|intros; by apply mount_throw].
  exists e. split; [done|].
  assert (editor_deps p c ≠ editor_deps p' c') as Hd.
  { intros Hd. apply Hk. symmetry. by apply identity_key_deps. }
  erewrite update_throw by done. cbn [fst snd].
  destruct (projections_throw e lay
              (editor_args_of p' c' (current_options p')) err) as [-> ->].
  repeat split; try done.
  - apply length_dispose.
  - unfold dispose_world. cbn. rewrite list_lookup_alter_eq.
    destruct (lookup_lt_is_Some_2 (editors w) (editor_id e)) as [st ->]; [lia|done].
Qed.

(** C10.  The default of [autoFocus].  Whenever a render comes with
    [autoFocus] undefined, every constructor call of its commit, on an
    update as well as at mount, has [autoFocus] equal to [true]. *)
Theorem autoFocus_defaults_to_true p0 c0 acts w0 p c f w tr p' c' args :
  session ctor fb p0 c0 acts w0 = (Mounted p c f, w, tr) →
  autoFocus (r_base p') = None →
  (inr args ∈ omap cycle_of (update ctor fb p' c' f w).2 → a_autoFocus args = true)
  ∧ (∀ w1, inr args ∈ omap cycle_of (mount ctor fb p' c' w1).2 →
           a_autoFocus args = true).
Proof.
  intros Hs Hauto. apply session_settled in Hs.
  destruct (settled_inv _ _ _ _ Hs) as (e & lay & caught & -> & Hlay & Hid).
  assert (a_autoFocus (editor_args_of p' c' (current_options p')) = true) as Htrue.
  { cbn. by rewrite Hauto. }
  split.
  - destruct (update_cycle p c e lay caught w p' c' Hlay Hid) as (H1 & H2 & _).
    destruct (decide (identity_key p' c' = identity_key p c)) as [Hk|Hk].
    + rewrite (H1 Hk). by intros ?%elem_of_nil.
    + rewrite (H2 Hk).
      intros Hin. apply elem_of_cons in Hin as [?|Hin]; [done|].
      apply list_elem_of_singleton in Hin. by simplify_eq.
  - intros w1.
    destruct (mount_cases p' c' w1) as [[_ ->]|(err & _ & ->)]; cbn [snd].
    + replace (omap cycle_of _)
        with [@inr nat _ (editor_args_of p' c' (current_options p'))]
        by (blocks; reflexivity).
      intros Hin. apply list_elem_of_singleton in Hin. by simplify_eq.
    + cbn. intros Hin. apply list_elem_of_singleton in Hin. by simplify_eq.
Qed.

Lemma theme_effect_eq container user w :
  theme_effect container user w = (Ok (), theme_world container user w, []).
Proof.
  unfold theme_effect, theme_world, bind, get_world.
  by destruct (bool_decide _).
Qed.

Lemma try_ok {A} (m : M A) w a w1 t1 :
  m w = (Ok a, w1, t1) → try m w = (Ok (inr a), w1, t1).
Proof. intros H. unfold try. by rewrite H. Qed.

Lemma try_thrown {A} (m : M A) w err w1 t1 :
  m w = (Thrown err, w1, t1) → try m w = (Ok (inl err), w1, t1).
Proof. intros H. unfold try. by rewrite H. Qed.

Lemma construct_unmount f w : omap construct_of (unmount f w).2 = [].
Proof.
  unfold unmount.
  destruct (editorEffect_destroy f) as [e|]; cbn [from_option].
  - erewrite bind_ok by apply Editor_dispose_eq. rewrite Layout_delete_eq.
    cbn [snd]. destruct (layout f); blocks; reflexivity.
  - erewrite bind_ok by apply ret_eq. rewrite Layout_delete_eq.
    cbn [snd]. destruct (layout f); blocks; reflexivity.
Qed.

Lemma unmount_ok f w : ∃ w', ∃ t, unmount f w = (Ok (), w', t).
Proof.
  unfold unmount.
  destruct (editorEffect_destroy f) as [e|]; cbn [from_option].
  - erewrite bind_ok by apply Editor_dispose_eq. rewrite Layout_delete_eq. eauto.
  - erewrite bind_ok by apply ret_eq. rewrite Layout_delete_eq. eauto.
Qed.

Lemma loading_update_error err user base container ls g w :
  loading_update ctor fb
    {| l_store := StatusError err; l_user := user; l_base := base |}
    container ls g w
  = (LoadingFailed err,
     (from_option unmount (ret ()) (child g) w).1.2,
     (from_option unmount (ret ()) (child g) w).2).
Proof.
  unfold loading_update. cbn.
  by destruct (from_option unmount (ret ()) (child g) w) as [[r w1] t1].
Qed.

Lemma loading_update_loading user base container ls g w :
  loading_update ctor fb
    {| l_store := StatusLoading; l_user := user; l_base := base |}
    container ls g w
  = (LoadingMounted {| themeEffect_deps := Some (container, user); child := None |},
     (if changed (themeEffect_deps g) (container, user)
      then theme_world container user else id)
       (from_option unmount (ret ()) (child g) w).1.2,
     (from_option unmount (ret ()) (child g) w).2).
Proof.
  unfold loading_update. cbn [TldrawEditorWithLoadingStore l_store l_user].
  assert (∃ w1 t1, from_option unmount (ret ()) (child g) w = (Ok (), w1, t1))
    as (w1 & t1 & Hu).
  { destruct (child g); cbn [from_option]; [apply unmount_ok|by eexists _, _]. }
  rewrite Hu. cbn [fst snd].
  destruct ls.
  - erewrite bind_ok by exact Hu.
    destruct (changed _ _); cbn [when]; [rewrite theme_effect_eq|];
      cbn; by rewrite app_nil_r.
  - erewrite bind_ok by exact Hu.
    destruct (changed _ _); cbn [when]; [rewrite theme_effect_eq|];
      cbn; by rewrite app_nil_r.
Qed.

Lemma getCrashingError_theme container user w e :
  Editor_getCrashingError (theme_world container user w) e
  = Editor_getCrashingError w e.
Proof. unfold theme_world. by destruct (bool_decide _). Qed.

Lemma theme_when_eq g container user w :
  when (changed (themeEffect_deps g) (container, user))
    (theme_effect container user) w
  = (Ok (), after_theme g container user w, []).
Proof.
  unfold after_theme. destruct (changed _ _); cbn [when]; [apply theme_effect_eq|done].
Qed.

Lemma after_theme_expose g c u e cam w :
  after_theme g c u (expose_world e cam w)
  = expose_world e cam (after_theme g c u w).
Proof.
  unfold after_theme, theme_world, expose_world.
  destruct (changed _ _); [|done].
  destruct cam; cbn; by destruct (bool_decide _).
Qed.

Lemma getCrashingError_after_theme g c u w e :
  Editor_getCrashingError (after_theme g c u w) e = Editor_getCrashingError w e.
Proof.
  unfold after_theme. destruct (changed _ _); [|done].
  apply getCrashingError_theme.
Qed.

Lemma editors_after_theme g c u w : editors (after_theme g c u w) = editors w.
Proof.
  unfold after_theme, theme_world. destruct (changed _ _); [|done].
  by destruct (bool_decide _).
Qed.

(** The status the gate takes from its child. *)
Lemma loading_update_mount lp rp c ls g w :
  TldrawEditorWithLoadingStore lp ls = RenderReadyStore rp →
  child g = None →
  loading_update ctor fb lp c ls g w =
  (gate_status c (l_user lp) (mount ctor fb rp c w).1.1,
   after_theme g c (l_user lp) (mount ctor fb rp c w).1.2,
   (mount ctor fb rp c w).2).
Proof.
  intros Hout Hch. unfold loading_update. rewrite Hout, Hch. cbn [default].
  rewrite render_initial.
  destruct (mount_cases rp c w) as [[Hok ->]|(err & Hthrow & ->)];
    cbn [fst snd].
  - erewrite bind_ok by (by apply try_ok, commit_initial_ok).
    cbn beta iota zeta.
    erewrite bind_ok by apply theme_when_eq. cbn beta iota zeta.
    erewrite bind_ok.
    2:{ apply pass_fresh; [done|done|].
        rewrite getCrashingError_after_theme. by apply getCrashingError_alloc_new. }
    cbn. by rewrite !app_nil_r, after_theme_expose.
  - erewrite bind_ok by (by apply try_thrown, commit_initial_throw).
    cbn beta iota zeta.
    erewrite bind_ok by apply theme_when_eq.
    unfold throw. cbn [fst snd app]. done.
Qed.

Lemma ready_output status store user base ls :
  status ∈ ready_statuses store →
  TldrawEditorWithLoadingStore
    {| l_store := status; l_user := user; l_base := base |} ls
  = RenderReadyStore (ready_props store user base).
Proof.
  intros Hin. unfold ready_statuses in Hin.
  repeat (apply elem_of_cons in Hin as [->|Hin]; [done|]).
  by apply elem_of_nil in Hin.
Qed.

(** C3.  The case analysis of the gate.  With status [error(err)] the
    render throws exactly [err], the commit fails with [err] and no
    constructor is called; with status [loading] the render is the
    [LoadingScreen] of the caller when there is one and nothing otherwise, no
    child is mounted and no constructor is called; with each of the statuses
    [not-synced], [synced-local] and [synced-remote] the render is the
    ready-store component with the underlying store, the same user and the
    same other props, and mounting the gate logs what mounting that
    component logs. *)
Theorem store_status_gate user base container LoadingScreen g w :
  (∀ err,
     TldrawEditorWithLoadingStore
       {| l_store := StatusError err; l_user := user; l_base := base |}
       LoadingScreen = ThrowError err
     ∧ (loading_update ctor fb
          {| l_store := StatusError err; l_user := user; l_base := base |}
          container LoadingScreen g w).1.1 = LoadingFailed err
     ∧ omap construct_of
         (loading_update ctor fb
            {| l_store := StatusError err; l_user := user; l_base := base |}
            container LoadingScreen g w).2 = [])
  ∧ (TldrawEditorWithLoadingStore
       {| l_store := StatusLoading; l_user := user; l_base := base |}
       LoadingScreen = from_option RenderElement RenderNothing LoadingScreen
     ∧ (loading_update ctor fb
          {| l_store := StatusLoading; l_user := user; l_base := base |}
          container LoadingScreen g w).1.1
       = LoadingMounted
           {| themeEffect_deps := Some (container, user); child := None |}
     ∧ omap construct_of
         (loading_update ctor fb
            {| l_store := StatusLoading; l_user := user; l_base := base |}
            container LoadingScreen g w).2 = [])
  ∧ (∀ status store,
       status ∈ [StatusNotSynced store; StatusSyncedLocal store;
                 StatusSyncedRemote store] →
       TldrawEditorWithLoadingStore
         {| l_store := status; l_user := user; l_base := base |} LoadingScreen
       = RenderReadyStore {| r_store := store; r_user := user; r_base := base |}
       ∧ (loading_update ctor fb
            {| l_store := status; l_user := user; l_base := base |}
            container LoadingScreen initial_loading_fiber w).2
         = (mount ctor fb {| r_store := store; r_user := user; r_base := base |}
              container w).2).
Proof.
  split; [|split].
  - intros err. split; [done|]. rewrite loading_update_error. split; [done|].
    cbn [snd]. destruct (child g); cbn [from_option]; [apply construct_unmount|done].
  - split; [by destruct LoadingScreen|]. rewrite loading_update_loading.
    split; [done|]. cbn [snd].
    destruct (child g); cbn [from_option]; [apply construct_unmount|done].
  - intros status store Hin. split; [by apply ready_output|].
    by erewrite loading_update_mount; [|by apply ready_output|].
Qed.

Lemma theme_world_lookup container user w :
  default [] (classList (theme_world container user w) !! container)
  = themed (colorScheme w !! user_ref user) (default [] (classList w !! container))
  ∧ ∀ c', c' ≠ container →
          classList (theme_world container user w) !! c' = classList w !! c'.
Proof.
  unfold theme_world, themed.
  destruct (bool_decide _); cbn; [|done].
  split; [by rewrite lookup_insert_eq|].
  intros c' Hne. by rewrite lookup_insert_ne.
Qed.

(** A gate without a child that is rendered with a store that is not ready
    stays without a child, and the theme effect is all that touches the
    world. *)
Lemma loading_update_unready p c ls g w :
  unready (l_store p) →
  child g = None →
  (loading_update ctor fb p c ls g w).2 = []
  ∧ match l_store p with
    | StatusError err =>
        (loading_update ctor fb p c ls g w).1 = (LoadingFailed err, w)
    | _ =>
        (loading_update ctor fb p c ls g w).1
        = (LoadingMounted {| themeEffect_deps := Some (c, l_user p); child := None |},
           after_theme g c (l_user p) w)
    end.
Proof.
  intros Hun Hch. destruct p as [st u b]. cbn [l_store l_user] in *.
  destruct st as [err| | | |]; try done.
  - rewrite loading_update_error, Hch. done.
  - rewrite loading_update_loading, Hch. cbn [from_option ret fst snd].
    split; [done|]. unfold after_theme. by destruct (changed _ _).
Qed.




End Proofs.

(** * The claims at concrete inputs *)

(** Evaluate the left-hand side, then read the result off. *)
Ltac evaluated :=
  match goal with
  | |- ?l = _ =>
      let v := eval vm_compute in l in
      transitivity v; [vm_compute; reflexivity|reflexivity]
  end.

(** C1 on a mounted sample: new one-shot options build nothing, another
    store disposes the exposed instance and builds again. *)
Lemma recreation_keyed_by_identity_witness :
  ∃ p c f w tr,
    session never_throws sample_fallback sample_props 9 [] empty_world = (Mounted p c f, w, tr)
    ∧ omap cycle_of (update never_throws sample_fallback oneshot_props 9 f w).2 = []
    ∧ ∃ e, editor f = Some e
           ∧ omap cycle_of (update never_throws sample_fallback other_props 9 f w).2 =
             [inl (editor_id e);
              inr (editor_args_of other_props 9 (current_options other_props))].
Proof.
  eexists _, _, _, _, _. split; [evaluated|]. split.
  - eapply (recreation_keyed_by_identity never_throws sample_fallback sample_props 9 []
              empty_world _ _ _ _ _ oneshot_props 9).
    + evaluated.
    + vm_compute; reflexivity.
  - eapply (recreation_keyed_by_identity never_throws sample_fallback sample_props 9 []
              empty_world _ _ _ _ _ other_props 9).
    + evaluated.
    + vm_compute. discriminate.
Defined.

(** C2 on a run with two identity changes among three renders. *)
Lemma construct_dispose_pairing_witness :
  ∃ p c f w tr,
    session never_throws sample_fallback sample_props 9
      [ActRender other_props 9; ActRender other_props 9; ActRender sample_props 9]
      empty_world = (Mounted p c f, w, tr)
    ∧ omap life_of tr =
      [Constructed 0; Disposed 0; Constructed 1; Disposed 1; Constructed 2]
    ∧ omap life_of (step never_throws sample_fallback ActUnmount (Mounted p c f) w).2 = [Disposed 2].
Proof.
  eexists _, _, _, _, _. split; [evaluated|].
  edestruct (construct_dispose_pairing never_throws sample_fallback sample_props 9
               [ActRender other_props 9; ActRender other_props 9;
                ActRender sample_props 9] empty_world) as (H1 & _ & _ & H2).
  { evaluated. }
  split; [exact H1|exact H2].
Defined.

(** C3 on a synced and on a failed store. *)
Lemma store_status_gate_witness :
  TldrawEditorWithLoadingStore
    (sample_loading (StatusSyncedLocal sample_store)) None
  = RenderReadyStore sample_props
  ∧ TldrawEditorWithLoadingStore (sample_loading (StatusError boom)) None
    = ThrowError boom.
Proof.
  destruct (store_status_gate never_throws sample_fallback sample_user sample_base 9 None
              initial_loading_fiber empty_world) as (H1 & _ & H3).
  split.
  - apply (H3 (StatusSyncedLocal sample_store) sample_store).
    apply list_elem_of_In. right. left. reflexivity.
  - apply H1.
Defined.

(** C4, amended, on a run that rebuilds the editor once: mount sequencing
    ran for both instances. *)
Lemma mount_sequencing_once_witness :
  ∃ s w tr,
    session never_throws sample_fallback sample_props 9
      [ActRender other_props 9] empty_world = (s, w, tr)
    ∧ omap begun_of tr = [0; 1]
    ∧ NoDup (omap begun_of tr).
Proof.
  eexists _, _, _. split; [evaluated|].
  edestruct (mount_sequencing_once never_throws sample_fallback sample_props 9
               [ActRender other_props 9] empty_world) as (H1 & _ & _ & H3 & _).
  { evaluated. }
  split; [|exact H1].
  eapply eq_trans; [apply H3; repeat constructor|vm_compute; reflexivity].
Defined.

(** C4 as stated fails: the exposed instance crashes and the boundary of
    the component catches what [Crash] throws; a render with another store
    then builds a second instance and exposes it, and mount sequencing never
    runs for it. *)
Lemma sequencing_after_crash_counterexample :
  editor_id <$>
    omap built_of
      (session never_throws sample_fallback sample_props 9
         [ActCrash 0 boom; ActRender other_props 9] empty_world).2
  = [0; 1]
  ∧ omap exposed_of
      (session never_throws sample_fallback sample_props 9
         [ActCrash 0 boom; ActRender other_props 9] empty_world).2
    = [0; 1]
  ∧ omap sequencing_of
      (session never_throws sample_fallback sample_props 9
         [ActCrash 0 boom; ActRender other_props 9] empty_world).2
    = mount_block (next_editor sample_props 9 empty_world)
        (onMount (r_base sample_props))
  ∧ omap begun_of
      (session never_throws sample_fallback sample_props 9
         [ActCrash 0 boom; ActRender other_props 9] empty_world).2
    = [0].
Proof.
  repeat split; vm_compute; reflexivity.
Qed.

(** C5 after a crash of the mounted instance. *)
Lemma crash_latch_witness :
  ∃ p c f w tr e,
    session never_throws sample_fallback sample_props 9 [ActCrash 0 boom] empty_world
      = (Mounted p c f, w, tr)
    ∧ editor f = Some e
    ∧ getSnapshot w (editor f) = Some boom
    ∧ getSnapshot
        (run never_throws sample_fallback [ActRender oneshot_props 9; ActCrash 0 boom]
           (Mounted p c f) w).1.2 (Some e) = Some boom.
Proof.
  eexists _, _, _, _, _, _. split; [evaluated|].
  split; [reflexivity|]. split; [vm_compute; reflexivity|].
  eapply (crash_latch never_throws sample_fallback sample_props 9 [ActCrash 0 boom] empty_world).
  - evaluated.
  - reflexivity.
  - vm_compute; reflexivity.
Defined.

(** C6, amended, on a session that ends unmounted. *)
Lemma teardown_in_registration_order_witness :
  ∃ s w tr,
    session never_throws sample_fallback sample_props 9 [ActUnmount] empty_world = (s, w, tr)
    ∧ omap called_of tr ++ pending_of s = omap registered_of tr
    ∧ omap torn_of tr ++ pending_ids s = omap begun_of tr.
Proof.
  eexists _, _, _. split; [evaluated|].
  edestruct (teardown_in_registration_order never_throws sample_fallback sample_props 9
               [ActUnmount] empty_world) as (H1 & H2 & _).
  { evaluated. }
  split; [exact H1|exact H2].
Defined.

(** C6 as stated fails: the teardown of the store, registered first, is also
    called first. *)
Lemma teardown_reverse_order_counterexample :
  omap registered_of
    (session never_throws sample_fallback sample_props 9 [ActUnmount] empty_world).2
  = [(0, 11); (0, 12)]
  ∧ omap called_of
      (session never_throws sample_fallback sample_props 9 [ActUnmount] empty_world).2
    = [(0, 11); (0, 12)]
  ∧ omap called_of
      (session never_throws sample_fallback sample_props 9 [ActUnmount] empty_world).2
    ≠ rev (omap registered_of
             (session never_throws sample_fallback sample_props 9 [ActUnmount] empty_world).2).
Proof.
  split; [|split]; vm_compute; [reflexivity|reflexivity|discriminate].
Qed.

(** C7, amended, on a change of the camera options to another value. *)
Lemma camera_options_live_witness :
  ∃ p c f w tr,
    session never_throws sample_fallback sample_props 9 [] empty_world = (Mounted p c f, w, tr)
    ∧ ∃ e, editor f = Some e
           ∧ omap camera_of (update never_throws sample_fallback (camera_props (Some 8)) 9 f w).2
             = [(editor_id e, 8)]
           ∧ omap life_of (update never_throws sample_fallback (camera_props (Some 8)) 9 f w).2 = [].
Proof.
  eexists _, _, _, _, _. split; [evaluated|].
  eapply (camera_options_live never_throws sample_fallback sample_props 9 [] empty_world
            _ _ _ _ _ (camera_props (Some 8)) 9).
  - evaluated.
  - vm_compute; reflexivity.
  - vm_compute. discriminate.
Defined.

(** C7 as stated fails: when the camera options change to undefined, the
    update method is not called. *)
Lemma camera_options_undefined_counterexample :
  cameraOptions (r_base (camera_props None)) ≠ cameraOptions (r_base sample_props)
  ∧ ∃ p c f w tr,
      session never_throws sample_fallback sample_props 9 [] empty_world = (Mounted p c f, w, tr)
      ∧ omap camera_of (update never_throws sample_fallback (camera_props None) 9 f w).2 = [].
Proof.
  split; [vm_compute; discriminate|].
  eexists _, _, _, _, _. split; [evaluated|vm_compute; reflexivity].
Qed.

(** C8 with a constructor that throws for the second store. *)
Lemma construction_failure_atomic_witness :
  ∃ p c f w tr,
    session throws_for_other sample_fallback sample_props 9 [] empty_world = (Mounted p c f, w, tr)
    ∧ ∃ e, editor f = Some e
           ∧ (update throws_for_other sample_fallback other_props 9 f w).1.1 = Failed boom
           ∧ omap exposed_of (update throws_for_other sample_fallback other_props 9 f w).2 = []
           ∧ omap life_of (update throws_for_other sample_fallback other_props 9 f w).2
             = [Disposed (editor_id e); ConstructFailed].
Proof.
  eexists _, _, _, _, _. split; [evaluated|].
  edestruct construction_failure_atomic
    with (ctor := throws_for_other) (fb := sample_fallback) (p0 := sample_props) (c0 := 9)
         (acts := @nil Action) (w0 := empty_world)
         (p' := other_props) (c' := 9) (err := boom)
    as [(e & He & H1 & H2 & H3 & _) _].
  - evaluated.
  - vm_compute. discriminate.
  - vm_compute; reflexivity.
  - exists e. split; [exact He|]. split; [exact H1|]. split; [exact H2|exact H3].
Defined.



(** C10 on a rebuild with [autoFocus] undefined. *)
Lemma autoFocus_defaults_to_true_witness :
  ∃ p c f w tr,
    session never_throws sample_fallback sample_props 9 [] empty_world = (Mounted p c f, w, tr)
    ∧ a_autoFocus (editor_args_of other_props 9 (current_options other_props))
      = true.
Proof.
  eexists _, _, _, _, _. split; [evaluated|].
  edestruct autoFocus_defaults_to_true
    with (ctor := never_throws) (fb := sample_fallback) (p0 := sample_props) (c0 := 9)
         (acts := @nil Action) (w0 := empty_world) (p' := other_props) (c' := 9)
         (args := editor_args_of other_props 9 (current_options other_props))
    as [H _].
  - evaluated.
  - reflexivity.
  - apply H. vm_compute. apply list_elem_of_In. right. left. reflexivity.
Defined.

(** * Further properties of the lifecycle *)

Section Coverage.

Variable ctor : EditorArgs → option JsError.
Variable fb : option Ref.

(** ** The worlds of a session, instance by instance *)

Lemma disposed_at_alter g i w j :
  (∀ s, disposed (g s) = disposed s) →
  disposed_at (set_editors (alter g i) w) j = disposed_at w j.
Proof.
  intros Hg. unfold disposed_at. cbn.
  destruct (decide (i = j)) as [->|?].
  - rewrite list_lookup_alter_eq. destruct (editors w !! j); cbn; [by rewrite Hg|done].
  - by rewrite list_lookup_alter_ne.
Qed.

Lemma disposed_at_camera e old new w i :
  disposed_at (camera_world e old new w) i = disposed_at w i.
Proof.
  unfold camera_world. case_bool_decide; [done|].
  destruct new; [|done]. by apply disposed_at_alter.
Qed.

Lemma disposed_at_expose e cam w i :
  disposed_at (expose_world e cam w) i = disposed_at w i.
Proof.
  unfold expose_world. destruct cam; [|done].
  cbn [from_option]. by rewrite disposed_at_alter.
Qed.

Lemma disposed_at_rerender caught e cam w i :
  disposed_at (rerender_world caught e cam w) i = disposed_at w i.
Proof.
  destruct caught; cbn [rerender_world]; [|apply disposed_at_expose].
  destruct cam; [|done]. cbn [from_option]. by rewrite disposed_at_alter.
Qed.

Lemma disposed_at_latch e err w i :
  disposed_at (latch_world e err w) i = disposed_at w i.
Proof. by apply disposed_at_alter. Qed.

Lemma disposed_at_dispose_same e w :
  editor_id e < length (editors w) →
  disposed_at (dispose_world e w) (editor_id e) = Some true.
Proof.
  intros Hlt. unfold disposed_at, dispose_world. cbn.
  rewrite list_lookup_alter_eq.
  by destruct (lookup_lt_is_Some_2 _ _ Hlt) as [s ->].
Qed.

Lemma disposed_at_dispose_other e w i :
  i ≠ editor_id e → disposed_at (dispose_world e w) i = disposed_at w i.
Proof.
  intros. unfold disposed_at, dispose_world. cbn.
  by rewrite list_lookup_alter_ne.
Qed.

Lemma disposed_at_alloc_old args w i :
  i < length (editors w) → disposed_at (alloc_world args w) i = disposed_at w i.
Proof. intros. unfold disposed_at. cbn. by rewrite lookup_app_l. Qed.

Lemma disposed_at_alloc_new args w :
  disposed_at (alloc_world args w) (length (editors w)) = Some false.
Proof.
  unfold disposed_at. cbn. rewrite lookup_app_r by lia.
  by rewrite Nat.sub_diag.
Qed.

(** A step from a status that is not mounted changes no instance but for a
    crash it latches, and logs nothing. *)
Lemma step_dead_world a s w :
  (∀ p c f, s ≠ Mounted p c f) →
  ∃ w', step ctor fb a s w = (s, w', [])
        ∧ (∀ i, disposed_at w' i = disposed_at w i)
        ∧ tldrawReady w' = tldrawReady w
        ∧ length (editors w') = length (editors w).
Proof.
  intros Hs. destruct a as [p' c'|e0 err0|], s as [p c f| |err];
    try (by destruct (Hs p c f));
    cbn; eexists; (split; [reflexivity|]); repeat split; try done;
    intros; try (by apply disposed_at_latch); apply length_alter.
Qed.

Lemma exposed_stable p c e prev lay caught :
  exposed_id (Mounted p c (stable_fiber p c e prev lay caught))
  = Some (editor_id e).
Proof. reflexivity. Qed.

Lemma one_live_mount p c w0 s w t :
  mount ctor fb p c w0 = (s, w, t) → one_live (length (editors w0)) s w.
Proof.
  intros Hm i Hge Hlt.
  destruct (mount_cases ctor fb p c w0) as [[_ Heq]|(err & _ & Heq)];
    rewrite Heq in Hm; injection Hm as <- <- <-.
  - rewrite length_expose, length_alloc in Hlt.
    assert (i = length (editors w0)) as -> by lia.
    rewrite disposed_at_expose, disposed_at_alloc_new, exposed_stable.
    cbn. by rewrite bool_decide_eq_false_2 by naive_solver.
  - lia.
Qed.

Lemma one_live_disposed n0 e w i :
  (∀ i, n0 ≤ i → i < length (editors w) →
        disposed_at w i = Some (bool_decide (Some (editor_id e) ≠ Some i))) →
  S (editor_id e) = length (editors w) →
  n0 ≤ i → i < length (editors w) →
  disposed_at (dispose_world e w) i = Some true.
Proof.
  intros Hone Hid Hge Hlt.
  destruct (decide (i = editor_id e)) as [->|Hne'].
  - apply disposed_at_dispose_same. lia.
  - rewrite disposed_at_dispose_other by done.
    rewrite Hone by lia. by rewrite bool_decide_eq_true_2 by congruence.
Qed.

Lemma one_live_step n0 a s w s' w' t :
  settled fb s w → n0 ≤ length (editors w) → one_live n0 s w →
  step ctor fb a s w = (s', w', t) → one_live n0 s' w'.
Proof.
  intros Hset Hn0 Hone Hst.
  destruct Hset as [p c e lay caught w Hlay Hid|w|err w].
  2,3: (edestruct step_dead_world as (w2 & Heq & Hd & _ & Hl);
        [|rewrite Heq in Hst]; [done|injection Hst as <- <- <-];
        intros i Hge Hlt; rewrite Hd; rewrite Hl in Hlt; by apply Hone).
  pose proof (step_cases ctor fb p c e lay caught w a Hlay Hid) as Hc.
  rewrite Hst in Hc.
  unfold one_live in *.
  pose proof (Hone : ∀ i, n0 ≤ i → i < length (editors w) →
                     disposed_at w i
                     = Some (bool_decide (Some (editor_id e) ≠ Some i))) as Hone'.
  clear Hone. rename Hone' into Hone.
  inversion Hc; subst; clear Hc; intros i Hge Hlt;
    rewrite ?exposed_stable;
    repeat (rewrite length_camera_world in Hlt || rewrite length_rerender in Hlt
            || rewrite length_alloc in Hlt || rewrite length_dispose in Hlt
            || rewrite length_latch in Hlt).
  - rewrite disposed_at_camera. by apply Hone.
  - rewrite disposed_at_rerender, disposed_at_camera. cbn [next_editor editor_id].
    destruct (decide (i = length (editors w))) as [->|Hne].
    + rewrite <- (length_dispose e w), disposed_at_alloc_new.
      by rewrite bool_decide_eq_false_2 by naive_solver.
    + rewrite disposed_at_alloc_old by (rewrite length_dispose; lia).
      rewrite bool_decide_eq_true_2 by congruence.
      apply (one_live_disposed n0); [done|done|done|lia].
  - cbn [exposed_id]. rewrite bool_decide_eq_true_2 by done.
    by apply (one_live_disposed n0).
  - rewrite disposed_at_latch. by apply Hone.
  - cbn [exposed_id]. rewrite bool_decide_eq_true_2 by done.
    apply (one_live_disposed n0); rewrite ?length_latch; try done.
    intros j Hj1 Hj2. rewrite disposed_at_latch. by apply Hone.
  - rewrite disposed_at_latch. by apply Hone.
  - cbn [exposed_id]. rewrite bool_decide_eq_true_2 by done.
    by apply (one_live_disposed n0).
Qed.

Lemma session_one_live p c acts w0 s w tr :
  session ctor fb p c acts w0 = (s, w, tr) →
  length (editors w0) ≤ length (editors w) ∧ one_live (length (editors w0)) s w.
Proof.
  intros Hs.
  eapply (session_ind ctor fb
            (λ s w _, length (editors w0) ≤ length (editors w)
                      ∧ one_live (length (editors w0)) s w)); [| |exact Hs].
  - intros s1 w1 t1 Hm. split; [|by eapply one_live_mount].
    destruct (mount_balanced ctor fb _ _ _ _ _ _ Hm) as (_ & _ & _ & ->). lia.
  - clear. intros s w tr a s' w' t Hset [Hle Hone] Hst. split.
    + destruct (step_balanced ctor fb _ _ _ _ _ _ Hset Hst) as (_ & _ & _ & ->). lia.
    + by eapply one_live_step.
Qed.

(** X1.  At most one live instance.  After any session, of the instances
    the session has built exactly the one the component exposes has not been
    disposed: every other one is disposed, and once the component is
    unmounted or has failed all of them are. *)
Theorem one_live_instance p0 c0 acts w0 s w tr i :
  session ctor fb p0 c0 acts w0 = (s, w, tr) →
  length (editors w0) ≤ i → i < length (editors w) →
  disposed_at w i = Some (bool_decide (exposed_id s ≠ Some i)).
Proof.
  intros Hs. by apply (session_one_live _ _ _ _ _ _ _ Hs).
Qed.

(** ** States a session reaches *)

(** What is known of a mounted state a session has reached. *)
Lemma session_reached p0 c0 acts w0 p c f w tr :
  session ctor fb p0 c0 acts w0 = (Mounted p c f, w, tr) →
  ∃ e lay caught,
    f = stable_fiber p c e (Some e) lay caught
    ∧ layout_ok fb w e lay caught
    ∧ S (editor_id e) = length (editors w)
    ∧ (∀ l, lay = Some l →
            onMount_editor l = e ∧ caught = None
            ∧ Editor_getCrashingError w e = None).
Proof.
  intros Hs. apply session_settled in Hs.
  destruct (settled_inv _ _ _ _ _ Hs) as (e & lay & caught & -> & Hlay & Hid).
  exists e, lay, caught. do 3 (split; [done|]). by intros l ->.
Qed.

(** X2.  A render that keeps the identity tuple and the camera options calls
    nothing.  Whatever it changes among [autoFocus], [inferDarkMode],
    [initialState] and [onMount], its commit logs no call and leaves the
    world as it is; the same instance stays exposed and [Layout] keeps the
    cleanup it has, so a new [onMount] handler is not called for the
    instance that is already mounted; the holder has the new options. *)
Theorem quiet_rerender p0 c0 acts w0 p c f w tr p' c' :
  session ctor fb p0 c0 acts w0 = (Mounted p c f, w, tr) →
  identity_key p' c' = identity_key p c →
  cameraOptions (r_base p') = cameraOptions (r_base p) →
  ∃ f', update ctor fb p' c' f w = (Mounted p' c' f', w, [])
        ∧ editor f' = editor f
        ∧ layout f' = layout f
        ∧ editorOptionsRef f' = current_options p'.
Proof.
  intros Hs Hk Hcam.
  destruct (session_reached _ _ _ _ _ _ _ _ _ Hs)
    as (e & lay & caught & -> & Hlay & Hid & _).
  apply identity_key_deps in Hk.
  rewrite (update_same ctor fb p c w e lay caught p' c' Hlay Hk).
  rewrite Hcam, camera_world_same, camera_update_same.
  by eexists.
Qed.

(** ** The readiness flag *)

Lemma tldrawReady_camera e old new w :
  tldrawReady (camera_world e old new w) = tldrawReady w.
Proof. unfold camera_world. case_bool_decide; [done|]. by destruct new. Qed.

Lemma tldrawReady_expose e cam w : tldrawReady (expose_world e cam w) = true.
Proof. unfold expose_world. by destruct cam. Qed.

Lemma tldrawReady_rerender caught e cam w :
  tldrawReady (rerender_world caught e cam w)
  = tldrawReady w || bool_decide (caught = None).
Proof.
  destruct caught; cbn [rerender_world].
  - rewrite orb_false_r. by destruct cam.
  - by rewrite tldrawReady_expose, orb_true_r.
Qed.

Lemma built_app_nonempty (l1 l2 : list Editor) :
  bool_decide (l1 ++ l2 ≠ []) = bool_decide (l1 ≠ []) || bool_decide (l2 ≠ []).
Proof. by destruct l1, l2. Qed.

Lemma mount_flag p c w0 s w t :
  mount ctor fb p c w0 = (s, w, t) →
  tldrawReady w = tldrawReady w0 || bool_decide (omap built_of t ≠ [])
  ∧ (∀ p1 c1 f1, s = Mounted p1 c1 f1 → tldrawReady w = true).
Proof.
  intros Hm.
  destruct (mount_cases ctor fb p c w0) as [[_ Heq]|(err & _ & Heq)];
    rewrite Heq in Hm; injection Hm as <- <- <-.
  - rewrite tldrawReady_expose. cbn. by rewrite orb_true_r.
  - cbn. by rewrite orb_false_r.
Qed.

(** While the component is mounted the flag is set; a step sets it when it
    builds an instance, and never sets it back. *)
Lemma step_flag a s w s' w' t :
  settled fb s w → (∀ p c f, s = Mounted p c f → tldrawReady w = true) →
  step ctor fb a s w = (s', w', t) →
  tldrawReady w' = tldrawReady w || bool_decide (omap built_of t ≠ [])
  ∧ (∀ p1 c1 f1, s' = Mounted p1 c1 f1 → tldrawReady w' = true).
Proof.
  intros Hset Hon Hst.
  destruct Hset as [p c e lay caught w Hlay Hid|w|err w].
  2,3: (edestruct step_dead_world as (w2 & Heq & _ & Hr & _); [|rewrite Heq in Hst];
        [done|injection Hst as <- <- <-; cbn; by rewrite orb_false_r]).
  pose proof (step_cases ctor fb p c e lay caught w a Hlay Hid) as Hc.
  rewrite Hst in Hc. specialize (Hon _ _ _ eq_refl).
  inversion Hc; subst; clear Hc.
  - rewrite tldrawReady_camera, Hon.
    replace (omap built_of _) with (@nil Editor) by (blocks; reflexivity).
    done.
  - rewrite tldrawReady_rerender, tldrawReady_camera. cbn [tldrawReady alloc_world
      dispose_world set_editors]. rewrite Hon. done.
  - replace (omap built_of _) with (@nil Editor) by (blocks; reflexivity).
    cbn. by rewrite orb_false_r.
  - replace (omap built_of _) with (@nil Editor) by (blocks; reflexivity).
    cbn. by rewrite orb_false_r.
  - replace (omap built_of _) with (@nil Editor) by (blocks; reflexivity).
    cbn. by rewrite orb_false_r.
  - cbn. by rewrite orb_false_r.
  - replace (omap built_of _) with (@nil Editor) by (blocks; reflexivity).
    cbn. by rewrite orb_false_r.
Qed.

(** X3.  The readiness flag is a latch.  After any session
    [window.tldrawReady] is true exactly when it was true before or the
    session has built an instance: mount sequencing sets it, and neither an
    unmount, a crash, a replacement nor a constructor that throws sets it
    back. *)
Theorem readiness_flag_latched p0 c0 acts w0 s w tr :
  session ctor fb p0 c0 acts w0 = (s, w, tr) →
  tldrawReady w = tldrawReady w0 || bool_decide (omap built_of tr ≠ []).
Proof.
  intros Hs.
  edestruct (session_ind ctor fb
               (λ s w tr,
                  tldrawReady w
                  = tldrawReady w0 || bool_decide (omap built_of tr ≠ [])
                  ∧ (∀ p c f, s = Mounted p c f → tldrawReady w = true))
               p0 c0 w0) as [_ [H _]]; [| |exact Hs|exact H].
  - intros s1 w1 t1 Hm. by eapply mount_flag.
  - clear. intros s w tr a s' w' t Hset [HI Hon] Hst.
    destruct (step_flag _ _ _ _ _ _ Hset Hon Hst) as [-> Hon'].
    split; [|done].
    by rewrite HI, omap_app, built_app_nonempty, orb_assoc.
Qed.

(** ** The order of the calls of one commit *)

(** X4.  The order of a mount.  When the constructor returns, mounting the
    component logs the construction and [setEditor] in the first commit and,
    in the re-render that [setEditor] asked for, mount sequencing and then
    [setCameraOptions] when the camera options are defined, which the
    constructor already got; the instance is exposed, live, and has the
    camera options of the render. *)
Theorem mount_order p c w :
  ctor (editor_args_of p c (current_options p)) = None →
  (mount ctor fb p c w).2 =
    [EvNew (next_editor p c w); EvSetEditor (length (editors w))]
    ++ mount_block (next_editor p c w) (onMount (r_base p))
    ++ from_option (λ cam, [EvSetCameraOptions (length (editors w)) cam]) []
         (cameraOptions (r_base p))
  ∧ exposed_id (mount ctor fb p c w).1.1 = Some (length (editors w))
  ∧ disposed_at (mount ctor fb p c w).1.2 (length (editors w)) = Some false
  ∧ camera_at (mount ctor fb p c w).1.2 (length (editors w))
    = cameraOptions (r_base p).
Proof.
  intros Hok. rewrite (mount_ok ctor fb p c w Hok). cbn [fst snd].
  split; [done|]. split; [done|]. split.
  - by rewrite disposed_at_expose, disposed_at_alloc_new.
  - unfold camera_at, expose_world.
    destruct (cameraOptions (r_base p)) as [cam|] eqn:Hcam; cbn.
    + rewrite list_lookup_alter_eq, lookup_app_r by lia.
      by rewrite Nat.sub_diag.
    + rewrite lookup_app_r by lia. rewrite Nat.sub_diag. cbn. by rewrite Hcam.
Qed.

(** X5.  The order of a replacement.  When a render changes the identity
    tuple and the constructor returns, the commit logs, in this order: the
    disposal of the exposed instance, the construction of its successor and
    [setEditor]; the camera effect, still closed over the instance being
    replaced; then, in the re-render that [setEditor] asked for, the cleanup
    of mount sequencing for the old instance if [Layout] is mounted, mount
    sequencing for the new one unless the boundary has caught a crash, and
    [setCameraOptions] on the new one when the camera options are defined.
    So the teardown functions of an instance run after its disposal and
    after the construction of its successor, and an instance built after a
    crash gets no mount sequencing. *)
Theorem replacement_order p0 c0 acts w0 p c f w tr p' c' e :
  session ctor fb p0 c0 acts w0 = (Mounted p c f, w, tr) →
  editor f = Some e →
  identity_key p' c' ≠ identity_key p c →
  ctor (editor_args_of p' c' (current_options p')) = None →
  (update ctor fb p' c' f w).2 =
    [EvDispose (editor_id e); EvNew (successor e p' c');
     EvSetEditor (S (editor_id e))]
    ++ camera_update e (cameraOptions (r_base p)) (cameraOptions (r_base p'))
    ++ from_option teardown_block [] (layout f)
    ++ match boundary f with
       | None => mount_block (successor e p' c') (onMount (r_base p'))
       | Some _ => []
       end
    ++ from_option (λ cam, [EvSetCameraOptions (S (editor_id e)) cam]) []
         (cameraOptions (r_base p')).
Proof.
  intros Hs He Hk Hok.
  destruct (session_reached _ _ _ _ _ _ _ _ _ Hs)
    as (e' & lay & caught & -> & Hlay & Hid & _).
  injection He as ->.
  assert (editor_deps p c ≠ editor_deps p' c') as Hd.
  { intros Hd. apply Hk. symmetry. by apply identity_key_deps. }
  rewrite (update_new ctor fb p c w e lay caught p' c' Hlay Hid Hd Hok). cbn [snd].
  rewrite (next_editor_successor _ _ _ _ Hid), <- Hid.
  cbn [layout boundary stable_fiber app]. unfold rerender_log, expose_log.
  destruct caught; by rewrite <- ?app_assoc.
Qed.

(** X6.  The order of a failed replacement.  When a render changes the
    identity tuple and the constructor throws, the commit logs the disposal
    of the exposed instance, the failed call and then, as the subtree is
    removed, the cleanup of mount sequencing for the old instance; the
    camera effect, which comes after the throwing effect, does not run, also
    when the camera options changed; the old instance is disposed and
    nothing has been added to the world. *)
Theorem failed_replacement_order p0 c0 acts w0 p c f w tr p' c' e err :
  session ctor fb p0 c0 acts w0 = (Mounted p c f, w, tr) →
  editor f = Some e →
  identity_key p' c' ≠ identity_key p c →
  ctor (editor_args_of p' c' (current_options p')) = Some err →
  update ctor fb p' c' f w =
    (Failed err, dispose_world e w,
     [EvDispose (editor_id e);
      EvNewThrow (editor_args_of p' c' (current_options p')) err]
     ++ from_option teardown_block [] (layout f))
  ∧ omap camera_of (update ctor fb p' c' f w).2 = [].
Proof.
  intros Hs He Hk Hthrow.
  destruct (session_reached _ _ _ _ _ _ _ _ _ Hs)
    as (e' & lay & caught & -> & Hlay & Hid & _).
  injection He as ->.
  assert (editor_deps p c ≠ editor_deps p' c') as Hd.
  { intros Hd. apply Hk. symmetry. by apply identity_key_deps. }
  rewrite (update_throw ctor fb p c w e lay caught p' c' err Hlay Hd Hthrow).
  cbn [layout stable_fiber app snd]. split; [done|].
  destruct lay as [[? [[?|] [?|]]]|]; reflexivity.
Qed.

(** X7.  The order of an unmount.  Unmounting disposes the exposed instance
    first and then runs the cleanup of mount sequencing, if [Layout] is
    still mounted; nothing is constructed. *)
Theorem unmount_order p0 c0 acts w0 p c f w tr e :
  session ctor fb p0 c0 acts w0 = (Mounted p c f, w, tr) →
  editor f = Some e →
  step ctor fb ActUnmount (Mounted p c f) w =
    (Unmounted, dispose_world e w,
     EvDispose (editor_id e) :: from_option teardown_block [] (layout f))
  ∧ disposed_at (dispose_world e w) (editor_id e) = Some true.
Proof.
  intros Hs He.
  destruct (session_reached _ _ _ _ _ _ _ _ _ Hs)
    as (e' & lay & caught & -> & Hlay & Hid & _).
  injection He as ->.
  pose proof (step_cases ctor fb p c e lay caught w ActUnmount Hlay Hid) as Hc.
  inversion Hc; subst. split; [done|].
  apply disposed_at_dispose_same. lia.
Qed.

Lemma about_cons_true i ev l :
  about i ev = true → filter (about i) (ev :: l) = ev :: filter (about i) l.
Proof. intros H. rewrite filter_cons, decide_True; [done|rewrite H; exact I]. Qed.

Lemma about_cons_false i ev l :
  about i ev = false → filter (about i) (ev :: l) = filter (about i) l.
Proof. intros H. rewrite filter_cons, decide_False; [done|rewrite H; exact id]. Qed.

Lemma about_all i l :
  Forall (λ ev, about i ev = true) l → filter (about i) l = l.
Proof.
  induction 1 as [|ev l Hev _ IH]; [done|].
  by rewrite about_cons_true, IH.
Qed.

Lemma about_none i l :
  Forall (λ ev, about i ev = false) l → filter (about i) l = [].
Proof.
  induction 1 as [|ev l Hev _ IH]; [done|].
  by rewrite about_cons_false, IH.
Qed.

Lemma about_teardown_block i l :
  editor_id (onMount_editor l) = i →
  filter (about i) (teardown_block l) = teardown_block l.
Proof.
  intros <-. apply about_all.
  destruct l as [e [[a|] [b|]]]; repeat constructor;
    cbn; by apply bool_decide_eq_true_2.
Qed.

Lemma about_mount_block i e h :
  editor_id e ≠ i → filter (about i) (mount_block e h) = [].
Proof.
  intros Hne. apply about_none.
  destruct h as [h|]; repeat constructor;
    cbn; try done; by apply bool_decide_eq_false_2.
Qed.

Lemma camera_at_camera e old cam w :
  editor_id e < length (editors w) → old ≠ Some cam →
  camera_at (camera_world e old (Some cam) w) (editor_id e) = Some cam.
Proof.
  intros Hlt Hne. unfold camera_world, camera_at.
  rewrite bool_decide_eq_false_2 by done. cbn.
  rewrite list_lookup_alter_eq.
  by destruct (lookup_lt_is_Some_2 _ _ Hlt) as [s ->].
Qed.

Lemma camera_at_expose_other e cam w i :
  i ≠ editor_id e → camera_at (expose_world e cam w) i = camera_at w i.
Proof.
  intros Hne. unfold expose_world, camera_at. destruct cam; [|done].
  cbn. by rewrite list_lookup_alter_ne.
Qed.

(** X8.  What the instance being replaced still gets.  When the render
    that changes the identity tuple also changes the camera options to a
    defined value, the calls on the old instance are, in this order: its
    disposal, [setCameraOptions] with the new options, and the cleanup of
    mount sequencing with its teardown functions.  The camera effect of that
    commit still holds the old instance, so the disposed instance ends up
    with the new camera options. *)
Theorem replaced_instance_calls p0 c0 acts w0 p c f w tr p' c' e l cam :
  session ctor fb p0 c0 acts w0 = (Mounted p c f, w, tr) →
  editor f = Some e →
  layout f = Some l →
  identity_key p' c' ≠ identity_key p c →
  ctor (editor_args_of p' c' (current_options p')) = None →
  cameraOptions (r_base p') = Some cam →
  cameraOptions (r_base p) ≠ Some cam →
  filter (about (editor_id e)) (update ctor fb p' c' f w).2 =
    [EvDispose (editor_id e); EvSetCameraOptions (editor_id e) cam]
    ++ teardown_block l
  ∧ disposed_at (update ctor fb p' c' f w).1.2 (editor_id e) = Some true
  ∧ camera_at (update ctor fb p' c' f w).1.2 (editor_id e) = Some cam.
Proof.
  intros Hs He Hl Hk Hok Hcam Hold.
  destruct (session_reached _ _ _ _ _ _ _ _ _ Hs)
    as (e' & lay & caught & -> & Hlay & Hid & Hex).
  injection He as ->. cbn in Hl. subst lay.
  destruct (Hex l eq_refl) as (Hle & -> & _).
  assert (editor_deps p c ≠ editor_deps p' c') as Hd.
  { intros Hd. apply Hk. symmetry. by apply identity_key_deps. }
  rewrite (update_new ctor fb p c w e (Some l) None p' c' Hlay Hid Hd Hok).
  cbn [fst snd rerender_world rerender_log].
  rewrite (next_editor_successor _ _ _ _ Hid), <- Hid, Hcam.
  split; [|split].
  - unfold camera_update, expose_log. rewrite bool_decide_eq_false_2 by done.
    cbn [from_option app].
    rewrite about_cons_true by (cbn; by apply bool_decide_eq_true_2).
    rewrite about_cons_false by (cbn; apply bool_decide_eq_false_2; lia).
    rewrite about_cons_false by (cbn; apply bool_decide_eq_false_2; lia).
    rewrite about_cons_true by (cbn; by apply bool_decide_eq_true_2).
    rewrite !filter_app, about_teardown_block by (by rewrite Hle).
    rewrite about_mount_block by (cbn; lia).
    rewrite about_cons_false by (cbn; apply bool_decide_eq_false_2; lia).
    by rewrite filter_nil, !app_nil_r.
  - rewrite disposed_at_expose, disposed_at_camera.
    rewrite disposed_at_alloc_old by (rewrite length_dispose; lia).
    apply disposed_at_dispose_same. lia.
  - rewrite camera_at_expose_other by (cbn; lia).
    apply camera_at_camera; [|done].
    rewrite length_alloc, length_dispose. lia.
Qed.

(** The instances a session exposes are its own: they come after those the
    world had before. *)
Lemma session_own_instance p0 c0 acts w0 p c f w tr e :
  session ctor fb p0 c0 acts w0 = (Mounted p c f, w, tr) →
  editor f = Some e →
  length (editors w0) ≤ editor_id e.
Proof.
  intros Hs He.
  edestruct (session_ind ctor fb
               (λ s w _, length (editors w0) < length (editors w)
                         ∨ ∀ p c f, s ≠ Mounted p c f) p0 c0 w0)
    as [Hset H]; [| |exact Hs|].
  - intros s1 w1 t1 Hm.
    destruct (mount_cases ctor fb p0 c0 w0) as [[_ Heq]|(err & _ & Heq)];
      rewrite Heq in Hm; injection Hm as <- <- <-; [left|by right].
    rewrite length_expose, length_alloc. lia.
  - clear. intros s w tr a s' w' t Hset HI Hst.
    destruct (step_balanced ctor fb _ _ _ _ _ _ Hset Hst) as (_ & _ & _ & Hlen).
    destruct HI as [Hlt|Hdead]; [left; lia|right].
    destruct (step_dead ctor fb a s w Hdead) as (w2 & Heq & _).
    rewrite Heq in Hst. by injection Hst as <- <- <-.
  - destruct (settled_inv _ _ _ _ _ Hset) as (e' & lay & caught & -> & _ & Hid).
    injection He as ->. destruct H as [Hlt|Hdead]; [lia|].
    by destruct (Hdead p c (stable_fiber p c e (Some e) lay caught)).
Qed.

(** X9.  A crash runs the cleanup of mount sequencing.  When the exposed
    instance crashes while [Layout] is mounted, and the [ErrorFallback] slot
    holds a component, the boundary of the component catches what [Crash]
    throws: [Layout] is removed and its cleanup calls the teardown
    functions, then the boundary has the error annotated; the instance stays
    exposed and is not disposed, which is left to the next replacement or to
    the unmount.  When the slot is [null]
    there is no boundary: the render throws the crash error, the component
    is removed, the instance is disposed and then the cleanup runs. *)
Theorem crash_runs_teardown p0 c0 acts w0 p c f w tr e l err :
  session ctor fb p0 c0 acts w0 = (Mounted p c f, w, tr) →
  editor f = Some e →
  layout f = Some l →
  Editor_getCrashingError (latch_world (editor_id e) err w) e = Some err
  ∧ (is_Some fb →
     ∃ f',
       step ctor fb (ActCrash (editor_id e) err) (Mounted p c f) w
       = (Mounted p c f', latch_world (editor_id e) err w,
          teardown_block l ++ [EvAnnotateError (editor_id e) err])
       ∧ editor f' = Some e
       ∧ layout f' = None
       ∧ boundary f' = Some err
       ∧ disposed_at (latch_world (editor_id e) err w) (editor_id e) = Some false)
  ∧ (fb = None →
     step ctor fb (ActCrash (editor_id e) err) (Mounted p c f) w
     = (Failed err, dispose_world e (latch_world (editor_id e) err w),
        EvDispose (editor_id e) :: teardown_block l)
     ∧ disposed_at (dispose_world e (latch_world (editor_id e) err w))
         (editor_id e) = Some true).
Proof.
  intros Hs He Hl.
  destruct (session_one_live _ _ _ _ _ _ _ Hs) as [Hle Hone].
  pose proof (session_own_instance _ _ _ _ _ _ _ _ _ _ Hs He) as Hown.
  destruct (session_reached _ _ _ _ _ _ _ _ _ Hs)
    as (e' & lay & caught & -> & Hlay & Hid & Hex).
  injection He as ->. cbn in Hl. subst lay.
  destruct (Hex l eq_refl) as (_ & -> & Hnone).
  pose proof (step_cases ctor fb p c e (Some l) None w
                (ActCrash (editor_id e) err) Hlay Hid) as Hc.
  split; [|split].
  - rewrite getCrashingError_latch_same by lia. by rewrite Hnone.
  - intros Hfb.
    destruct (step ctor fb (ActCrash (editor_id e) err) _ w) as [[s1 w1] t1].
    inversion Hc as [| | |err' l' _ Hl|err' l' Hno _|e0 err' Hor|]; simplify_eq.
    + eexists. split; [done|]. do 3 (split; [done|]).
      rewrite disposed_at_latch.
      assert (editor_id e < length (editors w)) as Hin by lia.
      rewrite (Hone (editor_id e) Hown Hin). cbn.
      rewrite bool_decide_eq_false_2; [done|]. intros Hne. by apply Hne.
    + done.
    + by destruct Hor.
  - intros Hfb.
    destruct (step ctor fb (ActCrash (editor_id e) err) _ w) as [[s1 w1] t1].
    inversion Hc as [| | |err' l' Hyes _|err' l' _ Hl|e0 err' Hor|].
    + rewrite Hfb in Hyes. by destruct Hyes.
    + injection Hl as <-. subst. split; [done|].
      apply disposed_at_dispose_same. rewrite length_latch. lia.
    + subst. by destruct Hor.
Qed.

(** ** The exposed instance and the props *)

Lemma step_exposed a s w s' w' t :
  settled fb s w → step ctor fb a s w = (s', w', t) →
  omap exposed_of t = editor_id <$> omap built_of t.
Proof.
  intros Hset Hst.
  destruct Hset as [p c e lay caught w Hlay Hid|w|err w].
  2,3: (edestruct step_dead_world as (w2 & Heq & _); [|rewrite Heq in Hst];
        [done|by injection Hst as <- <- <-]).
  pose proof (step_cases ctor fb p c e lay caught w a Hlay Hid) as Hc.
  rewrite Hst in Hc.
  inversion Hc; subst; clear Hc; blocks; reflexivity.
Qed.

Lemma step_bound a s w s' w' t :
  settled fb s w → bound_to_props s → step ctor fb a s w = (s', w', t) →
  bound_to_props s'.
Proof.
  intros Hset Hb Hst.
  destruct Hset as [p c e lay caught w Hlay Hid|w|err w].
  2,3: (edestruct step_dead_world as (w2 & Heq & _); [|rewrite Heq in Hst];
        [done|by injection Hst as <- <- <-]).
  pose proof (step_cases ctor fb p c e lay caught w a Hlay Hid) as Hc.
  rewrite Hst in Hc.
  destruct Hb as (e' & [= <-] & Hk).
  inversion Hc; subst; clear Hc; cbn; try done.
  - exists e. split; [done|]. rewrite Hk. symmetry. by apply identity_key_deps.
  - by eexists.
  - by exists e.
  - by exists e.
Qed.

(** X10.  The exposed instance is bound to the props of the last render.
    In any state a session reaches with the component mounted, the exposed
    instance was constructed with the store, the container, [shapeUtils],
    [bindingUtils], [tools], the user, [options] and [licenseKey] of the
    last render: no render leaves an instance built for another identity
    tuple exposed. *)
Theorem exposed_instance_matches_props p0 c0 acts w0 p c f w tr :
  session ctor fb p0 c0 acts w0 = (Mounted p c f, w, tr) →
  ∃ e, editor f = Some e ∧ args_key (editor_args e) = identity_key p c.
Proof.
  intros Hs.
  edestruct (session_ind ctor fb (λ s _ _, bound_to_props s) p0 c0 w0)
    as [_ H]; [| |exact Hs|exact H].
  - intros s1 w1 t1 Hm.
    destruct (mount_cases ctor fb p0 c0 w0) as [[_ Heq]|(err & _ & Heq)];
      rewrite Heq in Hm; injection Hm as <- <- <-; [|done].
    by eexists.
  - clear. intros s w tr a s' w' t Hset HI Hst. by eapply step_bound.
Qed.

(** X11.  Every instance built is exposed once.  Over any session the
    calls of [setEditor] are, in order, the instances the constructor
    returned: each one is handed to [setEditor] exactly once, and nothing
    else ever is. *)
Theorem every_built_instance_exposed p0 c0 acts w0 s w tr :
  session ctor fb p0 c0 acts w0 = (s, w, tr) →
  omap exposed_of tr = editor_id <$> omap built_of tr.
Proof.
  intros Hs.
  edestruct (session_ind ctor fb
               (λ _ _ tr, omap exposed_of tr = editor_id <$> omap built_of tr)
               p0 c0 w0) as [_ H]; [| |exact Hs|exact H].
  - intros s1 w1 t1 Hm.
    destruct (mount_cases ctor fb p0 c0 w0) as [[_ Heq]|(err & _ & Heq)];
      rewrite Heq in Hm; injection Hm as <- <- <-; [|done].
    blocks; reflexivity.
  - clear. intros s w tr a s' w' t Hset HI Hst.
    rewrite !omap_app, fmap_app, HI. f_equal. by eapply step_exposed.
Qed.

(** ** The gate and its child *)

(** A ready render of a gate that has a child: the child is updated, and the
    theme effect runs between the child's commit and its re-render. *)
Lemma loading_update_child lp rp c ls g w p c0 e l :
  TldrawEditorWithLoadingStore lp ls = RenderReadyStore rp →
  child g = Some (stable_fiber p c0 e (Some e) (Some l) None) →
  layout_ok fb w e (Some l) None →
  S (editor_id e) = length (editors w) →
  loading_update ctor fb lp c ls g w =
  (gate_status c (l_user lp)
     (update ctor fb rp c (stable_fiber p c0 e (Some e) (Some l) None) w).1.1,
   after_theme g c (l_user lp)
     (update ctor fb rp c (stable_fiber p c0 e (Some e) (Some l) None) w).1.2,
   (update ctor fb rp c (stable_fiber p c0 e (Some e) (Some l) None) w).2).
Proof.
  intros Hout Hch Hlay Hid. unfold loading_update. rewrite Hout, Hch.
  cbn [default id]. rewrite (render_stable fb rp p c0 e (Some e) _ _ w Hlay).
  destruct (decide (editor_deps rp c = editor_deps p c0)) as [Heq|Hne].
  - rewrite (update_same ctor fb p c0 w e _ _ rp c Hlay Heq). cbn [fst snd].
    erewrite bind_ok by (apply try_ok; by apply commit_same).
    cbn beta iota zeta.
    erewrite bind_ok by apply theme_when_eq. cbn.
    by rewrite !app_nil_r.
  - assert (editor_deps p c0 ≠ editor_deps rp c) as Hne' by congruence.
    destruct (ctor (editor_args_of rp c (current_options rp))) as [err|] eqn:Hc.
    + rewrite (update_throw ctor fb p c0 w e _ _ rp c err Hlay Hne' Hc).
      cbn [fst snd].
      erewrite bind_ok by (apply try_thrown; by apply commit_throw).
      cbn beta iota zeta.
      erewrite bind_ok by apply theme_when_eq.
      unfold throw. cbn. by rewrite !app_nil_r.
    + rewrite (update_new ctor fb p c0 w e _ _ rp c Hlay Hid Hne' Hc).
      cbn [fst snd next_layout rerender_world rerender_log].
      erewrite bind_ok by (apply try_ok; by apply commit_new).
      cbn beta iota zeta.
      erewrite bind_ok by apply theme_when_eq. cbn beta iota zeta.
      erewrite bind_ok.
      2:{ apply pass_fresh.
          - intros [= ->]. cbn in Hid. lia.
          - destruct Hlay as (-> & _). intros ->. cbn in Hid. lia.
          - rewrite getCrashingError_after_theme, getCrashingError_camera.
            apply getCrashingError_alloc_new. cbn. by rewrite length_alter. }
      cbn. rewrite !app_nil_r, after_theme_expose. done.
Qed.

Lemma ready_output_inv lp ls rp :
  TldrawEditorWithLoadingStore lp ls = RenderReadyStore rp →
  r_user rp = l_user lp ∧ r_base rp = l_base lp
  ∧ l_store lp ∈ ready_statuses (r_store rp).
Proof.
  unfold TldrawEditorWithLoadingStore, ready_statuses.
  destruct (l_store lp) as [err| |st|st|st], ls; intros [= <-]; cbn;
    (split; [done|]); (split; [done|]); set_solver.
Qed.

(** What a ready render leaves when the gate stays mounted. *)
Lemma loading_update_ready_inv lp rp c ls g1 w1 g w t :
  gate_settled (LoadingMounted g1) w1 →
  TldrawEditorWithLoadingStore lp ls = RenderReadyStore rp →
  loading_update ctor fb lp c ls g1 w1 = (LoadingMounted g, w, t) →
  ∃ e l,
    g = {| themeEffect_deps := Some (c, l_user lp);
           child := Some (stable_fiber rp c e (Some e) (Some l) None) |}
    ∧ onMount_editor l = e
    ∧ Editor_getCrashingError w e = None
    ∧ S (editor_id e) = length (editors w).
Proof.
  intros Hset Hout Hup. cbn in Hset.
  destruct (child g1) as [f1|] eqn:Hch.
  - destruct Hset as (p & c0 & e & l & -> & Hdeps & Hl & Hnone & Hid).
    assert (layout_ok fb w1 e (Some l) None) as Hlay by done.
    rewrite (loading_update_child lp rp c ls g1 w1 p c0 e l Hout Hch Hlay Hid)
      in Hup.
    pose proof (step_cases ctor fb p c0 e (Some l) None w1 (ActRender rp c) Hlay Hid)
      as Hc.
    cbn [step] in Hc.
    destruct (update ctor fb rp c (stable_fiber p c0 e (Some e) (Some l) None) w1)
      as [[s2 w2] t2]. cbn [fst snd] in Hup.
    inversion Hc; subst; clear Hc; cbn in Hup; [| |done].
    + injection Hup as <- <- <-.
      exists (onMount_editor l), l. split; [done|]. split; [done|].
      rewrite getCrashingError_after_theme, getCrashingError_camera.
      split; [done|]. by rewrite editors_after_theme, length_camera_world.
    + injection Hup as <- <- <-.
      eexists _, _. split; [reflexivity|]. split; [done|].
      rewrite getCrashingError_after_theme, getCrashingError_expose,
        getCrashingError_camera.
      split.
      * apply getCrashingError_alloc_new. cbn. by rewrite length_alter.
      * rewrite editors_after_theme, length_expose, length_camera_world,
          length_alloc, length_dispose. done.
  - rewrite (loading_update_mount ctor fb lp rp c ls g1 w1 Hout Hch) in Hup.
    destruct (mount_cases ctor fb rp c w1) as [[_ Heq]|(err & _ & Heq)];
      rewrite Heq in Hup; cbn in Hup; [|done].
    injection Hup as <- <- <-.
    eexists _, _. split; [reflexivity|]. split; [done|].
    rewrite getCrashingError_after_theme, getCrashingError_expose.
    split; [by apply getCrashingError_alloc_new|].
    by rewrite editors_after_theme, length_expose, length_alloc.
Qed.

Lemma loading_step_settled a s w :
  gate_settled s w →
  gate_settled (loading_step ctor fb a s w).1.1 (loading_step ctor fb a s w).1.2.
Proof.
  intros Hset. destruct a as [lp c ls|u scheme|], s as [g| |err];
    cbn [loading_step fst snd]; try done.
  - destruct (TldrawEditorWithLoadingStore lp ls) as [err| | |rp] eqn:Hout.
    + unfold loading_update. rewrite Hout.
      by destruct (from_option unmount (ret ()) (child g) w) as [[? ?] ?].
    + destruct lp as [st u b]. unfold TldrawEditorWithLoadingStore in Hout.
      cbn in Hout. destruct st; try done; [|by destruct ls..].
      by rewrite loading_update_loading.
    + destruct lp as [st u b]. unfold TldrawEditorWithLoadingStore in Hout.
      cbn in Hout. destruct st; try done; [|by destruct ls..].
      by rewrite loading_update_loading.
    + destruct (loading_update ctor fb lp c ls g w) as [[s1 w1] t1] eqn:Hup.
      cbn [fst snd]. destruct s1 as [g'| |]; [|done..].
      destruct (loading_update_ready_inv _ _ _ _ _ _ _ _ _ Hset Hout Hup)
        as (e & l & -> & Hl & Hnone & Hid).
      cbn. exists rp, c, e, l. split; [done|]. split; [|done].
      by destruct (ready_output_inv _ _ _ Hout) as (-> & _).
  - by destruct (from_option unmount (ret ()) (child g) w) as [[? ?] ?].
Qed.

Lemma loading_run_snoc acts a s w :
  loading_run ctor fb (acts ++ [a]) s w =
  let '(s1, w1, t1) := loading_run ctor fb acts s w in
  let '(s2, w2, t2) := loading_step ctor fb a s1 w1 in
  (s2, w2, t1 ++ t2).
Proof.
  revert s w. induction acts as [|a' acts IH]; intros s w; cbn.
  - destruct (loading_step ctor fb a s w) as [[s2 w2] t2]. by rewrite app_nil_r.
  - destruct (loading_step ctor fb a' s w) as [[s1 w1] t1]. rewrite IH.
    destruct (loading_run ctor fb acts s1 w1) as [[s2 w2] t2].
    destruct (loading_step ctor fb a s2 w2) as [[s3 w3] t3]. by rewrite app_assoc.
Qed.

Lemma loading_run_settled acts s w :
  gate_settled s w →
  gate_settled (loading_run ctor fb acts s w).1.1 (loading_run ctor fb acts s w).1.2.
Proof.
  revert s w. induction acts as [|a acts IH]; intros s w Hset; [done|].
  cbn [loading_run].
  pose proof (loading_step_settled a s w Hset) as H1.
  destruct (loading_step ctor fb a s w) as [[s1 w1] t1]. cbn [fst snd] in H1.
  specialize (IH s1 w1 H1).
  by destruct (loading_run ctor fb acts s1 w1) as [[s2 w2] t2].
Qed.

Lemma gate_reached acts w0 g w tr f :
  loading_run ctor fb acts (LoadingMounted initial_loading_fiber) w0
  = (LoadingMounted g, w, tr) →
  child g = Some f →
  ∃ p c e l,
    f = stable_fiber p c e (Some e) (Some l) None
    ∧ themeEffect_deps g = Some (c, r_user p)
    ∧ onMount_editor l = e
    ∧ Editor_getCrashingError w e = None
    ∧ S (editor_id e) = length (editors w).
Proof.
  intros Hrun Hch.
  pose proof (loading_run_settled acts (LoadingMounted initial_loading_fiber) w0 I)
    as Hset.
  rewrite Hrun in Hset. cbn in Hset. by rewrite Hch in Hset.
Qed.

(** X12.  The status of a ready store is no part of the identity.  When the
    gate has rendered a ready status of a store and stays mounted, a render
    with another ready status of the same store ([not-synced],
    [synced-local], [synced-remote]), the same user and the same other
    props, logs no call and leaves the world and the gate as they are: the
    instance is kept. *)
Theorem ready_status_keeps_instance acts w0 g w tr st st' store u b c ls ls' :
  loading_run ctor fb
    (acts ++ [GateRender {| l_store := st; l_user := u; l_base := b |} c ls])
    (LoadingMounted initial_loading_fiber) w0
  = (LoadingMounted g, w, tr) →
  st ∈ ready_statuses store →
  st' ∈ ready_statuses store →
  loading_step ctor fb
    (GateRender {| l_store := st'; l_user := u; l_base := b |} c ls')
    (LoadingMounted g) w
  = (LoadingMounted g, w, []).
Proof.
  intros Hrun Hst Hst'. rewrite loading_run_snoc in Hrun.
  pose proof (loading_run_settled acts (LoadingMounted initial_loading_fiber) w0 I)
    as Hset.
  destruct (loading_run ctor fb acts (LoadingMounted initial_loading_fiber) w0)
    as [[s1 w1] t1]. cbn [fst snd] in Hset.
  destruct (loading_step ctor fb _ s1 w1) as [[s2 w2] t2] eqn:Hstep.
  injection Hrun as -> -> <-.
  destruct s1 as [g1| |]; cbn in Hstep; [|done..].
  pose proof (ready_output st store u b ls Hst) as Hout.
  destruct (loading_update_ready_inv _ _ _ _ _ _ _ _ _ Hset Hout Hstep)
    as (e & l & -> & Hl & Hnone & Hid).
  assert (layout_ok fb w e (Some l) None) as Hlay by done.
  cbn [loading_step].
  erewrite loading_update_child;
    [|by apply ready_output|reflexivity|exact Hlay|exact Hid].
  rewrite (update_same ctor fb _ c w e (Some l) None _ c Hlay eq_refl).
  cbn [fst snd gate_status l_user].
  unfold after_theme.
  cbn [themeEffect_deps]. rewrite changed_same.
  by rewrite camera_world_same, camera_update_same.
Qed.

(** X13.  Going back from a ready status disposes the instance.  When a
    gate that has a child is rendered with the status [loading], the child is
    removed: the exposed instance is disposed and the cleanup of mount
    sequencing runs, and the gate stays mounted without a child, so that a
    later ready status mounts the ready-store component anew, with the calls
    of a mount.  With the status [error] the same calls are made as with
    [loading] and the gate fails with the error of the store. *)
Theorem leaving_ready_disposes acts w0 g w tr f u b c ls :
  loading_run ctor fb acts (LoadingMounted initial_loading_fiber) w0
  = (LoadingMounted g, w, tr) →
  child g = Some f →
  ∃ e l,
    editor f = Some e ∧ layout f = Some l
    ∧ loading_step ctor fb
        (GateRender {| l_store := StatusLoading; l_user := u; l_base := b |} c ls)
        (LoadingMounted g) w
      = (LoadingMounted {| themeEffect_deps := Some (c, u); child := None |},
         after_theme g c u (dispose_world e w),
         EvDispose (editor_id e) :: teardown_block l)
    ∧ (∀ status store ls',
         status ∈ ready_statuses store →
         (loading_update ctor fb
            {| l_store := status; l_user := u; l_base := b |} c ls'
            {| themeEffect_deps := Some (c, u); child := None |}
            (after_theme g c u (dispose_world e w))).2
         = (mount ctor fb (ready_props store u b) c
              (after_theme g c u (dispose_world e w))).2)
    ∧ (∀ err,
         loading_step ctor fb
           (GateRender {| l_store := StatusError err; l_user := u; l_base := b |}
              c ls)
           (LoadingMounted g) w
         = (LoadingFailed err, dispose_world e w,
            EvDispose (editor_id e) :: teardown_block l)).
Proof.
  intros Hrun Hch.
  destruct (gate_reached _ _ _ _ _ _ Hrun Hch)
    as (p & c0 & e & l & -> & Hdeps & Hl & Hnone & Hid).
  exists e, l. split; [done|]. split; [done|]. split; [|split].
  - cbn [loading_step]. rewrite loading_update_loading, Hch.
    cbn [from_option]. rewrite unmount_stable. cbn [fst snd from_option].
    unfold after_theme. by destruct (changed _ _).
  - intros status store ls' Hin.
    by erewrite loading_update_mount; [|by apply ready_output|].
  - intros err. cbn [loading_step]. rewrite loading_update_error, Hch.
    cbn [from_option]. by rewrite unmount_stable.
Qed.

(** ** The class lists *)

Lemma themed_tokens scheme (l : list string) (t : string) :
  (t ≠ "tl-theme__light" → t ≠ "tl-theme__dark" → (t ∈ themed scheme l ↔ t ∈ l))
  ∧ ("tl-theme__dark" ∈ l → "tl-theme__dark" ∈ themed scheme l)
  ∧ ("tl-theme__light" ∈ themed scheme l → "tl-theme__light" ∈ l).
Proof.
  unfold themed, classList_add, classList_remove.
  case_bool_decide; [|done]. case_decide.
  - rewrite !list_elem_of_filter. intuition congruence.
  - rewrite !elem_of_app, !list_elem_of_filter, !list_elem_of_singleton.
    intuition congruence.
Qed.

Lemma classes_theme_world c u w c' :
  classes (theme_world c u w) c'
  = if decide (c' = c) then themed (colorScheme w !! user_ref u) (classes w c')
    else classes w c'.
Proof.
  unfold classes. destruct (theme_world_lookup c u w) as [H1 H2].
  case_decide as Hc; [by subst|]. by rewrite H2.
Qed.

Lemma only_themed_refl w w' : classList w' = classList w → only_themed w w'.
Proof. intros H c t. unfold classes. rewrite H. tauto. Qed.

Lemma only_themed_trans w1 w2 w3 :
  only_themed w1 w2 → only_themed w2 w3 → only_themed w1 w3.
Proof.
  intros H12 H23 c t.
  destruct (H12 c t) as (A1 & A2 & A3), (H23 c t) as (B1 & B2 & B3).
  split; [|tauto]. intros Hl Hd. rewrite (B1 Hl Hd). by apply A1.
Qed.

Lemma only_themed_after_theme g c u w :
  only_themed w (after_theme g c u w).
Proof.
  unfold after_theme. destruct (changed _ _); [|by apply only_themed_refl].
  intros c' t. rewrite classes_theme_world.
  case_decide; [apply themed_tokens|tauto].
Qed.

Lemma loading_step_themed a s w :
  childless s → stays_unready a →
  only_themed w (loading_step ctor fb a s w).1.2
  ∧ childless (loading_step ctor fb a s w).1.1.
Proof.
  intros Hs Ha. destruct a as [lp c ls|u scheme|], s as [g| |err];
    cbn [loading_step fst snd]; try (by split; [apply only_themed_refl|]).
  - destruct (loading_update_unready ctor fb lp c ls g w Ha Hs) as [_ H].
    destruct (l_store lp); try done; rewrite H; cbn [fst snd];
      (split; [|done]);
      first [apply only_themed_after_theme|by apply only_themed_refl].
  - cbn in Hs. rewrite Hs. split; [by apply only_themed_refl|done].
Qed.

(** X14.  While the store is not ready the gate only ever switches a
    container to the dark theme.  Over any run of a gate without a
    ready-store component under it, whose renders bring no ready store,
    whatever the user does to the preference, every class list keeps its
    other tokens, [tl-theme__dark] is never removed and [tl-theme__light] is
    never added: a preference that goes back to light is not followed. *)
Theorem theme_only_darkens acts s w (c : Ref) (t : string) :
  childless s →
  Forall stays_unready acts →
  (t ≠ "tl-theme__light" → t ≠ "tl-theme__dark" →
   (t ∈ classes (loading_run ctor fb acts s w).1.2 c ↔ t ∈ classes w c))
  ∧ ("tl-theme__dark" ∈ classes w c →
     "tl-theme__dark" ∈ classes (loading_run ctor fb acts s w).1.2 c)
  ∧ ("tl-theme__light" ∈ classes (loading_run ctor fb acts s w).1.2 c →
     "tl-theme__light" ∈ classes w c).
Proof.
  intros Hs Hall.
  assert (only_themed w (loading_run ctor fb acts s w).1.2) as H; [|apply H].
  revert s w Hs. induction Hall as [|a acts Ha _ IH]; intros s w Hs;
    [by apply only_themed_refl|].
  cbn [loading_run]. destruct (loading_step_themed a s w Hs Ha) as [H1 H2].
  destruct (loading_step ctor fb a s w) as [[s1 w1] t1]. cbn [fst snd] in H1, H2.
  specialize (IH s1 w1 H2).
  destruct (loading_run ctor fb acts s1 w1) as [[s2 w2] t2]. cbn [fst snd] in *.
  by eapply only_themed_trans.
Qed.

(** X15.  While the store is loading the theme effect follows the container
    and the user, and nothing else.  A render of a gate without a
    ready-store component under it, with the store loading, reads the
    preference again exactly when the container or the user is not the one
    of the last commit: then the classes of the container are themed by the
    preference of that user, and otherwise the class lists stay as they are.
    A render that throws the error of the store changes no class list. *)
Theorem theme_follows_container_and_user p c ls g w :
  child g = None →
  (l_store p = StatusLoading →
   themeEffect_deps g ≠ Some (c, l_user p) →
   classes (loading_update ctor fb p c ls g w).1.2 c
   = themed (colorScheme w !! user_ref (l_user p)) (classes w c)
   ∧ ∀ c', c' ≠ c →
           classes (loading_update ctor fb p c ls g w).1.2 c' = classes w c')
  ∧ (l_store p = StatusLoading →
     themeEffect_deps g = Some (c, l_user p) →
     classList (loading_update ctor fb p c ls g w).1.2 = classList w)
  ∧ (∀ err, l_store p = StatusError err →
            classList (loading_update ctor fb p c ls g w).1.2 = classList w).
Proof.
  intros Hch. split; [|split].
  - intros Hst Hdeps.
    destruct (loading_update_unready ctor fb p c ls g w) as [_ H];
      [by rewrite Hst|done|].
    rewrite Hst in H. rewrite H. cbn [fst snd]. unfold after_theme, changed.
    rewrite bool_decide_eq_true_2 by done.
    rewrite classes_theme_world, decide_True by done. split; [done|].
    intros c' Hc'. by rewrite classes_theme_world, decide_False.
  - intros Hst Hdeps.
    destruct (loading_update_unready ctor fb p c ls g w) as [_ H];
      [by rewrite Hst|done|].
    rewrite Hst in H. rewrite H. cbn [fst snd]. unfold after_theme.
    by rewrite Hdeps, changed_same.
  - intros err Hst.
    destruct (loading_update_unready ctor fb p c ls g w) as [_ H];
      [by rewrite Hst|done|].
    rewrite Hst in H. by rewrite H.
Qed.

(** ** [TldrawEditor] on top of the lifecycle *)

Lemma useMemo_user_kept cell u c1 c2 :
  useMemo_user (Some (u, useMemo_user cell u c1)) u c2 = useMemo_user cell u c1.
Proof. unfold useMemo_user at 1. by rewrite bool_decide_eq_true_2. Qed.

(** X16.  The defaults of [TldrawEditor] do not recreate the editor.  Two
    renders in a row whose props agree on the components, the store, the
    user (also when none is given, one being created then), [tools],
    [shapeUtils], [bindingUtils] (also when they are left out), [options],
    [licenseKey] and [cameraOptions] render the same boundary and hand down
    ready props with the same identity tuple: the arrays left out are the
    same module constants and the user is the memoised one.  So, in whatever
    state the ready-store component is after the first of them, the second
    one logs no call and leaves the world as it is, whatever it changes among
    [onMount], [initialState], [autoFocus] and [inferDarkMode]. *)
Theorem defaults_keep_instance
    (EMPTY_SHAPE_UTILS_ARRAY EMPTY_BINDING_UTILS_ARRAY EMPTY_TOOLS_ARRAY
       DefaultErrorFallback : Ref)
    props1 props2 fib created1 created2 p1 p0 c0 acts w0 c f w tr :
  same_inputs props1 props2 →
  container_state fib = Some c →
  inner (TldrawEditor EMPTY_SHAPE_UTILS_ARRAY EMPTY_BINDING_UTILS_ARRAY
           EMPTY_TOOLS_ARRAY DefaultErrorFallback props1 fib created1).1
  = Some (InnerReadyStore p1) →
  session ctor fb p0 c0 acts w0 = (Mounted p1 c f, w, tr) →
  ∃ p2 f',
    inner (TldrawEditor EMPTY_SHAPE_UTILS_ARRAY EMPTY_BINDING_UTILS_ARRAY
             EMPTY_TOOLS_ARRAY DefaultErrorFallback props2
             (TldrawEditor EMPTY_SHAPE_UTILS_ARRAY EMPTY_BINDING_UTILS_ARRAY
                EMPTY_TOOLS_ARRAY DefaultErrorFallback props1 fib created1).2
             created2).1
    = Some (InnerReadyStore p2)
    ∧ boundary_fallback
        (TldrawEditor EMPTY_SHAPE_UTILS_ARRAY EMPTY_BINDING_UTILS_ARRAY
           EMPTY_TOOLS_ARRAY DefaultErrorFallback props2
           (TldrawEditor EMPTY_SHAPE_UTILS_ARRAY EMPTY_BINDING_UTILS_ARRAY
              EMPTY_TOOLS_ARRAY DefaultErrorFallback props1 fib created1).2
           created2).1
      = boundary_fallback
          (TldrawEditor EMPTY_SHAPE_UTILS_ARRAY EMPTY_BINDING_UTILS_ARRAY
             EMPTY_TOOLS_ARRAY DefaultErrorFallback props1 fib created1).1
    ∧ identity_key p2 c = identity_key p1 c
    ∧ update ctor fb p2 c f w = (Mounted p2 c f', w, [])
    ∧ editor f' = editor f.
Proof.
  intros (Hcomp & Hst & Hu & Ht & Hs & Hb & Ho & Hl & Hcam) Hc Hin Hsess.
  unfold TldrawEditor in *. cbn [fst snd inner container_state user_memo] in *.
  rewrite Hc in *. rewrite <- Hst, <- Hu, useMemo_user_kept.
  destruct (t_store props1) as [|store|store]; try done.
  injection Hin as <-.
  eexists _. 
  assert (identity_key
            {| r_store := store;
               r_user := useMemo_user (user_memo fib) (t_user props1) created1;
               r_base := withDefaults EMPTY_SHAPE_UTILS_ARRAY
                           EMPTY_BINDING_UTILS_ARRAY EMPTY_TOOLS_ARRAY props2 |} c
          = identity_key
            {| r_store := store;
               r_user := useMemo_user (user_memo fib) (t_user props1) created1;
               r_base := withDefaults EMPTY_SHAPE_UTILS_ARRAY
                           EMPTY_BINDING_UTILS_ARRAY EMPTY_TOOLS_ARRAY props1 |} c)
    as Hk.
  { unfold identity_key, withDefaults. cbn. by rewrite Ht, Hs, Hb, Ho, Hl. }
  destruct (session_reached _ _ _ _ _ _ _ _ _ Hsess)
    as (e & lay & caught & -> & Hlay & Hid & _).
  eexists. split; [reflexivity|].
  split; [cbn [boundary_fallback]; by rewrite Hcomp|]. split; [exact Hk|].
  apply identity_key_deps in Hk.
  rewrite (update_same ctor fb _ c w e lay caught _ c Hlay Hk).
  cbn [r_base withDefaults cameraOptions].
  rewrite Hcam, camera_world_same, camera_update_same.
  done.
Qed.

(** X17.  What [TldrawEditor] builds the engine with.  The first render of
    [TldrawEditor] has no container and renders nothing inside its [div], so
    nothing is constructed.  Once the [div] is attached, the next render of a
    [TldrawEditor] that was given a [Store] instance mounts the ready-store
    component, whose one constructor call gets that store, the [div] as
    container, the user given or else the one created at the first render,
    the arrays given or else the empty module constants, [autoFocus] or else
    [true], and the other options as given. *)
Theorem TldrawEditor_mount_args
    (EMPTY_SHAPE_UTILS_ARRAY EMPTY_BINDING_UTILS_ARRAY EMPTY_TOOLS_ARRAY
       DefaultErrorFallback : Ref)
    props store div created created' w :
  t_store props = StoreInstance store →
  inner (TldrawEditor EMPTY_SHAPE_UTILS_ARRAY EMPTY_BINDING_UTILS_ARRAY
           EMPTY_TOOLS_ARRAY DefaultErrorFallback props
           initial_TldrawEditorFiber created).1 = None
  ∧ ∃ p,
      inner (TldrawEditor EMPTY_SHAPE_UTILS_ARRAY EMPTY_BINDING_UTILS_ARRAY
               EMPTY_TOOLS_ARRAY DefaultErrorFallback props
               (attach div
                  (TldrawEditor EMPTY_SHAPE_UTILS_ARRAY EMPTY_BINDING_UTILS_ARRAY
                     EMPTY_TOOLS_ARRAY DefaultErrorFallback props
                     initial_TldrawEditorFiber created).2)
               created').1
      = Some (InnerReadyStore p)
      ∧ omap construct_of (mount ctor fb p div w).2
        = [TldrawEditor_args EMPTY_SHAPE_UTILS_ARRAY EMPTY_BINDING_UTILS_ARRAY
             EMPTY_TOOLS_ARRAY props store div created].
Proof.
  intros Hst. split; [done|].
  unfold TldrawEditor.
  cbn [fst snd inner container_state user_memo attach initial_TldrawEditorFiber].
  rewrite Hst, useMemo_user_kept. eexists. split; [reflexivity|].
  match goal with
  | |- context [mount ctor fb ?p div w] =>
      destruct (mount_cases ctor fb p div w) as [[_ ->]|(err & _ & ->)]
  end; cbn [snd]; [|reflexivity].
  match goal with
  | |- omap construct_of ([EvNew ?e; _] ++ _) = _ =>
      replace (omap construct_of _) with [editor_args e] by (blocks; reflexivity)
  end.
  reflexivity.
Qed.

Lemma construct_mount p c w :
  omap construct_of (mount ctor fb p c w).2
  = [editor_args_of p c (current_options p)].
Proof.
  destruct (mount_cases ctor fb p c w) as [[_ ->]|(err & _ & ->)]; cbn [snd];
    [|reflexivity].
  replace (omap construct_of _) with [editor_args (next_editor p c w)]
    by (blocks; reflexivity).
  reflexivity.
Qed.

(** X18.  A [TldrawEditor] without a store waits for its own.  When no
    store is given, [TldrawEditor] renders [TldrawEditorWithOwnStore], which
    hands the store of [useLocalStore] to the gate together with the other
    props.  Mounted with that store still loading, it calls no constructor;
    with that store in error, the commit fails with the error of the store
    and no constructor is called; with that store ready, the constructor is
    called once, with the underlying store, the [div], the user given or
    created, the arrays given or the empty module constants, and
    [autoFocus] or else [true]. *)
Theorem own_store_waits
    (EMPTY_SHAPE_UTILS_ARRAY EMPTY_BINDING_UTILS_ARRAY EMPTY_TOOLS_ARRAY
       DefaultErrorFallback : Ref)
    props div created created' ls w :
  t_store props = StoreUndefined →
  ∃ user base,
    inner (TldrawEditor EMPTY_SHAPE_UTILS_ARRAY EMPTY_BINDING_UTILS_ARRAY
             EMPTY_TOOLS_ARRAY DefaultErrorFallback props
             (attach div
                (TldrawEditor EMPTY_SHAPE_UTILS_ARRAY EMPTY_BINDING_UTILS_ARRAY
                   EMPTY_TOOLS_ARRAY DefaultErrorFallback props
                   initial_TldrawEditorFiber created).2)
             created').1
    = Some (InnerOwnStore user base)
    ∧ omap construct_of
        (loading_update ctor fb (TldrawEditorWithOwnStore user base StatusLoading)
           div ls initial_loading_fiber w).2 = []
    ∧ (∀ err,
         (loading_update ctor fb
            (TldrawEditorWithOwnStore user base (StatusError err))
            div ls initial_loading_fiber w).1.1 = LoadingFailed err
         ∧ omap construct_of
             (loading_update ctor fb
                (TldrawEditorWithOwnStore user base (StatusError err))
                div ls initial_loading_fiber w).2 = [])
    ∧ (∀ status store,
         status ∈ ready_statuses store →
         omap construct_of
           (loading_update ctor fb (TldrawEditorWithOwnStore user base status)
              div ls initial_loading_fiber w).2
         = [TldrawEditor_args EMPTY_SHAPE_UTILS_ARRAY EMPTY_BINDING_UTILS_ARRAY
              EMPTY_TOOLS_ARRAY props store div created]).
Proof.
  intros Hst. unfold TldrawEditor.
  cbn [fst snd inner container_state user_memo attach initial_TldrawEditorFiber].
  rewrite Hst, useMemo_user_kept. eexists _, _. split; [reflexivity|].
  unfold TldrawEditorWithOwnStore. split; [|split].
  - by rewrite loading_update_loading.
  - intros err. by rewrite loading_update_error.
  - intros status store Hin.
    erewrite loading_update_mount; [|by apply ready_output|reflexivity].
    cbn [snd]. by rewrite construct_mount.
Qed.

End Coverage.

(** * The [Button] component *)

Section ButtonProofs.

Variable cn : list (option string) → string.

(** X19.  When [Button] renders nothing.  [Button] returns [null] exactly
    when it has no [href] or an empty one, no [onClick], and [submit] is
    false or left out; in every other case it renders an element with the
    caption among its children. *)
Theorem Button_null_iff props :
  (Button cn props = RenderNoButton
   ↔ truthy (b_href props) = None ∧ b_onClick props = None
     ∧ default false (b_submit props) = false)
  ∧ (Button cn props ≠ RenderNoButton →
     Caption (b_caption props) ∈ children_of (Button cn props)).
Proof.
  unfold Button.
  destruct (truthy (b_href props)) as [h|], (b_onClick props) as [f|],
    (default false (b_submit props)); cbn [children_of];
    (split; [split; [try done|by intros (? & ? & ?)]|]);
    try (intros _; unfold Button_children;
         rewrite !elem_of_app, list_elem_of_singleton; tauto);
    done.
Qed.

(** X20.  Which handler wins.  With an [href], [Button] renders a link and
    ignores [onClick] and [submit]; the link opens in a new tab exactly when
    it carries [rel="noopener noreferrer"].  Without an [href] but with an
    [onClick], it renders a button that ignores [submit]: the button has no
    [type="submit"]. *)
Theorem Button_precedence props :
  (∀ href, truthy (b_href props) = Some href →
     (∀ onClick submit,
        Button cn (with_handlers onClick submit props) = Button cn props)
     ∧ ∃ target rel,
         Button cn props
         = RenderLink href target rel (Button_className cn props)
             (Button_children cn props)
         ∧ (target = Some "_blank" ↔ b_newTab props = Some true)
         ∧ (rel = Some "noopener noreferrer" ↔ b_newTab props = Some true))
  ∧ (truthy (b_href props) = None →
     ∀ onClick submit,
       Button cn (with_handlers (Some onClick) submit props)
       = RenderButton (Some onClick) None (Button_className cn props)
           (Button_children cn props)).
Proof.
  split.
  - intros href Hh. split.
    + intros onClick submit. unfold Button. cbn [with_handlers b_href b_newTab].
      by rewrite Hh.
    + unfold Button. rewrite Hh. eexists _, _. split; [reflexivity|].
      destruct (b_newTab props) as [[]|]; cbn; split; split; done.
  - intros Hh onClick submit. unfold Button.
    cbn [with_handlers b_href b_onClick]. by rewrite Hh.
Qed.

End ButtonProofs.

(** * The further properties at concrete inputs *)

(** X1 after one replacement: the first instance is disposed, the second
    is live. *)
Lemma one_live_instance_witness :
  ∃ s w tr,
    session never_throws sample_fallback sample_props 9 [ActRender other_props 9] empty_world
    = (s, w, tr)
    ∧ disposed_at w 0 = Some true
    ∧ disposed_at w 1 = Some false.
Proof.
  eexists _, _, _. split; [evaluated|]. split.
  - eapply eq_trans;
      [eapply (one_live_instance never_throws sample_fallback sample_props 9
                 [ActRender other_props 9] empty_world _ _ _ 0);
       [evaluated|cbn; lia|cbn; lia]
      |vm_compute; reflexivity].
  - eapply eq_trans;
      [eapply (one_live_instance never_throws sample_fallback sample_props 9
                 [ActRender other_props 9] empty_world _ _ _ 1);
       [evaluated|cbn; lia|cbn; lia]
      |vm_compute; reflexivity].
Defined.

(** X2 on a render that changes the one-shot options only. *)
Lemma quiet_rerender_witness :
  ∃ p c f w tr f',
    session never_throws sample_fallback sample_props 9 [] empty_world = (Mounted p c f, w, tr)
    ∧ update never_throws sample_fallback oneshot_props 9 f w = (Mounted oneshot_props 9 f', w, [])
    ∧ editor f' = editor f.
Proof.
  edestruct quiet_rerender
    with (ctor := never_throws) (fb := sample_fallback) (p0 := sample_props) (c0 := 9)
         (acts := @nil Action) (w0 := empty_world) (p' := oneshot_props) (c' := 9)
    as (f' & H1 & H2 & _).
  - evaluated.
  - vm_compute; reflexivity.
  - reflexivity.
  - eexists _, _, _, _, _, f'. split; [evaluated|]. split; [exact H1|exact H2].
Defined.

(** X3 on a session that ends unmounted: the flag is still set. *)
Lemma readiness_flag_latched_witness :
  ∃ s w tr,
    session never_throws sample_fallback sample_props 9 [ActUnmount] empty_world = (s, w, tr)
    ∧ tldrawReady w = true.
Proof.
  eexists _, _, _. split; [evaluated|].
  eapply eq_trans;
    [eapply (readiness_flag_latched never_throws sample_fallback sample_props 9 [ActUnmount]
               empty_world); evaluated
    |vm_compute; reflexivity].
Defined.

(** X4 on the sample. *)
Lemma mount_order_witness :
  (mount never_throws sample_fallback sample_props 9 empty_world).2 =
    [EvNew (next_editor sample_props 9 empty_world); EvSetEditor 0]
    ++ mount_block (next_editor sample_props 9 empty_world)
         (onMount (r_base sample_props))
    ++ [EvSetCameraOptions 0 7]
  ∧ camera_at (mount never_throws sample_fallback sample_props 9 empty_world).1.2 0 = Some 7.
Proof.
  edestruct (mount_order never_throws sample_fallback sample_props 9 empty_world)
    as (H1 & _ & _ & H2).
  - reflexivity.
  - split; [exact H1|exact H2].
Defined.

(** X5 on a mounted sample whose store changes. *)
Lemma replacement_order_witness :
  ∃ p c f w tr e,
    session never_throws sample_fallback sample_props 9 [] empty_world = (Mounted p c f, w, tr)
    ∧ editor f = Some e
    ∧ (update never_throws sample_fallback other_props 9 f w).2 =
      [EvDispose (editor_id e); EvNew (successor e other_props 9);
       EvSetEditor (S (editor_id e))]
      ++ camera_update e (cameraOptions (r_base p))
           (cameraOptions (r_base other_props))
      ++ from_option teardown_block [] (layout f)
      ++ match boundary f with
         | None =>
             mount_block (successor e other_props 9) (onMount (r_base other_props))
         | Some _ => []
         end
      ++ from_option (λ cam, [EvSetCameraOptions (S (editor_id e)) cam]) []
           (cameraOptions (r_base other_props)).
Proof.
  eexists _, _, _, _, _, _. split; [evaluated|]. split; [reflexivity|].
  eapply (replacement_order never_throws sample_fallback sample_props 9 [] empty_world).
  - evaluated.
  - reflexivity.
  - vm_compute. discriminate.
  - reflexivity.
Defined.

(** X6 with a constructor that throws for the second store. *)
Lemma failed_replacement_order_witness :
  ∃ p c f w tr e,
    session throws_for_other sample_fallback sample_props 9 [] empty_world = (Mounted p c f, w, tr)
    ∧ editor f = Some e
    ∧ update throws_for_other sample_fallback other_camera_props 9 f w =
      (Failed boom, dispose_world e w,
       [EvDispose (editor_id e);
        EvNewThrow
          (editor_args_of other_camera_props 9 (current_options other_camera_props))
          boom]
       ++ from_option teardown_block [] (layout f))
    ∧ omap camera_of (update throws_for_other sample_fallback other_camera_props 9 f w).2 = [].
Proof.
  eexists _, _, _, _, _, _. split; [evaluated|]. split; [reflexivity|].
  eapply (failed_replacement_order throws_for_other sample_fallback sample_props 9 []
            empty_world).
  - evaluated.
  - reflexivity.
  - vm_compute. discriminate.
  - vm_compute; reflexivity.
Defined.

(** X7 on a mounted sample. *)
Lemma unmount_order_witness :
  ∃ p c f w tr e,
    session never_throws sample_fallback sample_props 9 [] empty_world = (Mounted p c f, w, tr)
    ∧ editor f = Some e
    ∧ step never_throws sample_fallback ActUnmount (Mounted p c f) w =
      (Unmounted, dispose_world e w,
       EvDispose (editor_id e) :: from_option teardown_block [] (layout f)).
Proof.
  eexists _, _, _, _, _, _. split; [evaluated|]. split; [reflexivity|].
  eapply (unmount_order never_throws sample_fallback sample_props 9 [] empty_world).
  - evaluated.
  - reflexivity.
Defined.

(** X8 on a mounted sample whose store and camera options change. *)
Lemma replaced_instance_calls_witness :
  ∃ p c f w tr e l,
    session never_throws sample_fallback sample_props 9 [] empty_world = (Mounted p c f, w, tr)
    ∧ editor f = Some e
    ∧ layout f = Some l
    ∧ filter (about (editor_id e)) (update never_throws sample_fallback other_camera_props 9 f w).2
      = [EvDispose (editor_id e); EvSetCameraOptions (editor_id e) 8]
        ++ teardown_block l
    ∧ disposed_at (update never_throws sample_fallback other_camera_props 9 f w).1.2 (editor_id e)
      = Some true
    ∧ camera_at (update never_throws sample_fallback other_camera_props 9 f w).1.2 (editor_id e)
      = Some 8.
Proof.
  eexists _, _, _, _, _, _, _. split; [evaluated|].
  split; [reflexivity|]. split; [reflexivity|].
  eapply (replaced_instance_calls never_throws sample_fallback sample_props 9 [] empty_world).
  - evaluated.
  - reflexivity.
  - reflexivity.
  - vm_compute. discriminate.
  - reflexivity.
  - reflexivity.
  - vm_compute. discriminate.
Defined.

(** X9 on the first crash of the mounted sample, with a component in the
    [ErrorFallback] slot. *)
Lemma crash_runs_teardown_witness :
  ∃ p c f w tr e l f',
    session never_throws sample_fallback sample_props 9 [] empty_world
    = (Mounted p c f, w, tr)
    ∧ editor f = Some e
    ∧ layout f = Some l
    ∧ step never_throws sample_fallback (ActCrash (editor_id e) boom)
        (Mounted p c f) w
      = (Mounted p c f', latch_world (editor_id e) boom w,
         teardown_block l ++ [EvAnnotateError (editor_id e) boom])
    ∧ layout f' = None
    ∧ disposed_at (latch_world (editor_id e) boom w) (editor_id e) = Some false.
Proof.
  edestruct crash_runs_teardown
    with (ctor := never_throws) (fb := sample_fallback)
         (p0 := sample_props) (c0 := 9)
         (acts := @nil Action) (w0 := empty_world) (err := boom)
    as (_ & Hyes & _).
  - evaluated.
  - reflexivity.
  - reflexivity.
  - destruct Hyes as (f' & H1 & _ & H2 & _ & H3); [by eexists|].
    eexists _, _, _, _, _, _, _, f'. split; [evaluated|].
    split; [reflexivity|]. split; [reflexivity|].
    split; [exact H1|]. split; [exact H2|exact H3].
Defined.

(** X10 after a replacement: the exposed instance has the second store. *)
Lemma exposed_instance_matches_props_witness :
  ∃ p c f w tr e,
    session never_throws sample_fallback sample_props 9 [ActRender other_props 9] empty_world
    = (Mounted p c f, w, tr)
    ∧ editor f = Some e
    ∧ args_key (editor_args e) = identity_key other_props 9.
Proof.
  edestruct exposed_instance_matches_props
    with (ctor := never_throws) (fb := sample_fallback) (p0 := sample_props) (c0 := 9)
         (acts := [ActRender other_props 9]) (w0 := empty_world)
    as (e & H1 & H2).
  - evaluated.
  - eexists _, _, _, _, _, e. split; [evaluated|]. split; [exact H1|exact H2].
Defined.

(** X11 on a session with one replacement. *)
Lemma every_built_instance_exposed_witness :
  ∃ s w tr,
    session never_throws sample_fallback sample_props 9 [ActRender other_props 9] empty_world
    = (s, w, tr)
    ∧ omap exposed_of tr = [0; 1].
Proof.
  eexists _, _, _. split; [evaluated|].
  eapply eq_trans;
    [eapply (every_built_instance_exposed never_throws sample_fallback sample_props 9
               [ActRender other_props 9] empty_world); evaluated
    |vm_compute; reflexivity].
Defined.

(** X12 on a store that goes from not synced to synced. *)
Lemma ready_status_keeps_instance_witness :
  ∃ g w tr,
    loading_run never_throws sample_fallback
      ([] ++ [GateRender (sample_loading (StatusNotSynced sample_store)) 9 None])
      (LoadingMounted initial_loading_fiber) empty_world
    = (LoadingMounted g, w, tr)
    ∧ loading_step never_throws sample_fallback
        (GateRender (sample_loading (StatusSyncedRemote sample_store)) 9 None)
        (LoadingMounted g) w
      = (LoadingMounted g, w, []).
Proof.
  eexists _, _, _. split; [evaluated|].
  eapply (ready_status_keeps_instance never_throws sample_fallback [] empty_world _ _ _
            (StatusNotSynced sample_store) (StatusSyncedRemote sample_store)
            sample_store sample_user sample_base 9 None None).
  - evaluated.
  - apply list_elem_of_In. left. reflexivity.
  - apply list_elem_of_In. right. right. left. reflexivity.
Defined.

(** X13 on a synced store that goes back to loading. *)
Lemma leaving_ready_disposes_witness :
  ∃ g w tr f e l,
    loading_run never_throws sample_fallback
      [GateRender (sample_loading (StatusSyncedLocal sample_store)) 9 None]
      (LoadingMounted initial_loading_fiber) empty_world
    = (LoadingMounted g, w, tr)
    ∧ child g = Some f
    ∧ editor f = Some e
    ∧ layout f = Some l
    ∧ loading_step never_throws sample_fallback
        (GateRender (sample_loading StatusLoading) 9 None) (LoadingMounted g) w
      = (LoadingMounted {| themeEffect_deps := Some (9, sample_user); child := None |},
         after_theme g 9 sample_user (dispose_world e w),
         EvDispose (editor_id e) :: teardown_block l).
Proof.
  edestruct leaving_ready_disposes
    with (ctor := never_throws) (fb := sample_fallback)
         (acts := [GateRender (sample_loading (StatusSyncedLocal sample_store)) 9 None])
         (w0 := empty_world) (u := sample_user) (b := sample_base) (c := 9)
         (ls := @None Ref)
    as (e & l & H1 & H2 & H3 & _).
  - evaluated.
  - reflexivity.
  - eexists _, _, _, _, e, l. split; [evaluated|]. split; [reflexivity|].
    split; [exact H1|]. split; [exact H2|exact H3].
Defined.

(** X14 on a gate that mounts with the dark scheme: the other token stays. *)
Lemma theme_only_darkens_witness :
  "tl-container"
  ∈ classes
      (loading_run never_throws sample_fallback
         [GateRender (sample_loading StatusLoading) 9 None]
         (LoadingMounted initial_loading_fiber) dark_world).1.2 9.
Proof.
  destruct (theme_only_darkens never_throws sample_fallback
              [GateRender (sample_loading StatusLoading) 9 None]
              (LoadingMounted initial_loading_fiber) dark_world 9 "tl-container")
    as (H & _ & _).
  - reflexivity.
  - repeat constructor.
  - apply H; [discriminate|discriminate|].
    apply list_elem_of_In. vm_compute. left. reflexivity.
Defined.

(** X15 on a gate whose user changes to one with the dark scheme. *)
Lemma theme_follows_container_and_user_witness :
  classes
    (loading_update never_throws sample_fallback (sample_loading StatusLoading)
       9 None
       {| themeEffect_deps := Some (9, {| user_ref := 5 |}); child := None |}
       dark_world).1.2 9
  = themed (Some "dark") ["tl-container"; "tl-theme__light"].
Proof.
  destruct (theme_follows_container_and_user never_throws sample_fallback
              (sample_loading StatusLoading) 9 None
              {| themeEffect_deps := Some (9, {| user_ref := 5 |}); child := None |}
              dark_world)
    as (H & _ & _); [reflexivity|].
  destruct H as [H _]; [reflexivity|intros [=]|].
  exact H.
Defined.

(** X16 on two renders of a [TldrawEditor] that leaves the arrays and the
    user out. *)
Lemma defaults_keep_instance_witness :
  ∃ f w tr p2 f',
    session never_throws sample_fallback handed_down 9 [] empty_world
    = (Mounted handed_down 9 f, w, tr)
    ∧ inner (TldrawEditor 40 41 42 43 restyled_editor_props
               (TldrawEditor 40 41 42 43 sample_editor_props
                  mounted_editor_fiber created_user).2
               {| user_ref := 31 |}).1
      = Some (InnerReadyStore p2)
    ∧ update never_throws sample_fallback p2 9 f w = (Mounted p2 9 f', w, []).
Proof.
  edestruct defaults_keep_instance
    with (ctor := never_throws) (fb := sample_fallback)
         (EMPTY_SHAPE_UTILS_ARRAY := 40) (EMPTY_BINDING_UTILS_ARRAY := 41)
         (EMPTY_TOOLS_ARRAY := 42) (DefaultErrorFallback := 43)
         (props1 := sample_editor_props) (props2 := restyled_editor_props)
         (fib := mounted_editor_fiber) (created1 := created_user)
         (created2 := {| user_ref := 31 |}) (p1 := handed_down)
         (p0 := handed_down) (c0 := 9) (acts := @nil Action) (w0 := empty_world)
    as (p2 & f' & H1 & _ & _ & H2 & _).
  - repeat split; reflexivity.
  - reflexivity.
  - reflexivity.
  - evaluated.
  - eexists _, _, _, p2, f'. split; [evaluated|]. split; [exact H1|exact H2].
Defined.

(** X17 on the sample: the engine gets the empty module constants, the
    created user and [autoFocus = true]. *)
Lemma TldrawEditor_mount_args_witness :
  ∃ p,
    inner (TldrawEditor 40 41 42 43 sample_editor_props
             (attach 9
                (TldrawEditor 40 41 42 43 sample_editor_props
                   initial_TldrawEditorFiber created_user).2)
             {| user_ref := 31 |}).1
    = Some (InnerReadyStore p)
    ∧ omap construct_of (mount never_throws sample_fallback p 9 empty_world).2
      = [TldrawEditor_args 40 41 42 sample_editor_props sample_store 9 created_user].
Proof.
  edestruct TldrawEditor_mount_args
    with (ctor := never_throws) (fb := sample_fallback)
         (EMPTY_SHAPE_UTILS_ARRAY := 40) (EMPTY_BINDING_UTILS_ARRAY := 41)
         (EMPTY_TOOLS_ARRAY := 42) (DefaultErrorFallback := 43)
         (props := sample_editor_props) (store := sample_store) (div := 9)
         (created := created_user) (created' := {| user_ref := 31 |})
         (w := empty_world)
    as (_ & p & H1 & H2).
  - reflexivity.
  - exists p. split; [exact H1|exact H2].
Defined.

(** X18 on a [TldrawEditor] without a store whose own store is loading. *)
Lemma own_store_waits_witness :
  ∃ user base,
    omap construct_of
      (loading_update never_throws sample_fallback
         (TldrawEditorWithOwnStore user base StatusLoading)
         9 None initial_loading_fiber empty_world).2 = []
    ∧ omap construct_of
        (loading_update never_throws sample_fallback
           (TldrawEditorWithOwnStore user base (StatusSyncedLocal sample_store))
           9 None initial_loading_fiber empty_world).2
      = [TldrawEditor_args 40 41 42 storeless_editor_props sample_store 9
           created_user].
Proof.
  edestruct own_store_waits
    with (ctor := never_throws) (fb := sample_fallback)
         (EMPTY_SHAPE_UTILS_ARRAY := 40) (EMPTY_BINDING_UTILS_ARRAY := 41)
         (EMPTY_TOOLS_ARRAY := 42) (DefaultErrorFallback := 43)
         (props := storeless_editor_props)
         (div := 9) (created := created_user) (created' := {| user_ref := 31 |})
         (ls := @None Ref) (w := empty_world)
    as (user & base & _ & H1 & _ & H2).
  - reflexivity.
  - exists user, base. split; [exact H1|].
    apply (H2 (StatusSyncedLocal sample_store) sample_store).
    apply list_elem_of_In. right. left. reflexivity.
Defined.

(** X19 on a submit button whose [href] is empty. *)
Lemma Button_null_iff_witness :
  Caption "Send" ∈ children_of (Button join_classes sample_submit).
Proof.
  destruct (Button_null_iff join_classes sample_submit) as [_ H].
  apply H. intros Heq. vm_compute in Heq. discriminate Heq.
Defined.

(** X20 on a link that was also given handlers. *)
Lemma Button_precedence_witness :
  Button join_classes (with_handlers None None sample_button)
  = Button join_classes sample_button.
Proof.
  destruct (Button_precedence join_classes sample_button) as [H _].
  destruct (H "/docs" eq_refl) as [H' _]. apply H'.
Defined.
